(** * Compressed source codec and production classifier

    A shallow embedding of [src/compressed-source.cc] (the codec that keeps
    JavaScript source text as a byte stream of dictionary tokens and escapes)
    and of [src/production-classifier.h] (the parser's buffered error log),
    with the properties the specification states about them and further
    properties of the code: of the error log, of the index, of the cursor
    and of the decoders.

    Conventions of the embedding.
    - C++ [int], [unsigned] and [size_t] values are integers of [Z].  Lengths
      and offsets of strings and byte arrays stay far below [2^31] (a V8
      string or byte array is at most [String::kMaxLength] long), so sums of
      offsets are written without a reduction modulo [2^32]; where the source
      relies on the width of a value (a bit-wise complement, a narrowing
      cast, a read of an index entry) the width is written out.
    - A vector is a list; a read outside it has no value and is the fault
      [OutOfBounds].
    - [ASSERT] and [DCHECK] are checked in debug builds only: every function
      that contains one takes the build as the boolean [debug].  [CHECK] is
      checked in every build.
    - A [while] loop is a [Fixpoint] on a fuel that the callers set to a bound
      of the loop's iterations. *)

From Stdlib Require Import String ZArith List Lia Bool.
Import ListNotations.
Local Open Scope Z_scope.

(** ** Faults and results *)

Inductive fault : Type :=
| OutOfBounds
| AssertionFailed
| UnreachableCode
| OutOfFuel.

Inductive result (A : Type) : Type :=
| Ok (a : A)
| Fault (f : fault).

Arguments Ok {A} a.
Arguments Fault {A} f.

Definition bind {A B : Type} (r : result A) (k : A -> result B) : result B :=
  match r with
  | Ok a => k a
  | Fault f => Fault f
  end.

Notation "x <- e ;; k" := (bind e (fun x => k))
  (at level 61, e at next level, right associativity).
Notation "' p <- e ;; k" := (bind e (fun x => let p := x in k))
  (at level 61, p pattern, e at next level, right associativity).
Notation "e ;;; k" := (bind e (fun _ => k))
  (at level 61, right associativity).

(** [ASSERT(cond)] of a build: a fault in a debug build when [cond] is false,
    nothing in a release build. *)
Definition ASSERT (debug cond : bool) : result unit :=
  if debug && negb cond then Fault AssertionFailed else Ok tt.

(** [CHECK(cond)]: checked in every build. *)
Definition CHECK (cond : bool) : result unit :=
  if cond then Ok tt else Fault AssertionFailed.

(** [UNREACHABLE()]: fatal in a debug build, nothing in a release build. *)
Definition UNREACHABLE (debug : bool) : result unit :=
  if debug then Fault UnreachableCode else Ok tt.

(** [v[i]] on a vector. *)
Definition at_ {A : Type} (v : list A) (i : Z) : result A :=
  if i <? 0 then Fault OutOfBounds
  else match nth_error v (Z.to_nat i) with
       | Some x => Ok x
       | None => Fault OutOfBounds
       end.

(** The complement [~x] of a 32-bit [unsigned]. *)
Definition complement32 (x : Z) : Z := Z.lnot x mod 2 ^ 32.

(** The sum [a + b] of two [int]s.  A sum that leaves the range of [int] is
    undefined in C++; the compiled code wraps around, and so does the
    model. *)
Definition int_add (a b : Z) : Z := (a + b + 2 ^ 31) mod 2 ^ 32 - 2 ^ 31.

(** * The production classifier ([src/production-classifier.h]) *)

Module ProductionClassifier.

Inductive TargetProduction : Type :=
| ExpressionProduction
| BindingPatternProduction
| AssignmentPatternProduction
| DistinctFormalParametersProduction
| StrictModeFormalParametersProduction
| StrongModeFormalParametersProduction
| ArrowFormalParametersProduction.

(** The enumerators' values. *)
Definition bits (p : TargetProduction) : Z :=
  match p with
  | ExpressionProduction => Z.shiftl 1 0
  | BindingPatternProduction => Z.shiftl 1 1
  | AssignmentPatternProduction => Z.shiftl 1 2
  | DistinctFormalParametersProduction => Z.shiftl 1 3
  | StrictModeFormalParametersProduction => Z.shiftl 1 4
  | StrongModeFormalParametersProduction => Z.shiftl 1 5
  | ArrowFormalParametersProduction => Z.shiftl 1 6
  end.

Definition is_arrow (p : TargetProduction) : bool :=
  match p with
  | ArrowFormalParametersProduction => true
  | _ => false
  end.

Definition PatternProductions : Z :=
  Z.lor (bits BindingPatternProduction) (bits AssignmentPatternProduction).

Definition FormalParametersProductions : Z :=
  Z.lor (Z.lor (bits DistinctFormalParametersProduction)
               (bits StrictModeFormalParametersProduction))
        (bits StrongModeFormalParametersProduction).

Definition StandardProductions : Z :=
  Z.lor (bits ExpressionProduction) PatternProductions.

Definition AllProductions : Z :=
  Z.lor (Z.lor StandardProductions FormalParametersProductions)
        (bits ArrowFormalParametersProduction).

(** [Error]: a source location (begin and end position), a message template
    and an optional argument. *)
Record Error : Type := mkError {
  location : Z * Z;
  message : Z;
  arg : option string
}.

(** [BufferElement]: the kind is the constructor; the union holds the skip
    count of a [Skip] and the error of a [Leaf]. *)
Inductive BufferElement : Type :=
| Leaf (invalid_productions_ : Z) (error_ : Error)
| Skip (invalid_productions_ : Z) (skip_ : Z).

Definition is_leaf (elt : BufferElement) : bool :=
  match elt with Leaf _ _ => true | Skip _ _ => false end.

Definition is_skip (elt : BufferElement) : bool :=
  match elt with Leaf _ _ => false | Skip _ _ => true end.

Definition elt_invalid_productions (elt : BufferElement) : Z :=
  match elt with Leaf p _ => p | Skip p _ => p end.

Definition skip (elt : BufferElement) : Z :=
  match elt with Leaf _ _ => 0 | Skip _ n => n end.

(** [BufferElement::error()], with its [DCHECK(is_leaf())]; the union of a
    [Skip] holds no error. *)
Definition error (debug : bool) (elt : BufferElement) : result Error :=
  ASSERT debug (is_leaf elt) ;;;
  match elt with
  | Leaf _ e => Ok e
  | Skip _ _ => Fault OutOfBounds
  end.

(** The classifier owns the log [buffer_]; a cursor refers to its
    classifier, so the operations of a cursor take and return the log. *)
Definition Buffer : Type := list BufferElement.

Record Cursor : Type := mkCursor {
  start : Z;
  invalid_productions : Z
}.

Definition size (buffer_ : Buffer) : Z := Z.of_nat (length buffer_).

(** [push()], that is [Cursor(this)]. *)
Definition push (buffer_ : Buffer) : Cursor := mkCursor (size buffer_) 0.

Definition is_valid (c : Cursor) (production : TargetProduction) : bool :=
  Z.land (invalid_productions c) (bits production) =? 0.

Definition is_valid_expression (c : Cursor) : bool :=
  is_valid c ExpressionProduction.

Definition is_valid_binding_pattern (c : Cursor) : bool :=
  is_valid c BindingPatternProduction.

Definition is_valid_arrow_formal_parameters (c : Cursor) : bool :=
  is_valid c ArrowFormalParametersProduction.

Definition RecordError (c : Cursor) (buffer_ : Buffer)
    (production : TargetProduction) (e : Error) : Cursor * Buffer :=
  if negb (is_valid c production) then (c, buffer_)
  else (mkCursor (start c) (Z.lor (invalid_productions c) (bits production)),
        buffer_ ++ [Leaf (bits production) e]).

Definition Accumulate (outer inner : Cursor) (productions : Z) : Cursor :=
  if invalid_productions inner =? 0 then outer
  else
    let non_arrow_inner_invalid_productions :=
      Z.land (invalid_productions inner)
             (complement32 (bits ArrowFormalParametersProduction)) in
    let non_arrow_productions :=
      Z.land productions
             (complement32 (bits ArrowFormalParametersProduction)) in
    let errors :=
      Z.land non_arrow_productions non_arrow_inner_invalid_productions in
    let invalid_productions_ := Z.lor (invalid_productions outer) errors in
    if negb (Z.land productions (bits ArrowFormalParametersProduction) =? 0)
       && negb (is_valid_binding_pattern inner)
    then mkCursor (start outer)
           (Z.lor invalid_productions_ (bits ArrowFormalParametersProduction))
    else mkCursor (start outer) invalid_productions_.

(** The loop of [FindError]; [end_] is the loop's variable [end].  With
    [end_ = 0] the index [end - 1] wraps around to [SIZE_MAX], a read outside
    the log; here it is [-1], outside as well. *)
Fixpoint FindError_loop (fuel : nat) (debug : bool) (buffer_ : Buffer)
    (production : TargetProduction) (end_ : Z) : result Error :=
  match fuel with
  | O => Fault OutOfFuel
  | S fuel' =>
    ASSERT debug (0 <? end_) ;;;
    let idx := end_ - 1 in
    elt <- at_ buffer_ idx ;;
    if Z.land (elt_invalid_productions elt) (bits production) =? 0 then
      ASSERT debug (skip elt <=? idx) ;;;
      if is_arrow production
         && negb (Z.land (elt_invalid_productions elt)
                         (bits BindingPatternProduction) =? 0)
      then FindError_loop fuel' debug buffer_ production idx
      else FindError_loop fuel' debug buffer_ production (idx - skip elt)
    else if is_leaf elt then error debug elt
    else FindError_loop fuel' debug buffer_ production idx
  end.

(** [end] decreases by one at least in every iteration, so the loop runs at
    most [size buffer_] times before it returns or reads outside the log. *)
Definition FindError (debug : bool) (c : Cursor) (buffer_ : Buffer)
    (production : TargetProduction) : result Error :=
  CHECK (negb (is_valid c production)) ;;;
  FindError_loop (S (length buffer_)) debug buffer_ production (size buffer_).

Definition expression_error (debug : bool) (c : Cursor) (buffer_ : Buffer) :=
  FindError debug c buffer_ ExpressionProduction.

Definition arrow_formal_parameters_error (debug : bool) (c : Cursor)
    (buffer_ : Buffer) :=
  FindError debug c buffer_ ArrowFormalParametersProduction.

(** [pop(cursor)], called by the cursor's destructor.  [resize] to the
    cursor's start only shrinks the log: the start is at most its size. *)
Definition pop (debug : bool) (buffer_ : Buffer) (cursor : Cursor)
    : result Buffer :=
  ASSERT debug (start cursor <=? size buffer_) ;;;
  if size buffer_ =? start cursor then
    ASSERT debug (invalid_productions cursor =? 0) ;;;
    Ok buffer_
  else if invalid_productions cursor =? 0 then
    Ok (firstn (Z.to_nat (start cursor)) buffer_)
  else
    ASSERT debug (start cursor <? size buffer_) ;;;
    let skip := size buffer_ - start cursor in
    Ok (buffer_ ++ [Skip (invalid_productions cursor) skip]).

End ProductionClassifier.

(** * The shape of the classifier's log

    What the entries of the log look like from the cursor that reads them:
    the bit of a production, the range of a skip count, and the entries
    [FindError] passes over on its way back to the leaf it returns. *)

Module ClassifierLog.
Import ProductionClassifier.

(** The bit of a production: [bits p] is [1 << bit_index p]. *)
Definition bit_index (p : TargetProduction) : Z :=
  match p with
  | ExpressionProduction => 0
  | BindingPatternProduction => 1
  | AssignmentPatternProduction => 2
  | DistinctFormalParametersProduction => 3
  | StrictModeFormalParametersProduction => 4
  | StrongModeFormalParametersProduction => 5
  | ArrowFormalParametersProduction => 6
  end.

(** A skip count is a [size_t] that counts entries before its own: it is
    not negative and not larger than the index of its entry, which is what
    [DCHECK(elt.skip() <= idx)] of [FindError] asks for. *)
Definition skips_in_range (buffer_ : Buffer) : Prop :=
  forall (idx : nat) (elt : BufferElement),
    nth_error buffer_ idx = Some elt -> 0 <= skip elt <= Z.of_nat idx.

(** The branch of [FindError] under the comment "Hack": taken for the arrow
    production at an entry with the binding-pattern bit. *)
Definition arrow_hack (production : TargetProduction) (invalid : Z) : bool :=
  is_arrow production
  && negb (Z.land invalid (bits BindingPatternProduction) =? 0).

(** Entries that [FindError] for [production] passes over as a whole when
    it walks back from the end of them: a leaf of other productions, or the
    entries of a closed scope followed by its [Skip] entry, when the scope
    stayed valid for [production] and the branch under "Hack" is not taken
    at its [Skip] entry.  That branch is taken for the arrow production at
    a scope that is invalid for binding patterns: such a scope is walked
    into, not stepped over. *)
Inductive passed_over (production : TargetProduction) : Buffer -> Prop :=
| passed_over_nil : passed_over production []
| passed_over_leaf (post : Buffer) (q : Z) (e : Error) :
    passed_over production post ->
    Z.land q (bits production) = 0 ->
    passed_over production (post ++ [Leaf q e])
| passed_over_scope (post inner : Buffer) (m : Z) :
    passed_over production post ->
    Z.land m (bits production) = 0 ->
    arrow_hack production m = false ->
    passed_over production (post ++ inner ++ [Skip m (size inner)]).

End ClassifierLog.

(** * The compressed source codec ([src/compressed-source.cc]) *)

Module CompressedSourceCodec.

(** A cursor: an offset into the byte vector and an offset into the token
    that starts there. *)
Record Cursor : Type := mkCursor {
  byte_offset : Z;
  sub_token_offset : Z
}.

Definition kCharsPerIndexEntry : Z := 1024.
Definition kAsciiCode : Z := 0.
Definition kUnicodeCode : Z := 1.
Definition kFirstBytecode : Z := 2.
Definition kLastBytecode : Z := 255.
Definition kMaxTokenLength : Z := 9.

(** [kIntSize] is [sizeof(int)]: four bytes on V8's platforms. *)
Definition kIntSize : Z := 4.

(** Modelled from the spec: the UTF-16 helpers of [unibrow::Utf16] are not
    part of the sources.  The spec emits one code unit for a code point up to
    [0xFFFF] and a surrogate pair above it, for code points up to
    [0x10FFFF]. *)
Definition kMaxNonSurrogateCharCode : Z := 0xFFFF.
Definition kMaxCharCode : Z := 0x10FFFF.

Definition IsLeadSurrogate (code : Z) : bool :=
  Z.land code 0xfc00 =? 0xd800.

Definition IsTrailSurrogate (code : Z) : bool :=
  Z.land code 0xfc00 =? 0xdc00.

Definition CombineSurrogatePair (lead trail : Z) : Z :=
  0x10000 + Z.shiftl (Z.land lead 0x3ff) 10 + Z.land trail 0x3ff.

Definition LeadSurrogate (char_code : Z) : Z :=
  0xd800 + Z.land (Z.shiftr (char_code - 0x10000) 10) 0x3ff.

Definition TrailSurrogate (char_code : Z) : Z :=
  0xdc00 + Z.land char_code 0x3ff.

(** [static_cast<uc16>]. *)
Definition to_uc16 (x : Z) : Z := x mod 2 ^ 16.

Definition is_ascii (code : Z) : bool := code =? kAsciiCode.
Definition is_unicode (code : Z) : bool := code =? kUnicodeCode.
Definition is_bytecode (code : Z) : bool := kFirstBytecode <=? code.

Definition decode_unicode (b0 b1 b2 : Z) : Z :=
  Z.lor (Z.lor (Z.shiftl b0 16) (Z.shiftl b1 8)) b2.

(** [uc16_length], the scanner's count of the code units of an escape. *)
Definition uc16_length (b0 b1 b2 : Z) : Z :=
  if decode_unicode b0 b1 b2 <? kMaxNonSurrogateCharCode then 1 else 2.

Definition IndexSize (length : Z) : Z :=
  (length / kCharsPerIndexEntry) * kIntSize.

(** The four bytes [memcpy] moves for an [unsigned], least significant
    first. *)
Definition unsigned_bytes (x : Z) : list Z :=
  [x mod 256; (x / 2 ^ 8) mod 256; (x / 2 ^ 16) mod 256; (x / 2 ^ 24) mod 256].

Definition unsigned_of_bytes (b0 b1 b2 b3 : Z) : Z :=
  b0 + b1 * 2 ^ 8 + b2 * 2 ^ 16 + b3 * 2 ^ 24.

(** [WriteIndex]: the index vector with the entry of [pos] overwritten. *)
Definition WriteIndex (debug : bool) (index : list Z) (pos byte_offset : Z)
    : result (list Z) :=
  ASSERT debug (kCharsPerIndexEntry <=? pos) ;;;
  ASSERT debug (pos mod kCharsPerIndexEntry =? 0) ;;;
  let entry := pos / kCharsPerIndexEntry - 1 in
  let at_entry := entry * kIntSize in
  if (at_entry <? 0) || (Z.of_nat (length index) <? at_entry + kIntSize)
  then Fault OutOfBounds
  else Ok (firstn (Z.to_nat at_entry) index
           ++ unsigned_bytes byte_offset
           ++ skipn (Z.to_nat (at_entry + kIntSize)) index).

(** [ReadIndex]: the index is the tail of [data]. *)
Definition ReadIndex (data : list Z) (pos length_ : Z) : result Z :=
  if pos <? kCharsPerIndexEntry then Ok 0
  else
    let index_base := Z.of_nat (length data) - IndexSize length_ in
    let entry := pos / kCharsPerIndexEntry - 1 in
    b0 <- at_ data (index_base + entry * kIntSize) ;;
    b1 <- at_ data (index_base + entry * kIntSize + 1) ;;
    b2 <- at_ data (index_base + entry * kIntSize + 2) ;;
    b3 <- at_ data (index_base + entry * kIntSize + 3) ;;
    Ok (unsigned_of_bytes b0 b1 b2 b3).

Section Codec.

(** The build: [true] for a debug build. *)
Variable debug : bool.

(** [token_lengths] of [code-table.inc.c], which is not part of the
    sources: the table is a parameter. *)
Variable token_lengths : Z -> Z.

(** The characters of each dictionary token, the table behind
    [decoder.inc.c], which is not part of the sources either. *)
Variable token_chars : Z -> list Z.

(** [write_chars(dest, max, src, n)]: what [dest] holds from its start. *)
Definition write_chars (max : Z) (src : list Z) (n : Z) : list Z :=
  if n <=? max then firstn (Z.to_nat n) src else firstn (Z.to_nat max) src.

(** Modelled from the spec: [decode_bytecode] is the body of
    [decoder.inc.c]; it writes up to [dest_len] characters of the expansion
    of [code] with [write_chars] and returns the number it wrote. *)
Definition decode_bytecode (code dest_len : Z) : Z * list Z :=
  let written := write_chars dest_len (token_chars code) (token_lengths code) in
  (Z.of_nat (length written), written).

(** [write_as_utf16]: the value returned and what [dest] holds from its
    start.  The overload for a [char] destination ([narrow]) is
    unreachable code that returns 0. *)
Definition write_as_utf16 (narrow : bool) (codepoint dest_len : Z)
    : result (Z * list Z) :=
  if narrow then
    UNREACHABLE debug ;;; Ok (0, [])
  else if codepoint <=? kMaxNonSurrogateCharCode then
    Ok (1, if 1 <=? dest_len then [to_uc16 codepoint] else [])
  else
    ASSERT debug (codepoint <=? kMaxCharCode) ;;;
    Ok (2, (if 1 <=? dest_len then [LeadSurrogate codepoint] else [])
           ++ (if 2 <=? dest_len then [TrailSurrogate codepoint] else [])).

(** The loop of [AdvanceCursor]; the state is the four local variables. *)
Fixpoint AdvanceCursor_loop (fuel : nat) (data : list Z) (chars : Z)
    (byte_offset chars_written prev_byte_offset prev_chars_written : Z)
    : result (Z * Z * Z * Z) :=
  match fuel with
  | O => Fault OutOfFuel
  | S fuel' =>
    if chars_written <? chars then
      let prev_byte_offset := byte_offset in
      let prev_chars_written := chars_written in
      code <- at_ data byte_offset ;;
      let byte_offset := byte_offset + 1 in
      let chars_written := chars_written + token_lengths code in
      if negb (is_bytecode code) then
        if is_ascii code then
          AdvanceCursor_loop fuel' data chars (byte_offset + 1) chars_written
            prev_byte_offset prev_chars_written
        else
          ASSERT debug (is_unicode code) ;;;
          b0 <- at_ data byte_offset ;;
          b1 <- at_ data (byte_offset + 1) ;;
          b2 <- at_ data (byte_offset + 2) ;;
          AdvanceCursor_loop fuel' data chars (byte_offset + 3)
            (chars_written + (uc16_length b0 b1 b2 - 1))
            prev_byte_offset prev_chars_written
      else
        AdvanceCursor_loop fuel' data chars byte_offset chars_written
          prev_byte_offset prev_chars_written
    else Ok (byte_offset, chars_written, prev_byte_offset, prev_chars_written)
  end.

(** [AdvanceCursor]: the cursor after the call.  Every iteration reads the
    byte at [byte_offset] and moves past it, so the loop runs at most
    [length data] times before it stops or reads outside [data]. *)
Definition AdvanceCursor (data : list Z) (cursor : Cursor) (chars : Z)
    : result Cursor :=
  let chars := chars + sub_token_offset cursor in
  '(byte_offset, chars_written, prev_byte_offset, prev_chars_written) <-
    AdvanceCursor_loop (S (length data)) data chars (byte_offset cursor)
      0 0 0 ;;
  if chars_written =? chars then Ok (mkCursor byte_offset 0)
  else Ok (mkCursor prev_byte_offset (chars - prev_chars_written)).

Definition GetCursor (data : list Z) (pos length_ : Z) : result Cursor :=
  anchor <- ReadIndex data pos length_ ;;
  AdvanceCursor data (mkCursor anchor 0) (pos mod kCharsPerIndexEntry).

Fixpoint IsAscii_loop (fuel : nat) (data : list Z) (data_ptr chars : Z)
    : result bool :=
  match fuel with
  | O => Fault OutOfFuel
  | S fuel' =>
    if 0 <? chars then
      ASSERT debug (data_ptr <? Z.of_nat (length data)) ;;;
      code <- at_ data data_ptr ;;
      let data_ptr := data_ptr + 1 in
      let chars := chars - token_lengths code in
      if negb (is_bytecode code) then
        if is_ascii code then
          ASSERT debug (data_ptr <? Z.of_nat (length data)) ;;;
          IsAscii_loop fuel' data (data_ptr + 1) chars
        else
          ASSERT debug (is_unicode code) ;;;
          Ok false
      else IsAscii_loop fuel' data data_ptr chars
    else Ok true
  end.

Definition IsAscii (data : list Z) (cursor : Cursor) (chars : Z)
    : result bool :=
  IsAscii_loop (S (length data)) data (byte_offset cursor)
    (chars + sub_token_offset cursor).

(** The copy [dest_ptr[i] = first_token[i + sub_token_offset]] of [n]
    elements; [first_token] holds only what the token wrote. *)
Fixpoint copy_first_token (n : nat) (first_token : list Z) (from : Z)
    : result (list Z) :=
  match n with
  | O => Ok []
  | S n' =>
    x <- at_ first_token from ;;
    rest <- copy_first_token n' first_token (from + 1) ;;
    Ok (x :: rest)
  end.

(** The whole-token loop of [Decode]; [room] is [dest_end - dest_ptr], and
    the result is what the loop writes to [dest]. *)
Fixpoint Decode_loop (fuel : nat) (narrow : bool) (data : list Z)
    (data_ptr room : Z) : result (list Z) :=
  match fuel with
  | O => Fault OutOfFuel
  | S fuel' =>
    if 0 <? room then
      ASSERT debug (data_ptr <? Z.of_nat (length data)) ;;;
      code <- at_ data data_ptr ;;
      let data_ptr := data_ptr + 1 in
      if is_bytecode code then
        let '(n, written) := decode_bytecode code room in
        rest <- Decode_loop fuel' narrow data data_ptr (room - n) ;;
        Ok (written ++ rest)
      else if is_ascii code then
        ASSERT debug (data_ptr <? Z.of_nat (length data)) ;;;
        b <- at_ data data_ptr ;;
        rest <- Decode_loop fuel' narrow data (data_ptr + 1) (room - 1) ;;
        Ok (b :: rest)
      else
        ASSERT debug (is_unicode code) ;;;
        ASSERT debug (data_ptr + 2 <? Z.of_nat (length data)) ;;;
        b0 <- at_ data data_ptr ;;
        b1 <- at_ data (data_ptr + 1) ;;
        b2 <- at_ data (data_ptr + 2) ;;
        '(n, written) <- write_as_utf16 narrow (decode_unicode b0 b1 b2) room ;;
        rest <- Decode_loop fuel' narrow data (data_ptr + 3) (room - n) ;;
        Ok (written ++ rest)
    else Ok []
  end.

(** The partial first token of [Decode]: the data pointer after the token
    and what is copied to [dest]. *)
Definition Decode_first_token (narrow : bool) (data : list Z)
    (cursor : Cursor) (dest_length : Z) : result (Z * list Z) :=
  let data_ptr := byte_offset cursor in
  ASSERT debug (token_lengths 255 =? kMaxTokenLength) ;;;
  ASSERT debug (sub_token_offset cursor <? kMaxTokenLength) ;;;
  ASSERT debug (data_ptr <? Z.of_nat (length data)) ;;;
  code <- at_ data data_ptr ;;
  let data_ptr := data_ptr + 1 in
  '(data_ptr, decoded_chars, first_token) <-
    (if is_bytecode code then
       let '(n, written) := decode_bytecode code kMaxTokenLength in
       Ok (data_ptr, n, written)
     else if is_ascii code then
       UNREACHABLE debug ;;;
       ASSERT debug (data_ptr <? Z.of_nat (length data)) ;;;
       b <- at_ data data_ptr ;;
       Ok (data_ptr + 1, 1, [b])
     else
       ASSERT debug (is_unicode code) ;;;
       ASSERT debug (data_ptr + 2 <? Z.of_nat (length data)) ;;;
       b0 <- at_ data data_ptr ;;
       b1 <- at_ data (data_ptr + 1) ;;
       b2 <- at_ data (data_ptr + 2) ;;
       '(n, written) <-
         write_as_utf16 narrow (decode_unicode b0 b1 b2) kMaxTokenLength ;;
       Ok (data_ptr + 3, n, written)) ;;
  ASSERT debug (sub_token_offset cursor <? decoded_chars) ;;;
  let decoded_chars := (decoded_chars - sub_token_offset cursor) mod 2 ^ 32 in
  let decoded_chars :=
    if dest_length <? decoded_chars then dest_length else decoded_chars in
  copied <- copy_first_token (Z.to_nat decoded_chars) first_token
              (sub_token_offset cursor) ;;
  Ok (data_ptr, copied).

(** [Decode<T>(data, cursor, dest)]: the [dest_length] elements written to
    [dest]; [narrow] is [T = char], otherwise [T = uc16]. *)
Definition Decode (narrow : bool) (data : list Z) (cursor : Cursor)
    (dest_length : Z) : result (list Z) :=
  '(data_ptr, dest) <-
    (if negb (sub_token_offset cursor =? 0)
     then Decode_first_token narrow data cursor dest_length
     else Ok (byte_offset cursor, [])) ;;
  rest <- Decode_loop (S (length data)) narrow data data_ptr
            (dest_length - Z.of_nat (length dest)) ;;
  Ok (dest ++ rest).

(** The file's static [Get]: one code unit at the cursor. *)
Definition Get (data : list Z) (cursor : Cursor) : result Z :=
  chars <- Decode false data cursor 1 ;;
  at_ chars 0.

End Codec.

End CompressedSourceCodec.

(** * The compressed source value and its operations *)

Module CompressedSource.
Import CompressedSourceCodec.

(** A compressed source: the byte array (compressed stream, then index), the
    length in code units, and the original string while the host keeps it.
    A host string is the list of its UTF-16 code units. *)
Record CompressedSource : Type := mkCompressedSource {
  bytes : list Z;
  char_length : Z;
  cached_string : option (list Z)
}.

(** The value once the host has dropped the cached string. *)
Definition drop_cached_string (source : CompressedSource) : CompressedSource :=
  mkCompressedSource (bytes source) (char_length source) None.

(** Modelled from the spec: [Factory::NewSubString(source, start, end)] of
    the host, the code units of [source] in [start, end). *)
Definition NewSubString (source : list Z) (start end_ : Z) : list Z :=
  firstn (Z.to_nat (end_ - start)) (skipn (Z.to_nat start) source).

Fixpoint units_eqb (a b : list Z) : bool :=
  match a, b with
  | [], [] => true
  | x :: a', y :: b' => (x =? y) && units_eqb a' b'
  | _, _ => false
  end.

(** Modelled from the spec: [String::SubStringEquals(start, end, other)] of
    the host, code-unit-wise equality of [start, end) with [other]. *)
Definition String_SubStringEquals (string : list Z) (start end_ : Z)
    (other : list Z) : bool :=
  units_eqb (NewSubString string start end_) other.

Section Operations.

Variable debug : bool.
Variable token_lengths : Z -> Z.
Variable token_chars : Z -> list Z.

(** [Decompress(start, length)]: the code units of the string returned, a
    substring of the cached string, or else a fresh sequential string filled
    by [Decode], ASCII when [IsAscii] says so. *)
Definition Decompress (source : CompressedSource) (start length_ : Z)
    : result (list Z) :=
  match cached_string source with
  | Some string => Ok (NewSubString string start (start + length_))
  | None =>
    let bv := bytes source in
    cursor <- GetCursor debug token_lengths bv start (char_length source) ;;
    ascii <- IsAscii debug token_lengths bv cursor length_ ;;
    if ascii
    then Decode debug token_lengths token_chars true bv cursor length_
    else Decode debug token_lengths token_chars false bv cursor length_
  end.

(** [Decompress()]. *)
Definition Decompress_all (source : CompressedSource) : result (list Z) :=
  Decompress source 0 (char_length source).

(** The loop of [SubStringEquals]: [other] from index [i] on is compared
    with the code units at the cursor, which advances by one after every
    code unit that agrees. *)
Fixpoint SubStringEquals_loop (bv : list Z) (cursor : Cursor)
    (other : list Z) : result bool :=
  match other with
  | [] => Ok true
  | other_i :: other' =>
    c <- Get debug token_lengths token_chars bv cursor ;;
    if negb (c =? other_i) then Ok false
    else
      cursor <- AdvanceCursor debug token_lengths bv cursor 1 ;;
      SubStringEquals_loop bv cursor other'
  end.

(** [SubStringEquals(start, other)]; [start + other->length()] is a sum
    of [int]s. *)
Definition SubStringEquals (source : CompressedSource) (start : Z)
    (other : list Z) : result bool :=
  let end_ := int_add start (Z.of_nat (length other)) in
  if char_length source <? end_ then Ok false
  else
    match cached_string source with
    | Some string => Ok (String_SubStringEquals string start end_ other)
    | None =>
      cursor <- GetCursor debug token_lengths (bytes source) start
                  (char_length source) ;;
      SubStringEquals_loop (bytes source) cursor other
    end.

(** The loop [while (pos-- > 0)] of [GetLineNumberSlow] runs [pos] times:
    [n] is the number of iterations left. *)
Fixpoint GetLineNumberSlow_loop (n : nat) (bv : list Z) (cursor : Cursor)
    (line : Z) : result Z :=
  match n with
  | O => Ok line
  | S n' =>
    c <- Get debug token_lengths token_chars bv cursor ;;
    cursor <- AdvanceCursor debug token_lengths bv cursor 1 ;;
    GetLineNumberSlow_loop n' bv cursor (if c =? 10 then line + 1 else line)
  end.

Definition GetLineNumberSlow (source : CompressedSource) (pos : Z)
    : result Z :=
  let pos := if char_length source <? pos then char_length source else pos in
  GetLineNumberSlow_loop (Z.to_nat pos) (bytes source) (mkCursor 0 0) 0.

(** ** The encoder *)

(** [fill_input_buffer]: the buffer of [block_size] entries, padded with
    [-1] after the end of the input, and the number of characters read. *)
Definition fill_input_buffer (input : list Z) (pos block_size : Z)
    : list Z * Z :=
  let length_ := Z.of_nat (length input) in
  if pos + block_size <=? length_ then
    (firstn (Z.to_nat block_size) (skipn (Z.to_nat pos) input), block_size)
  else
    let read := skipn (Z.to_nat pos) input in
    (read ++ repeat (-1) (Z.to_nat block_size - length read),
     Z.of_nat (length read)).

Definition add_index_entry (index output : list Z) (pos : Z)
    : result (list Z) :=
  ASSERT debug (pos mod kCharsPerIndexEntry =? 0) ;;;
  if negb (pos =? 0)
  then WriteIndex debug index pos (Z.of_nat (length output))
  else Ok index.

Fixpoint starts_with (token input : list Z) : bool :=
  match token, input with
  | [], _ => true
  | t :: token', c :: input' => (t =? c) && starts_with token' input'
  | _ :: _, [] => false
  end.

Definition bytecodes : list Z := map Z.of_nat (seq 2 254).

(** Modelled from the spec: the encoder body [encoder.inc.c] is not part of
    the sources.  The spec's encoder picks, at every position of a block,
    the longest dictionary bytecode whose expansion matches the upcoming
    characters, the smallest code among the longest. *)
Definition longest_match (input : list Z) : option Z :=
  fold_left
    (fun best code =>
       if negb (Nat.eqb (length (token_chars code)) 0)
          && starts_with (token_chars code) input
       then match best with
            | None => Some code
            | Some b =>
              if (length (token_chars b) <? length (token_chars code))%nat
              then Some code else best
            end
       else best)
    bytecodes None.

(** The four bytes of a Unicode escape: the code, then the code point, most
    significant byte first. *)
Definition unicode_escape (codepoint : Z) : list Z :=
  [kUnicodeCode; Z.land (Z.shiftr codepoint 16) 255;
   Z.land (Z.shiftr codepoint 8) 255; Z.land codepoint 255].

(** Modelled from the spec: where no bytecode matches the next character,
    the spec's encoder emits an ASCII escape for a character up to 127, and
    a Unicode escape otherwise, one escape with the combined scalar value
    for a surrogate pair. *)
Fixpoint encode_block (fuel : nat) (input : list Z) : list Z :=
  match fuel with
  | O => []
  | S fuel' =>
    match input with
    | [] => []
    | c :: rest =>
      match longest_match input with
      | Some code =>
        code :: encode_block fuel' (skipn (length (token_chars code)) input)
      | None =>
        if c <=? 127 then kAsciiCode :: c :: encode_block fuel' rest
        else
          match rest with
          | t :: rest' =>
            if IsLeadSurrogate c && IsTrailSurrogate t
            then unicode_escape (CombineSurrogatePair c t)
                 ++ encode_block fuel' rest'
            else unicode_escape c ++ encode_block fuel' rest
          | [] => unicode_escape c
          end
      end
    end
  end.

(** Modelled from the spec: the spec's encoder reads the input in blocks of
    1024 characters and, before every block but the first, records the
    output's size in the index entry of the block's position; a block is
    encoded by itself, so that a block starts at a token. *)
Fixpoint encode_blocks (blocks : nat) (input : list Z) (pos : Z)
    (output index : list Z) : result (list Z * list Z) :=
  match blocks with
  | O => Ok (output, index)
  | S blocks' =>
    index <- add_index_entry index output pos ;;
    let '(input_buffer, n) := fill_input_buffer input pos kCharsPerIndexEntry in
    let block := firstn (Z.to_nat n) input_buffer in
    encode_blocks blocks' input (pos + kCharsPerIndexEntry)
      (output ++ encode_block (length block) block) index
  end.

(** [Encode]: the output and the index. *)
Definition Encode (input index : list Z) : result (list Z * list Z) :=
  ASSERT debug (token_lengths kAsciiCode =? 1) ;;;
  ASSERT debug (token_lengths kUnicodeCode =? 1) ;;;
  ASSERT debug
    (token_lengths kFirstBytecode <=? token_lengths kLastBytecode) ;;;
  ASSERT debug (token_lengths kLastBytecode =? kMaxTokenLength) ;;;
  let blocks := Z.to_nat (Z.of_nat (length input) / kCharsPerIndexEntry) in
  encode_blocks (S blocks) input 0 [] index.

(** [Compress(src)]; the block under [#ifdef DEBUG] is run by a debug
    build. *)
Definition Compress (src : list Z) : result CompressedSource :=
  let src_length := Z.of_nat (length src) in
  let index_size := IndexSize src_length in
  let index := repeat 0 (Z.to_nat index_size) in
  '(out, index) <- Encode src index ;;
  let data := out in
  (if debug then
     cursor <- AdvanceCursor debug token_lengths data (mkCursor 0 0)
                 src_length ;;
     ASSERT debug (byte_offset cursor =? Z.of_nat (length out)) ;;;
     ASSERT debug (sub_token_offset cursor =? 0)
   else Ok tt) ;;;
  Ok (mkCompressedSource (out ++ index) src_length (Some src)).

End Operations.

(** ** Hashing a range *)

Section Hashing.

Variable debug : bool.
Variable token_lengths : Z -> Z.
Variable token_chars : Z -> list Z.

(** [StringHasher], the base class of [CompressedSourceHasher], belongs to
    the host and is not part of the sources: the hasher's state and the
    members the code calls are parameters, as are the cached hash of a
    source, the hash of a substring of a host string, the heap's seed and
    the hasher's constructor. *)
Variable StringHasher : Type.
Variable has_trivial_hash : StringHasher -> bool.
Variable is_array_index : StringHasher -> bool.
Variable AddCharacter : StringHasher -> Z -> StringHasher.
Variable AddCharacterNoIndex : StringHasher -> Z -> StringHasher.
Variable GetHashField : StringHasher -> Z.
Variable new_StringHasher : Z -> Z -> StringHasher.
Variable HashSeed : Z.
Variable hash : CompressedSource -> Z.
Variable String_SubStringHash : list Z -> Z -> Z -> Z.

Definition kBufferSize : Z := 32.

(** [CompressedSourceHasher::AddCharacters]: [is_array_index()] is asked
    once, before the characters are added. *)
Definition AddCharacters (hasher : StringHasher) (chars : list Z)
    : StringHasher :=
  if is_array_index hasher then fold_left AddCharacter chars hasher
  else fold_left AddCharacterNoIndex chars hasher.

(** The loop [while (remaining)] of [ComputeHash]. *)
Fixpoint ComputeHash_loop (fuel : nat) (bv : list Z) (cursor : Cursor)
    (remaining : Z) (hasher : StringHasher) : result StringHasher :=
  match fuel with
  | O => Fault OutOfFuel
  | S fuel' =>
    if remaining =? 0 then Ok hasher
    else
      let count :=
        if remaining <? kBufferSize then remaining else kBufferSize in
      chars <- Decode debug token_lengths token_chars false bv cursor count ;;
      let hasher := AddCharacters hasher chars in
      cursor <- AdvanceCursor debug token_lengths bv cursor count ;;
      ComputeHash_loop fuel' bv cursor (remaining - count) hasher
  end.

(** [CompressedSourceHasher::ComputeHash]: every iteration takes one
    character at least, so the loop runs at most [length_] times. *)
Definition ComputeHash (hasher : StringHasher) (source : CompressedSource)
    (start length_ : Z) : result Z :=
  if negb (has_trivial_hash hasher) then
    cursor <- GetCursor debug token_lengths (bytes source) start
                (char_length source) ;;
    hasher <- ComputeHash_loop (S (Z.to_nat length_)) (bytes source) cursor
                length_ hasher ;;
    Ok (GetHashField hasher)
  else Ok (GetHashField hasher).

Definition SubStringHash (source : CompressedSource) (start length_ : Z)
    : result Z :=
  ASSERT debug (start + length_ <=? char_length source) ;;;
  if (start =? 0) && (length_ =? char_length source) then Ok (hash source)
  else
    match cached_string source with
    | Some string => Ok (String_SubStringHash string start (start + length_))
    | None =>
      ComputeHash (new_StringHasher length_ HashSeed) source start length_
    end.

End Hashing.

(** ** Decompressing to a stream *)

Section Streaming.

Variable debug : bool.
Variable token_lengths : Z -> Z.
Variable token_chars : Z -> list Z.

(** [StringStream] and [unibrow::Utf8::Encode] belong to the host and are
    not part of the sources.  [Put stream c] is [stream->Put(c)]: whether
    the character was taken, and the stream after the call.
    [Utf8_Encode codepoint] is the bytes [Utf8::Encode] writes to its
    buffer, whose number it returns. *)
Variable StringStream : Type.
Variable Put : StringStream -> Z -> bool * StringStream.
Variable Utf8_Encode : Z -> list Z.

(** The loop [for (int i = 1; i < byte_length; i++)]: whether every byte
    was taken, and the stream. *)
Fixpoint Put_bytes (bytes_ : list Z) (dest : StringStream)
    : bool * StringStream :=
  match bytes_ with
  | [] => (true, dest)
  | b :: rest =>
    let '(taken, dest) := Put dest b in
    if negb taken then (false, dest) else Put_bytes rest dest
  end.

(** The loop of [Decompress(start, length, dest)]: the value returned and
    the stream.  [bytes[0]] is put whatever [Utf8::Encode] returned; when
    it wrote no byte that is a read of an element the buffer does not
    hold. *)
Fixpoint Decompress_to_loop (fuel : nat) (bv : list Z) (cursor : Cursor)
    (chars_read length_ : Z) (dest : StringStream)
    : result (Z * StringStream) :=
  match fuel with
  | O => Fault OutOfFuel
  | S fuel' =>
    if chars_read <? length_ then
      codepoint <- Get debug token_lengths token_chars bv cursor ;;
      let prev_chars_read := chars_read in
      cursor <- AdvanceCursor debug token_lengths bv cursor 1 ;;
      let chars_read := chars_read + 1 in
      '(cursor, chars_read, codepoint) <-
        (if IsLeadSurrogate codepoint && (chars_read <? length_) then
           trailing <- Get debug token_lengths token_chars bv cursor ;;
           if IsTrailSurrogate trailing then
             cursor <- AdvanceCursor debug token_lengths bv cursor 1 ;;
             Ok (cursor, chars_read + 1,
                 CombineSurrogatePair codepoint trailing)
           else Ok (cursor, chars_read, codepoint)
         else Ok (cursor, chars_read, codepoint)) ;;
      let bytes_ := Utf8_Encode codepoint in
      first <- at_ bytes_ 0 ;;
      let '(taken, dest) := Put dest first in
      if negb taken then Ok (prev_chars_read, dest)
      else
        let '(taken, dest) := Put_bytes (tl bytes_) dest in
        if negb taken then Ok (prev_chars_read, dest)
        else Decompress_to_loop fuel' bv cursor chars_read length_ dest
    else Ok (chars_read, dest)
  end.

(** [Decompress(start, length, dest)]: every iteration reads one character
    at least, so the loop runs at most [length_] times. *)
Definition Decompress_to (source : CompressedSource) (start length_ : Z)
    (dest : StringStream) : result (Z * StringStream) :=
  cursor <- GetCursor debug token_lengths (bytes source) start
              (char_length source) ;;
  Decompress_to_loop (S (Z.to_nat length_)) (bytes source) cursor 0 length_
    dest.

End Streaming.

End CompressedSource.

(** * A code table to run the definitions on

    The dictionary of V8 is generated from a corpus and is not part of the
    sources.  This small table has what the assertions of [Encode] ask for:
    length 1 for the two escapes, lengths that do not decrease from code 2
    to code 255, and length 9 for code 255. *)

Module SampleTable.

Definition token_lengths (code : Z) : Z :=
  if code <? 2 then 1
  else if code <? 255 then 1 + (code - 2) / 32
  else 9.

(** The token of code 255 is "function "; the token of another code
    repeats one lower-case letter. *)
Definition token_chars (code : Z) : list Z :=
  if code =? 255 then [102; 117; 110; 99; 116; 105; 111; 110; 32]
  else repeat (97 + code mod 26) (Z.to_nat (token_lengths code)).

End SampleTable.

(** * The token view of a compressed stream

    A compressed stream is a sequence of tokens: a dictionary bytecode, an
    ASCII escape with one payload byte, or a Unicode escape with three.
    The definitions below read a token the way [Decode] does (the code
    units it writes) and the way [AdvanceCursor] does (the characters it
    counts); they state what a well-formed stream is. *)

Module TokenStream.
Import CompressedSourceCodec CompressedSource.

Inductive token : Type :=
| Bytecode (code : Z)
| AsciiEscape (b : Z)
| UnicodeEscape (b0 b1 b2 : Z).

Definition token_bytes (t : token) : list Z :=
  match t with
  | Bytecode code => [code]
  | AsciiEscape b => [kAsciiCode; b]
  | UnicodeEscape b0 b1 b2 => [kUnicodeCode; b0; b1; b2]
  end.

Definition is_byte (b : Z) : bool := (0 <=? b) && (b <=? 255).

(** A token of a byte stream: its bytes are bytes, a bytecode is 2 at
    least, an escaped code point is a code point. *)
Definition valid_token (t : token) : bool :=
  match t with
  | Bytecode code => (kFirstBytecode <=? code) && (code <=? kLastBytecode)
  | AsciiEscape b => is_byte b
  | UnicodeEscape b0 b1 b2 =>
    is_byte b0 && is_byte b1 && is_byte b2
    && (decode_unicode b0 b1 b2 <=? kMaxCharCode)
  end.

Definition stream_of (tokens : list token) : list Z :=
  flat_map token_bytes tokens.

Definition stream_size (tokens : list token) : Z :=
  Z.of_nat (length (stream_of tokens)).

(** The code units of an escaped code point, as [write_as_utf16] writes
    them to a [uc16] destination with room for both. *)
Definition utf16_units (codepoint : Z) : list Z :=
  if codepoint <=? kMaxNonSurrogateCharCode then [to_uc16 codepoint]
  else [LeadSurrogate codepoint; TrailSurrogate codepoint].

(** Whether a token is another than the escape of the code point
    [0xFFFF]. *)
Definition not_U_FFFF (t : token) : bool :=
  match t with
  | UnicodeEscape b0 b1 b2 =>
    negb (decode_unicode b0 b1 b2 =? kMaxNonSurrogateCharCode)
  | _ => true
  end.

(** Whether a token is a Unicode escape. *)
Definition is_unicode_escape (t : token) : bool :=
  match t with UnicodeEscape _ _ _ => true | _ => false end.

(** The cursor [AdvanceCursor] makes of the final state of its loop. *)
Definition finish (chars : Z) (st : Z * Z * Z * Z) : Cursor :=
  let '(byte_offset, chars_written, prev_byte_offset, prev_chars_written) :=
    st in
  if chars_written =? chars then mkCursor byte_offset 0
  else mkCursor prev_byte_offset (chars - prev_chars_written).

(** Whether a cursor is inside a Unicode escape: past the first code unit
    of the token it points to, which is a Unicode escape. *)
Definition inside_unicode_escape (data : list Z) (c : Cursor) : bool :=
  negb (sub_token_offset c =? 0)
  && match at_ data (byte_offset c) with
     | Ok code => is_unicode code
     | Fault _ => false
     end.

(** The number of line feeds among code units. *)
Fixpoint count_line_feeds (units : list Z) : Z :=
  match units with
  | [] => 0
  | c :: rest => (if c =? 10 then 1 else 0) + count_line_feeds rest
  end.

Section Tokens.

Variable token_lengths : Z -> Z.
Variable token_chars : Z -> list Z.

(** What the assertions of [Encode] and the spec's data model say of the
    code table: the escapes have length 1, code 255 has the maximal length
    9, a bytecode's length is between 1 and 9 and is the number of
    characters the decoder's table expands it to. *)
Definition code_table_ok : Prop :=
  token_lengths kAsciiCode = 1
  /\ token_lengths kUnicodeCode = 1
  /\ token_lengths kLastBytecode = kMaxTokenLength
  /\ forall code, kFirstBytecode <= code <= kLastBytecode ->
       1 <= token_lengths code <= kMaxTokenLength
       /\ Z.of_nat (length (token_chars code)) = token_lengths code.

(** The code units [Decode] writes for a whole token. *)
Definition token_units (t : token) : list Z :=
  match t with
  | Bytecode code => token_chars code
  | AsciiEscape b => [b]
  | UnicodeEscape b0 b1 b2 => utf16_units (decode_unicode b0 b1 b2)
  end.

(** The characters [AdvanceCursor] counts for a token. *)
Definition token_advance (t : token) : Z :=
  match t with
  | Bytecode code => token_lengths code
  | AsciiEscape _ => token_lengths kAsciiCode
  | UnicodeEscape b0 b1 b2 =>
    token_lengths kUnicodeCode + (uc16_length b0 b1 b2 - 1)
  end.

Definition units_of (tokens : list token) : list Z :=
  flat_map token_units tokens.

Fixpoint advance_of (tokens : list token) : Z :=
  match tokens with
  | [] => 0
  | t :: rest => token_advance t + advance_of rest
  end.

(** For each code unit of the decoded stream, whether a Unicode escape
    contributes it. *)
Definition from_unicode_escape (tokens : list token) : list bool :=
  flat_map (fun t => map (fun _ => is_unicode_escape t) (token_units t))
    tokens.

(** Whether a Unicode escape contributes a code unit to the range
    [start, start + length_). *)
Definition range_has_unicode_escape (tokens : list token)
    (start length_ : Z) : bool :=
  existsb (fun u => u)
    (firstn (Z.to_nat length_)
       (skipn (Z.to_nat start) (from_unicode_escape tokens))).

(** Where a walk of [target] characters from the start of [tokens], which
    begin at [byte_offset], ends: the cursor, and the tokens from the
    cursor's token on. *)
Fixpoint seek (tokens : list token) (byte_offset target : Z)
    : Cursor * list token :=
  match tokens with
  | [] => (mkCursor byte_offset target, [])
  | t :: rest =>
    if target <? token_advance t then (mkCursor byte_offset target, tokens)
    else seek rest (byte_offset + Z.of_nat (length (token_bytes t)))
           (target - token_advance t)
  end.

(** The cursor of the logical position [pos] of a stream. *)
Definition cursor_at (tokens : list token) (pos : Z) : Cursor :=
  fst (seek tokens 0 pos).

(** A cursor addresses the logical position [pos] of a stream when its
    byte offset is the start of a token and [pos] is the characters
    [AdvanceCursor] counts for the tokens before it, plus its sub-token
    offset. *)
Definition cursor_addresses (tokens : list token) (c : Cursor) (pos : Z)
    : Prop :=
  exists before rest,
    tokens = before ++ rest
    /\ byte_offset c = stream_size before
    /\ 0 <= sub_token_offset c
    /\ pos = advance_of before + sub_token_offset c.

Variable debug : bool.

(** A well-formed compressed byte array of [char_length] code units, with
    the tokens it is made of.
    - The array is the tokens' bytes, then an index of the size
      [IndexSize] gives.
    - The tokens decode to [char_length] code units (the spec's data
      model: the expansions of the tokens are the original string).
    - [AdvanceCursor] from the start by [char_length] ends at the end of
      the stream, with no sub-token offset: this is what the debug build of
      [Compress] asserts of its output.
    - The index entry of a position [i * 1024] up to [char_length] holds
      the byte offset of the cursor at that position. *)
Definition well_formed (data : list Z) (char_length : Z)
    (tokens : list token) : Prop :=
  forallb valid_token tokens = true
  /\ (exists index, data = stream_of tokens ++ index
        /\ Z.of_nat (length index) = IndexSize char_length)
  /\ Z.of_nat (length (units_of tokens)) = char_length
  /\ AdvanceCursor debug token_lengths (stream_of tokens) (mkCursor 0 0)
       char_length = Ok (mkCursor (stream_size tokens) 0)
  /\ forall i, 1 <= i <= char_length / kCharsPerIndexEntry ->
       exists anchor,
         ReadIndex data (i * kCharsPerIndexEntry) char_length = Ok anchor
         /\ AdvanceCursor debug token_lengths data (mkCursor 0 0)
              (i * kCharsPerIndexEntry) = Ok (mkCursor anchor 0).

(** The same, said of the bytes alone: a stream of valid tokens, none of
    them the escape of the code point [0xFFFF] (the one token for which
    [AdvanceCursor] counts more characters than [Decode] writes), with an
    index whose entry for the position [i * 1024] is the byte offset of the
    token that starts at that position. *)
Definition plain_stream (data : list Z) (char_length : Z)
    (tokens : list token) : Prop :=
  forallb valid_token tokens = true
  /\ forallb not_U_FFFF tokens = true
  /\ (exists index, data = stream_of tokens ++ index
        /\ Z.of_nat (length index) = IndexSize char_length)
  /\ Z.of_nat (length (units_of tokens)) = char_length
  /\ forall i, 1 <= i <= char_length / kCharsPerIndexEntry ->
       exists anchor before rest,
         ReadIndex data (i * kCharsPerIndexEntry) char_length = Ok anchor
         /\ tokens = before ++ rest
         /\ Z.of_nat (length (units_of before)) = i * kCharsPerIndexEntry
         /\ anchor = stream_size before.

(** A well-formed compressed source: its byte array is well formed, and a
    cached string is the string the tokens decode to. *)
Definition well_formed_source (source : CompressedSource)
    (tokens : list token) : Prop :=
  well_formed (bytes source) (char_length source) tokens
  /\ forall string, cached_string source = Some string ->
       string = units_of tokens.

End Tokens.

(** ** The walk of [AdvanceCursor] *)

Section Walk.

Variable token_lengths : Z -> Z.

(** The characters [AdvanceCursor] counts for the token of code [code] at
    the byte [at_byte]: the table's length, and for an escape that is not
    an ASCII escape what [uc16_length] says of its three payload bytes. *)
Definition counted (data : list Z) (at_byte code n : Z) : Prop :=
  if is_bytecode code then n = token_lengths code
  else if is_ascii code then n = token_lengths code
  else exists b0 b1 b2,
         at_ data (at_byte + 1) = Ok b0
         /\ at_ data (at_byte + 1 + 1) = Ok b1
         /\ at_ data (at_byte + 1 + 2) = Ok b2
         /\ n = token_lengths code + (uc16_length b0 b1 b2 - 1).

(** The state of the loop of [AdvanceCursor] that started at the byte
    [from]: either no token has been read, or the last token read is at
    [prev_byte_offset], before it fewer than [chars] characters were
    counted, and the token brought the difference. *)
Definition walked (data : list Z) (chars from : Z) (st : Z * Z * Z * Z)
    : Prop :=
  let '(byte_offset, chars_written, prev_byte_offset, prev_chars_written) :=
    st in
  from <= byte_offset
  /\ ((chars_written = 0 /\ byte_offset = from)
      \/ (prev_chars_written < chars
          /\ from <= prev_byte_offset
          /\ exists code,
               at_ data prev_byte_offset = Ok code
               /\ counted data prev_byte_offset code
                    (chars_written - prev_chars_written))).

End Walk.

(** ** Tokens of ASCII text *)

(** A token whose dictionary expansion or escaped byte is ASCII; a Unicode
    escape is any code point. *)
Definition ascii_token (token_chars : Z -> list Z) (t : token) : Prop :=
  match t with
  | Bytecode code => Forall (fun u => 0 <= u <= 127) (token_chars code)
  | AsciiEscape b => 0 <= b <= 127
  | UnicodeEscape _ _ _ => True
  end.

(** ** Strings of code units *)

(** A string cut into pieces of [kBufferSize] code units, the last one
    shorter when the length is no multiple; [fuel] bounds the number of
    pieces. *)
Fixpoint pieces (fuel : nat) (units : list Z) : list (list Z) :=
  match fuel, units with
  | S fuel', _ :: _ =>
    firstn (Z.to_nat kBufferSize) units
    :: pieces fuel' (skipn (Z.to_nat kBufferSize) units)
  | _, _ => []
  end.

Definition chunks (units : list Z) : list (list Z) :=
  pieces (length units) units.

(** The code points of a string of UTF-16 code units: a leading surrogate
    and the trailing surrogate behind it are one code point. *)
Fixpoint code_points (units : list Z) : list Z :=
  match units with
  | [] => []
  | c :: rest =>
    match rest with
    | t :: rest' =>
      if IsLeadSurrogate c && IsTrailSurrogate t
      then CombineSurrogatePair c t :: code_points rest'
      else c :: code_points rest
    | [] => [c]
    end
  end.

(** A loop that reads the byte at its offset and moves past it has fuel
    left as long as the offset is inside the data. *)
Definition fuel_left (data : list Z) (offset : Z) (fuel : nat) : Prop :=
  (1 <= fuel)%nat
  /\ (offset < 0 \/ Z.of_nat (length data) - offset < Z.of_nat fuel).

(** A code table with the lengths of the two escapes written out: 1, as
    [Encode] asserts. *)
Definition escape_lengths (token_lengths : Z -> Z) (code : Z) : Z :=
  if (code =? kAsciiCode) || (code =? kUnicodeCode) then 1
  else token_lengths code.

(** The code units of the range that are still to be read when [k] of
    them have been. *)
Definition range_from (units : list Z) (start length_ k : Z) : list Z :=
  firstn (Z.to_nat (length_ - k)) (skipn (Z.to_nat (start + k)) units).

End TokenStream.

(** * Streams and strings to run the definitions on *)

Module SampleStreams.
Import CompressedSourceCodec CompressedSource TokenStream.

(** A stream of 1027 code units: 113 times "function ", seven semicolons,
    the escape of U+1F600 (a surrogate pair) and the letter B.  Position
    1024 is the start of the escape, at byte 127, which the one index entry
    holds. *)
Definition sample_tokens : list token :=
  repeat (Bytecode 255) 113 ++ repeat (AsciiEscape 59) 7
  ++ [UnicodeEscape 1 246 0; AsciiEscape 66].

Definition sample_data : list Z := stream_of sample_tokens ++ [127; 0; 0; 0].

(** A short stream of 14 code units: a line feed, "function ", a line
    feed, the escape of U+1F600 (a surrogate pair) and the letter B. *)
Definition short_tokens : list token :=
  [AsciiEscape 10; Bytecode 255; AsciiEscape 10; UnicodeEscape 1 246 0;
   AsciiEscape 66].

Definition short_data : list Z := stream_of short_tokens.

Definition short_source : CompressedSource :=
  mkCompressedSource short_data 14 None.

(** UTF-8 as an encoder to run the stream on: one to four bytes. *)
Definition utf8_bytes (codepoint : Z) : list Z :=
  if codepoint <=? 0x7F then [codepoint]
  else if codepoint <=? 0x7FF then
    [Z.lor 0xC0 (Z.shiftr codepoint 6); Z.lor 0x80 (Z.land codepoint 0x3F)]
  else if codepoint <=? 0xFFFF then
    [Z.lor 0xE0 (Z.shiftr codepoint 12);
     Z.lor 0x80 (Z.land (Z.shiftr codepoint 6) 0x3F);
     Z.lor 0x80 (Z.land codepoint 0x3F)]
  else
    [Z.lor 0xF0 (Z.shiftr codepoint 18);
     Z.lor 0x80 (Z.land (Z.shiftr codepoint 12) 0x3F);
     Z.lor 0x80 (Z.land (Z.shiftr codepoint 6) 0x3F);
     Z.lor 0x80 (Z.land codepoint 0x3F)].

(** The string U+FFFF, U+FFFF, U+0100. *)
Definition string_with_U_FFFF : list Z := [0xFFFF; 0xFFFF; 0x100].

(** A string of 1025 code units, U+FFFF and 1024 times U+0100: its last
    code unit is the first of the second block of 1024. *)
Definition string_across_blocks : list Z := 0xFFFF :: repeat 0x100 1024.

(** The tokens the encoder makes of it, one Unicode escape for every code
    unit, and the byte array: the second block starts at byte 4096, which
    the one index entry holds. *)
Definition tokens_across_blocks : list token :=
  UnicodeEscape 0 255 255 :: repeat (UnicodeEscape 0 1 0) 1024.

Definition data_across_blocks : list Z :=
  stream_of tokens_across_blocks ++ [0; 16; 0; 0].

(** The string U+FFFF, U+FFFF, line feed. *)
Definition string_with_line_feed : list Z := [0xFFFF; 0xFFFF; 10].

End SampleStreams.

(** * Properties of the classifier *)

Module ClassifierFacts.
Import ProductionClassifier.

(** Bit [n] of [x] is what [x & (1 << n)] tests. *)
Lemma land_pow2_testbit (x n : Z) :
  0 <= n -> (Z.land x (2 ^ n) =? 0) = negb (Z.testbit x n).
Proof.
  intros Hn.
  destruct (Z.testbit x n) eqn:Hb; simpl.
  - apply Z.eqb_neq. intros H0.
    assert (Hc : Z.testbit (Z.land x (2 ^ n)) n = false)
      by (rewrite H0; apply Z.bits_0).
    rewrite Z.land_spec, Hb, Z.pow2_bits_true in Hc by assumption.
    discriminate.
  - apply Z.eqb_eq, Z.bits_inj'. intros m Hm.
    rewrite Z.land_spec, Z.bits_0.
    destruct (Z.eq_dec n m) as [->|Hneq].
    + rewrite Hb. reflexivity.
    + rewrite Z.pow2_bits_false by assumption. apply andb_false_r.
Qed.

Lemma is_valid_testbit (c : Cursor) :
  is_valid c ArrowFormalParametersProduction
  = negb (Z.testbit (invalid_productions c) 6).
Proof. unfold is_valid. simpl bits. apply (land_pow2_testbit _ 6). lia. Qed.

(** The fuel [FindError] gives its loop is enough: the loop ends by itself,
    with an error or with a fault of the code.  A skip count is a [size_t],
    so it is not negative. *)
Lemma FindError_loop_fuel (debug : bool) (buffer_ : Buffer)
    (production : TargetProduction) (fuel : nat) (end_ : Z) :
  Forall (fun elt => 0 <= skip elt) buffer_ ->
  end_ <= Z.of_nat fuel ->
  FindError_loop (S fuel) debug buffer_ production end_ <> Fault OutOfFuel.
Proof.
  intros Hskip. revert end_.
  induction fuel as [|fuel IH]; intros end_ Hlt;
    cbn [FindError_loop]; unfold ASSERT at 1;
    (destruct (debug && negb (0 <? end_)) eqn:Ha; cbn [bind];
       [discriminate|]);
    unfold at_;
    (destruct (end_ - 1 <? 0) eqn:Hneg; cbn [bind]; [discriminate|]);
    apply Z.ltb_ge in Hneg; [lia|].
  destruct (nth_error buffer_ (Z.to_nat (end_ - 1))) as [elt|] eqn:Hnth;
    cbn [bind]; [|discriminate].
  assert (Hge : 0 <= skip elt).
  { apply nth_error_In in Hnth.
    rewrite Forall_forall in Hskip. apply Hskip, Hnth. }
  destruct (Z.land (elt_invalid_productions elt) (bits production) =? 0).
  - unfold ASSERT.
    destruct (debug && negb (skip elt <=? end_ - 1)) eqn:Hs;
      cbn [bind]; [discriminate|].
    destruct (is_arrow production && _); apply IH; lia.
  - destruct (is_leaf elt) eqn:Hl.
    + destruct elt; [|discriminate]. unfold error, ASSERT.
      rewrite andb_false_r. cbn. discriminate.
    + apply IH. lia.
Qed.

Lemma FindError_fuel (debug : bool) (c : Cursor) (buffer_ : Buffer)
    (production : TargetProduction) :
  Forall (fun elt => 0 <= skip elt) buffer_ ->
  FindError debug c buffer_ production <> Fault OutOfFuel.
Proof.
  intros Hskip. unfold FindError, CHECK.
  destruct (negb (is_valid c production)); cbn [bind]; [|discriminate].
  apply FindError_loop_fuel; [exact Hskip|unfold size; lia].
Qed.

(** *** The scenarios the claims are tried on *)

(** An outer scope records [e1] for [production]; a nested scope then
    records [e2] for the same production and is closed. *)
Definition outer_then_inner (debug : bool) (production : TargetProduction)
    (e1 e2 : Error) : result (Cursor * Buffer) :=
  let buffer_ := [] in
  let outer := push buffer_ in
  let '(outer, buffer_) := RecordError outer buffer_ production e1 in
  let inner := push buffer_ in
  let '(inner, buffer_) := RecordError inner buffer_ production e2 in
  buffer_ <- pop debug buffer_ inner ;;
  Ok (outer, buffer_).

(** A nested scope records the binding-pattern error [e]; the outer scope
    accumulates it as the head of an arrow function does, and the nested
    scope is closed. *)
Definition arrow_from_binding_pattern (debug : bool) (e : Error)
    : result (Cursor * Buffer) :=
  let buffer_ := [] in
  let outer := push buffer_ in
  let inner := push buffer_ in
  let '(inner, buffer_) :=
    RecordError inner buffer_ BindingPatternProduction e in
  let outer :=
    Accumulate outer inner
      (Z.lor StandardProductions (bits ArrowFormalParametersProduction)) in
  buffer_ <- pop debug buffer_ inner ;;
  Ok (outer, buffer_).

(** C4, at the input where the code leaves the claim: after an outer scope
    recorded [e1] for the expression production and a nested scope, closed
    since, recorded [e2] for it, [FindError] on the outer cursor is [e2]: the
    error recorded last, where the claim names the one recorded first. *)
Theorem FindError_returns_the_later_error (debug : bool) (e1 e2 : Error) :
  outer_then_inner debug ExpressionProduction e1 e2
  = Ok (mkCursor 0 1, [Leaf 1 e1; Leaf 1 e2; Skip 1 1])
  /\ is_valid (mkCursor 0 1) ExpressionProduction = false
  /\ FindError debug (mkCursor 0 1) [Leaf 1 e1; Leaf 1 e2; Skip 1 1]
       ExpressionProduction = Ok e2.
Proof. destruct debug; repeat split; reflexivity. Qed.

(** C5, at the input where the code leaves the claim: a cursor made invalid
    for arrow formal parameters by the binding-pattern error of a nested
    scope satisfies the precondition of [FindError], yet the walk finds no
    leaf: it steps over the binding-pattern entries and runs past the start
    of the log, where a debug build fails [DCHECK(end > 0)] and a release
    build reads [buffer_[SIZE_MAX]]. *)
Theorem FindError_arrow_runs_past_the_start (debug : bool) (e : Error) :
  arrow_from_binding_pattern debug e
  = Ok (mkCursor 0 66, [Leaf 2 e; Skip 2 1])
  /\ is_valid (mkCursor 0 66) ArrowFormalParametersProduction = false
  /\ FindError debug (mkCursor 0 66) [Leaf 2 e; Skip 2 1]
       ArrowFormalParametersProduction
     = Fault (if debug then AssertionFailed else OutOfBounds).
Proof. destruct debug; repeat split; reflexivity. Qed.

(** The arrow bit of the outer cursor after [Accumulate]. *)
Lemma Accumulate_arrow_valid (outer inner : Cursor) (productions : Z) :
  Z.land productions (bits ArrowFormalParametersProduction) <> 0 ->
  is_valid_arrow_formal_parameters (Accumulate outer inner productions)
  = is_valid_arrow_formal_parameters outer
    && is_valid_binding_pattern inner.
Proof.
  intros Harrow. apply Z.eqb_neq in Harrow.
  unfold is_valid_arrow_formal_parameters, Accumulate.
  destruct (invalid_productions inner =? 0) eqn:Hinner.
  - apply Z.eqb_eq in Hinner.
    unfold is_valid_binding_pattern, is_valid. rewrite Hinner.
    rewrite Z.land_0_l. cbn. rewrite andb_true_r. reflexivity.
  - rewrite Harrow. cbn [negb andb].
    destruct (is_valid_binding_pattern inner) eqn:Hbp; cbn [negb];
      rewrite !is_valid_testbit; cbn [invalid_productions].
    + rewrite andb_true_r, Z.lor_spec, !Z.land_spec.
      replace (Z.testbit
                 (complement32 (bits ArrowFormalParametersProduction)) 6)
        with false by reflexivity.
      rewrite !andb_false_r, orb_false_r. reflexivity.
    + rewrite andb_false_r, Z.lor_spec.
      replace (Z.testbit (bits ArrowFormalParametersProduction) 6)
        with true by reflexivity.
      rewrite orb_true_r. reflexivity.
Qed.

(** C6: with the arrow production among [productions], the outer cursor is
    valid for arrow formal parameters after [Accumulate] exactly when it was
    valid before and the inner cursor is a valid binding pattern; so an inner
    cursor that is invalid for arrow formal parameters, but a valid binding
    pattern, leaves a valid outer cursor valid. *)
Theorem Accumulate_arrow_formal_parameters (outer inner : Cursor)
    (productions : Z) :
  Z.land productions (bits ArrowFormalParametersProduction) <> 0 ->
  (is_valid_arrow_formal_parameters (Accumulate outer inner productions) = true
   <-> is_valid_arrow_formal_parameters outer = true
       /\ is_valid_binding_pattern inner = true)
  /\ (is_valid_arrow_formal_parameters inner = false ->
      is_valid_binding_pattern inner = true ->
      is_valid_arrow_formal_parameters (Accumulate outer inner productions)
      = is_valid_arrow_formal_parameters outer).
Proof.
  intros Harrow. rewrite (Accumulate_arrow_valid _ _ _ Harrow). split.
  - apply andb_true_iff.
  - intros _ ->. apply andb_true_r.
Qed.

(** The claim of C6 at a concrete call: the inner cursor is invalid for
    arrow formal parameters only, and the outer one for expressions only. *)
Lemma Accumulate_arrow_formal_parameters_witness :
  Z.land AllProductions (bits ArrowFormalParametersProduction) <> 0
  /\ is_valid_arrow_formal_parameters (mkCursor 1 64) = false
  /\ is_valid_arrow_formal_parameters
       (Accumulate (mkCursor 0 1) (mkCursor 1 64) AllProductions) = true.
Proof.
  assert (Harrow :
    Z.land AllProductions (bits ArrowFormalParametersProduction) <> 0)
    by (vm_compute; discriminate).
  split; [exact Harrow|]. split; [reflexivity|].
  apply (proj1 (Accumulate_arrow_formal_parameters
                  (mkCursor 0 1) (mkCursor 1 64) AllProductions Harrow)).
  split; reflexivity.
Defined.

End ClassifierFacts.

(** * The classifier's log: recording, closing scopes, finding errors *)

Module ClassifierLogFacts.
Import ProductionClassifier ClassifierLog ClassifierFacts.

Lemma bits_bit_index (p : TargetProduction) : bits p = 2 ^ bit_index p.
Proof. destruct p; reflexivity. Qed.

Lemma bit_index_range (p : TargetProduction) : 0 <= bit_index p <= 6.
Proof. destruct p; cbn; lia. Qed.

Lemma is_valid_bit (c : Cursor) (p : TargetProduction) :
  is_valid c p = negb (Z.testbit (invalid_productions c) (bit_index p)).
Proof.
  unfold is_valid. rewrite bits_bit_index.
  apply land_pow2_testbit. apply bit_index_range.
Qed.

Lemma bit_index_inj (p q : TargetProduction) :
  bit_index p = bit_index q -> p = q.
Proof. destruct p, q; cbn; intros H; try reflexivity; discriminate H. Qed.

Lemma DCHECK_holds (debug cond : bool) :
  cond = true -> ASSERT debug cond = Ok tt.
Proof. intros ->. unfold ASSERT. rewrite andb_false_r. reflexivity. Qed.

(** The entry behind a prefix of the log. *)
Lemma at_behind {A : Type} (l : list A) (x : A) (tail : list A) (i : Z) :
  i = Z.of_nat (length l) -> at_ (l ++ x :: tail) i = Ok x.
Proof.
  intros ->. unfold at_.
  destruct (Z.ltb_spec (Z.of_nat (length l)) 0) as [Hneg|_]; [lia|].
  rewrite Nat2Z.id, nth_error_app2, Nat.sub_diag by lia. reflexivity.
Qed.

Lemma at_within {A : Type} (l tail : list A) (i : Z) :
  i < Z.of_nat (length l) -> at_ (l ++ tail) i = at_ l i.
Proof.
  intros Hi. unfold at_. destruct (Z.ltb_spec i 0); [reflexivity|].
  rewrite nth_error_app1 by lia. reflexivity.
Qed.

Lemma size_app (a b : Buffer) : size (a ++ b) = size a + size b.
Proof. unfold size. rewrite length_app. lia. Qed.

(** ** The walk of [FindError] *)

(** From the end of entries it passes over, the walk arrives at the leaf
    before them and returns its error. *)
Lemma FindError_loop_passed_over (debug : bool)
    (production : TargetProduction) (pre : Buffer) (q : Z) (e : Error)
    (post : Buffer) :
  Z.land q (bits production) <> 0 ->
  passed_over production post ->
  forall (tail : Buffer) (fuel : nat),
  (length post < fuel)%nat ->
  FindError_loop fuel debug (pre ++ Leaf q e :: post ++ tail) production
    (size pre + 1 + size post) = Ok e.
Proof.
  intros Hq Hpost. apply Z.eqb_neq in Hq.
  induction Hpost as [|post q' e' Hpost IH Hq'|post inner m Hpost IH Hm Hhack];
    intros tail fuel Hfuel;
    (destruct fuel as [|fuel]; [cbn in Hfuel; lia|]);
    unfold size in *; cbn [FindError_loop].
  - cbn [length app] in *.
    rewrite DCHECK_holds by (apply Z.ltb_lt; lia). cbn [bind].
    rewrite at_behind by lia. cbn [bind elt_invalid_productions is_leaf].
    rewrite Hq. unfold error. cbn [is_leaf].
    rewrite DCHECK_holds by reflexivity. reflexivity.
  - rewrite length_app in *. cbn [length] in *.
    rewrite DCHECK_holds by (apply Z.ltb_lt; lia). cbn [bind].
    rewrite <- app_assoc. cbn [app].
    replace (pre ++ Leaf q e :: post ++ Leaf q' e' :: tail)
      with ((pre ++ Leaf q e :: post) ++ Leaf q' e' :: tail)
      by (rewrite <- app_assoc; reflexivity).
    rewrite at_behind by (rewrite length_app; cbn [length]; lia).
    cbn [bind elt_invalid_productions skip].
    apply Z.eqb_eq in Hq'. rewrite Hq'.
    rewrite DCHECK_holds by (apply Z.leb_le; lia).
    cbn [bind]. rewrite <- app_assoc. cbn [app].
    replace (Z.of_nat (length pre) + 1 + Z.of_nat (length post + 1) - 1 - 0)
      with (Z.of_nat (length pre) + 1 + Z.of_nat (length post)) by lia.
    replace (Z.of_nat (length pre) + 1 + Z.of_nat (length post + 1) - 1)
      with (Z.of_nat (length pre) + 1 + Z.of_nat (length post)) by lia.
    destruct (is_arrow production && _); apply IH; lia.
  - rewrite !length_app in *. cbn [length] in *.
    rewrite DCHECK_holds by (apply Z.ltb_lt; lia). cbn [bind].
    replace (pre ++ Leaf q e
             :: (post ++ inner ++ [Skip m (Z.of_nat (length inner))]) ++ tail)
      with ((pre ++ Leaf q e :: post ++ inner)
            ++ Skip m (Z.of_nat (length inner)) :: tail)
      by (rewrite <- !app_assoc; cbn [app]; rewrite <- !app_assoc;
          reflexivity).
    rewrite at_behind
      by (rewrite !length_app; cbn [length]; rewrite length_app; lia).
    cbn [bind elt_invalid_productions skip].
    apply Z.eqb_eq in Hm. rewrite Hm.
    rewrite DCHECK_holds by (apply Z.leb_le; lia).
    cbn [bind]. unfold arrow_hack in Hhack. rewrite Hhack.
    rewrite <- !app_assoc. cbn [app]. rewrite <- !app_assoc.
    replace (Z.of_nat (length pre) + 1
             + Z.of_nat (length post + (length inner + 1)) - 1
             - Z.of_nat (length inner))
      with (Z.of_nat (length pre) + 1 + Z.of_nat (length post)) by lia.
    apply (IH (inner ++ Skip m (Z.of_nat (length inner)) :: tail)). lia.
Qed.

(** X1: [FindError] returns the error of the last leaf recorded for the
    production, when the entries logged after that leaf are leaves of other
    productions and closed scopes that stayed valid for the production
    and, if the production is the arrow production, for binding patterns
    as well ([passed_over]): such a closed scope is stepped over by its
    skip count, whatever it holds.  A closed scope that is invalid for
    binding patterns is not covered when the production is the arrow
    production: [FindError] walks into it. *)
Theorem FindError_last_leaf (debug : bool) (c : Cursor)
    (production : TargetProduction) (pre : Buffer) (q : Z) (e : Error)
    (post : Buffer) :
  is_valid c production = false ->
  Z.land q (bits production) <> 0 ->
  passed_over production post ->
  FindError debug c (pre ++ Leaf q e :: post) production = Ok e.
Proof.
  intros Hc Hq Hpost. unfold FindError, CHECK. rewrite Hc. cbn [negb bind].
  replace (size (pre ++ Leaf q e :: post)) with (size pre + 1 + size post)
    by (unfold size; rewrite length_app; cbn [length]; lia).
  rewrite <- (app_nil_r post) at 2.
  apply FindError_loop_passed_over; try assumption.
  rewrite length_app. cbn [length]. lia.
Qed.

(** The expression error of a cursor, behind its later binding-pattern
    error, a closed scope of three entries that stayed valid for expressions
    (a scope nested in it recorded an expression error, the scope itself an
    assignment-pattern error), and its later duplicate-parameter error. *)
Lemma FindError_last_leaf_witness :
  FindError true (mkCursor 0 11)
    ([Leaf 1 (mkError (3, 4) 17 None)]
     ++ [Leaf 2 (mkError (5, 6) 18 None)]
     ++ [Leaf 1 (mkError (7, 8) 19 None); Skip 1 1;
         Leaf 4 (mkError (7, 9) 20 None)]
     ++ [Skip 4 3]
     ++ [Leaf 8 (mkError (9, 10) 21 None)])
    ExpressionProduction = Ok (mkError (3, 4) 17 None).
Proof.
  apply (FindError_last_leaf true (mkCursor 0 11) ExpressionProduction []
           1 (mkError (3, 4) 17 None)
           ([Leaf 2 (mkError (5, 6) 18 None)]
            ++ [Leaf 1 (mkError (7, 8) 19 None); Skip 1 1;
                Leaf 4 (mkError (7, 9) 20 None)]
            ++ [Skip 4 3]
            ++ [Leaf 8 (mkError (9, 10) 21 None)])).
  - reflexivity.
  - discriminate.
  - apply (passed_over_leaf ExpressionProduction
             ([Leaf 2 (mkError (5, 6) 18 None)]
              ++ [Leaf 1 (mkError (7, 8) 19 None); Skip 1 1;
                  Leaf 4 (mkError (7, 9) 20 None)]
              ++ [Skip 4 3])
             8 (mkError (9, 10) 21 None)); [|reflexivity].
    apply (passed_over_scope ExpressionProduction
             [Leaf 2 (mkError (5, 6) 18 None)]
             [Leaf 1 (mkError (7, 8) 19 None); Skip 1 1;
              Leaf 4 (mkError (7, 9) 20 None)] 4);
      [|reflexivity|reflexivity].
    apply (passed_over_leaf ExpressionProduction [] 2
             (mkError (5, 6) 18 None)); [|reflexivity].
    apply passed_over_nil.
Defined.

Lemma FindError_loop_sound (debug : bool) (buffer_ : Buffer)
    (production : TargetProduction) (e : Error) (fuel : nat) :
  forall end_ : Z,
  FindError_loop fuel debug buffer_ production end_ = Ok e ->
  exists q, In (Leaf q e) buffer_ /\ Z.land q (bits production) <> 0.
Proof.
  induction fuel as [|fuel IH]; intros end_; cbn [FindError_loop];
    [discriminate|].
  destruct (ASSERT debug (0 <? end_)); cbn [bind]; [|discriminate].
  unfold at_. destruct (end_ - 1 <? 0); cbn [bind]; [discriminate|].
  destruct (nth_error buffer_ (Z.to_nat (end_ - 1))) as [elt|] eqn:Hnth;
    cbn [bind]; [|discriminate].
  destruct (Z.eqb_spec (Z.land (elt_invalid_productions elt)
                          (bits production)) 0) as [_|Hne].
  - destruct (ASSERT debug (skip elt <=? end_ - 1)); cbn [bind];
      [|discriminate].
    destruct (is_arrow production && _); apply IH.
  - destruct elt as [q e'|m n]; cbn [is_leaf]; [|apply IH].
    unfold error. cbn [is_leaf]. rewrite DCHECK_holds by reflexivity.
    cbn [bind]. intros H. injection H as ->.
    exists q. split; [|exact Hne].
    apply nth_error_In in Hnth. exact Hnth.
Qed.

(** X2: an error that [FindError] returns is the error of a leaf of the
    log whose productions include the one asked for, and the cursor is
    invalid for that production: the walk returns nothing else, whatever
    the log holds. *)
Theorem FindError_sound (debug : bool) (c : Cursor) (buffer_ : Buffer)
    (production : TargetProduction) (e : Error) :
  FindError debug c buffer_ production = Ok e ->
  is_valid c production = false
  /\ exists q, In (Leaf q e) buffer_ /\ Z.land q (bits production) <> 0.
Proof.
  unfold FindError, CHECK.
  destruct (is_valid c production); cbn [negb bind]; [discriminate|].
  intros H. split; [reflexivity|].
  exact (FindError_loop_sound _ _ _ _ _ _ H).
Qed.

(** The log of the scenario of C4: the error returned is that of the
    second leaf. *)
Lemma FindError_sound_witness :
  FindError false (mkCursor 0 1)
    [Leaf 1 (mkError (3, 4) 17 None); Leaf 1 (mkError (7, 8) 19 None);
     Skip 1 1]
    ExpressionProduction = Ok (mkError (7, 8) 19 None)
  /\ is_valid (mkCursor 0 1) ExpressionProduction = false
  /\ exists q,
       In (Leaf q (mkError (7, 8) 19 None))
         [Leaf 1 (mkError (3, 4) 17 None); Leaf 1 (mkError (7, 8) 19 None);
          Skip 1 1]
       /\ Z.land q (bits ExpressionProduction) <> 0.
Proof.
  split; [reflexivity|].
  apply (FindError_sound false (mkCursor 0 1)
           [Leaf 1 (mkError (3, 4) 17 None);
            Leaf 1 (mkError (7, 8) 19 None); Skip 1 1]
           ExpressionProduction (mkError (7, 8) 19 None)).
  reflexivity.
Defined.

(** The walk reads the log below [end] only. *)
Lemma FindError_loop_tail (debug : bool) (buffer_ tail : Buffer)
    (production : TargetProduction) (fuel : nat) :
  Forall (fun elt => 0 <= skip elt) buffer_ ->
  forall end_ : Z,
  end_ <= size buffer_ ->
  FindError_loop fuel debug (buffer_ ++ tail) production end_
  = FindError_loop fuel debug buffer_ production end_.
Proof.
  intros Hskip.
  induction fuel as [|fuel IH]; intros end_ Hend; cbn [FindError_loop];
    [reflexivity|].
  destruct (ASSERT debug (0 <? end_)); cbn [bind]; [|reflexivity].
  rewrite at_within by (unfold size in Hend; lia).
  destruct (at_ buffer_ (end_ - 1)) as [elt|f] eqn:Hat; cbn [bind];
    [|reflexivity].
  assert (Hge : 0 <= skip elt).
  { unfold at_ in Hat. destruct (end_ - 1 <? 0); [discriminate|].
    destruct (nth_error buffer_ (Z.to_nat (end_ - 1))) as [x|] eqn:Hnth;
      [|discriminate].
    injection Hat as ->. apply nth_error_In in Hnth.
    rewrite Forall_forall in Hskip. apply Hskip, Hnth. }
  destruct (Z.land (elt_invalid_productions elt) (bits production) =? 0).
  - destruct (ASSERT debug (skip elt <=? end_ - 1)); cbn [bind];
      [|reflexivity].
    destruct (is_arrow production && _); apply IH; lia.
  - destruct (is_leaf elt); [reflexivity|]. apply IH. lia.
Qed.

Lemma is_valid_false_invalid (c : Cursor) (production : TargetProduction) :
  is_valid c production = false -> invalid_productions c <> 0.
Proof.
  unfold is_valid. intros H Hz. rewrite Hz, Z.land_0_l in H. discriminate.
Qed.

(** At the [Skip] entry of a scope that is invalid for the production the
    walk steps into the scope. *)
Lemma FindError_loop_enter (debug : bool) (buffer_ : Buffer) (m k : Z)
    (production : TargetProduction) (fuel : nat) :
  Z.land m (bits production) <> 0 ->
  FindError_loop (S fuel) debug (buffer_ ++ [Skip m k]) production
    (size buffer_ + 1)
  = FindError_loop fuel debug (buffer_ ++ [Skip m k]) production
      (size buffer_).
Proof.
  intros Hm. apply Z.eqb_neq in Hm. cbn [FindError_loop].
  rewrite DCHECK_holds by (apply Z.ltb_lt; unfold size; lia).
  cbn [bind].
  rewrite at_behind by (unfold size; lia).
  cbn [bind elt_invalid_productions is_leaf]. rewrite Hm.
  replace (size buffer_ + 1 - 1) with (size buffer_) by lia.
  reflexivity.
Qed.

(** X3: closing a scope does not change the error reported for a production
    the scope is invalid for: after [pop] has appended the scope's [Skip]
    entry, [FindError] from an enclosing cursor that is invalid for the
    production walks into the closed scope and returns what [FindError] from
    the scope's own cursor returned before the scope was closed. *)
Theorem FindError_after_pop (debug : bool) (buffer_ buffer' : Buffer)
    (outer inner : Cursor) (production : TargetProduction) :
  Forall (fun elt => 0 <= skip elt) buffer_ ->
  is_valid inner production = false ->
  is_valid outer production = false ->
  pop debug buffer_ inner = Ok buffer' ->
  FindError debug outer buffer' production
  = FindError debug inner buffer_ production.
Proof.
  intros Hskip Hinner Houter.
  pose proof (is_valid_false_invalid _ _ Hinner) as Hne.
  apply Z.eqb_neq in Hne.
  unfold pop. destruct (ASSERT debug (start inner <=? size buffer_));
    cbn [bind]; [|discriminate].
  destruct (size buffer_ =? start inner).
  - rewrite Hne. destruct debug; cbn; [discriminate|].
    intros H. injection H as <-.
    unfold FindError. rewrite Hinner, Houter. reflexivity.
  - rewrite Hne.
    destruct (ASSERT debug (start inner <? size buffer_)); cbn [bind];
      [|discriminate].
    intros H. injection H as <-.
    unfold FindError, CHECK. rewrite Hinner, Houter. cbn [negb bind].
    rewrite length_app. cbn [length]. rewrite Nat.add_1_r, size_app.
    change (size [Skip (invalid_productions inner)
                    (size buffer_ - start inner)]) with 1.
    rewrite FindError_loop_enter
      by (unfold is_valid in Hinner; apply Z.eqb_neq; exact Hinner).
    apply FindError_loop_tail; [exact Hskip|lia].
Qed.

(** A nested scope records a binding-pattern error behind the outer
    cursor's expression error, the outer cursor accumulates it, and the
    scope is closed. *)
Lemma FindError_after_pop_witness :
  pop true
    [Leaf 1 (mkError (3, 4) 17 None); Leaf 2 (mkError (5, 6) 18 None)]
    (mkCursor 1 2)
  = Ok [Leaf 1 (mkError (3, 4) 17 None); Leaf 2 (mkError (5, 6) 18 None);
        Skip 2 1]
  /\ FindError true (mkCursor 0 3)
       [Leaf 1 (mkError (3, 4) 17 None); Leaf 2 (mkError (5, 6) 18 None);
        Skip 2 1]
       BindingPatternProduction
     = FindError true (mkCursor 1 2)
         [Leaf 1 (mkError (3, 4) 17 None); Leaf 2 (mkError (5, 6) 18 None)]
         BindingPatternProduction.
Proof.
  split; [reflexivity|].
  apply (FindError_after_pop true
           [Leaf 1 (mkError (3, 4) 17 None);
            Leaf 2 (mkError (5, 6) 18 None)]
           [Leaf 1 (mkError (3, 4) 17 None);
            Leaf 2 (mkError (5, 6) 18 None); Skip 2 1]
           (mkCursor 0 3) (mkCursor 1 2) BindingPatternProduction).
  - repeat constructor; cbn; lia.
  - reflexivity.
  - reflexivity.
  - reflexivity.
Defined.

(** ** Closing a scope *)

(** X4: a scope that recorded nothing and accumulated nothing leaves no
    trace: [pop] of a cursor that is still valid for every production
    restores the log to what it was at the cursor's [push], whatever nested
    scopes have logged since. *)
Theorem pop_of_valid_scope (debug : bool) (buffer_ logged : Buffer) :
  pop debug (buffer_ ++ logged) (push buffer_) = Ok buffer_.
Proof.
  unfold pop, push. cbn [start invalid_productions].
  rewrite DCHECK_holds by (apply Z.leb_le; rewrite size_app; unfold size; lia).
  cbn [bind].
  destruct (Z.eqb_spec (size (buffer_ ++ logged)) (size buffer_)) as [Heq|_].
  - rewrite DCHECK_holds by reflexivity. cbn [bind].
    rewrite size_app in Heq. unfold size in Heq.
    destruct logged as [|x logged]; [|cbn [length] in Heq; lia].
    rewrite app_nil_r. reflexivity.
  - cbn. unfold size. rewrite Nat2Z.id.
    rewrite firstn_app, Nat.sub_diag, firstn_all. cbn [firstn].
    rewrite app_nil_r. reflexivity.
Qed.

Lemma nth_error_firstn_some {A : Type} (n : nat) (l : list A) :
  forall (i : nat) (x : A),
  nth_error (firstn n l) i = Some x -> nth_error l i = Some x.
Proof.
  revert l. induction n as [|n IH]; intros l i x; cbn [firstn].
  - destruct i; discriminate.
  - destruct l as [|y l]; [destruct i; discriminate|].
    destruct i as [|i]; cbn [nth_error]; [trivial|]. apply IH.
Qed.

Lemma skips_in_range_snoc (buffer_ : Buffer) (elt : BufferElement) :
  skips_in_range buffer_ ->
  0 <= skip elt <= size buffer_ ->
  skips_in_range (buffer_ ++ [elt]).
Proof.
  intros Hb Helt idx x Hnth.
  destruct (Nat.lt_ge_cases idx (length buffer_)) as [Hlt|Hge].
  - rewrite nth_error_app1 in Hnth by exact Hlt. apply (Hb _ _ Hnth).
  - rewrite nth_error_app2 in Hnth by exact Hge.
    destruct (idx - length buffer_)%nat as [|k] eqn:Hk;
      cbn [nth_error] in Hnth.
    + injection Hnth as <-. unfold size in Helt. lia.
    + destruct k; discriminate.
Qed.

(** X5: the operations that write the log keep every skip count between 0
    and the index of its entry, which is what [DCHECK(elt.skip() <= idx)]
    of [FindError] checks and what keeps [idx - elt.skip()] from wrapping
    around: [RecordError] appends a leaf, whose skip count is 0, and [pop]
    of a cursor whose start is in the log truncates the log or appends a
    [Skip] entry that counts the entries since the cursor's start. *)
Theorem log_keeps_skips_in_range (debug : bool) (buffer_ : Buffer)
    (c : Cursor) (production : TargetProduction) (e : Error) :
  skips_in_range buffer_ ->
  0 <= start c <= size buffer_ ->
  skips_in_range (snd (RecordError c buffer_ production e))
  /\ forall buffer', pop debug buffer_ c = Ok buffer' ->
       skips_in_range buffer'
       /\ Forall (fun elt => 0 <= skip elt <= size buffer') buffer'.
Proof.
  intros Hb Hstart. split.
  - unfold RecordError. destruct (negb (is_valid c production));
      cbn [snd]; [exact Hb|].
    apply skips_in_range_snoc; [exact Hb|]. cbn [skip]. unfold size. lia.
  - intros buffer' Hpop.
    assert (Hin : skips_in_range buffer').
    { revert Hpop. unfold pop.
      destruct (ASSERT debug (start c <=? size buffer_)); cbn [bind];
        [|discriminate].
      destruct (Z.eqb_spec (size buffer_) (start c)) as [Heq|Hne].
      - destruct (ASSERT debug (invalid_productions c =? 0)); cbn [bind];
          [|discriminate].
        intros H. injection H as <-. exact Hb.
      - destruct (invalid_productions c =? 0).
        + intros H. injection H as <-. intros idx x Hnth.
          apply nth_error_firstn_some in Hnth. apply (Hb _ _ Hnth).
        + rewrite DCHECK_holds by (apply Z.ltb_lt; lia). cbn [bind].
          intros H. injection H as <-.
          apply skips_in_range_snoc; [exact Hb|]. cbn [skip]. lia. }
    split; [exact Hin|].
    apply Forall_forall. intros x Hx.
    apply In_nth_error in Hx as [idx Hnth].
    pose proof (Hin _ _ Hnth) as Hrange.
    assert (idx < length buffer')%nat
      by (apply nth_error_Some; rewrite Hnth; discriminate).
    unfold size. lia.
Qed.

(** The log and the nested cursor of the scenario above. *)
Lemma log_keeps_skips_in_range_witness :
  skips_in_range
    (snd (RecordError (mkCursor 1 2)
            [Leaf 1 (mkError (3, 4) 17 None);
             Leaf 2 (mkError (5, 6) 18 None)]
            ExpressionProduction (mkError (7, 8) 19 None)))
  /\ forall buffer',
       pop true
         [Leaf 1 (mkError (3, 4) 17 None); Leaf 2 (mkError (5, 6) 18 None)]
         (mkCursor 1 2) = Ok buffer' ->
       skips_in_range buffer'
       /\ Forall (fun elt => 0 <= skip elt <= size buffer') buffer'.
Proof.
  apply (log_keeps_skips_in_range true
           [Leaf 1 (mkError (3, 4) 17 None);
            Leaf 2 (mkError (5, 6) 18 None)]
           (mkCursor 1 2) ExpressionProduction (mkError (7, 8) 19 None)).
  - intros [|[|idx]] elt H; cbn in H.
    + injection H as <-. cbn. lia.
    + injection H as <-. cbn. lia.
    + destruct idx; discriminate.
  - cbn. lia.
Defined.

(** ** Recording and accumulating *)

Lemma testbit_bits (p q : TargetProduction) :
  Z.testbit (bits p) (bit_index q) = true <-> p = q.
Proof. destruct p, q; cbn; split; congruence. Qed.

(** X6: [RecordError] makes the cursor invalid for the production and for
    no other; it appends one leaf with the error when the cursor was valid
    for the production, and nothing otherwise, so that a second error
    recorded for the same production through the same cursor changes neither
    the cursor nor the log: the first error of a production is the one
    kept. *)
Theorem RecordError_first_wins (c : Cursor) (buffer_ : Buffer)
    (production : TargetProduction) (e e' : Error) :
  let recorded := RecordError c buffer_ production e in
  is_valid (fst recorded) production = false
  /\ (forall other, other <> production ->
        is_valid (fst recorded) other = is_valid c other)
  /\ start (fst recorded) = start c
  /\ snd recorded
     = (if is_valid c production
        then buffer_ ++ [Leaf (bits production) e] else buffer_)
  /\ RecordError (fst recorded) (snd recorded) production e' = recorded.
Proof.
  cbn zeta.
  assert (Hinvalid :
    is_valid (fst (RecordError c buffer_ production e)) production = false).
  { unfold RecordError. destruct (is_valid c production) eqn:Hv;
      cbn [negb fst]; [|exact Hv].
    rewrite is_valid_bit. cbn [invalid_productions].
    rewrite Z.lor_spec.
    rewrite (proj2 (testbit_bits production production) eq_refl).
    rewrite orb_true_r. reflexivity. }
  split; [exact Hinvalid|]. split; [|split; [|split]].
  - intros other Hother. unfold RecordError.
    destruct (is_valid c production); cbn [negb fst]; [|reflexivity].
    rewrite !is_valid_bit. cbn [invalid_productions].
    rewrite Z.lor_spec.
    destruct (Z.testbit (bits production) (bit_index other)) eqn:Hb.
    + apply testbit_bits in Hb. congruence.
    + rewrite orb_false_r. reflexivity.
  - unfold RecordError. destruct (is_valid c production); reflexivity.
  - unfold RecordError. destruct (is_valid c production); reflexivity.
  - unfold RecordError at 1. rewrite Hinvalid. cbn [negb].
    destruct (RecordError c buffer_ production e). reflexivity.
Qed.

(** The bit of a production that is not the arrow production, in the
    outer cursor after [Accumulate]. *)
Lemma Accumulate_non_arrow (outer inner : Cursor) (productions : Z)
    (production : TargetProduction) :
  is_arrow production = false ->
  is_valid (Accumulate outer inner productions) production
  = is_valid outer production
    && ((Z.land productions (bits production) =? 0)
        || is_valid inner production).
Proof.
  intros Hp.
  assert (Hkeep : Z.testbit
                    (complement32 (bits ArrowFormalParametersProduction))
                    (bit_index production) = true)
    by (destruct production; try discriminate Hp; reflexivity).
  assert (Harrow : Z.testbit (bits ArrowFormalParametersProduction)
                     (bit_index production) = false)
    by (destruct production; try discriminate Hp; reflexivity).
  assert (Hmask : (Z.land productions (bits production) =? 0)
                  = negb (Z.testbit productions (bit_index production))).
  { rewrite bits_bit_index. apply land_pow2_testbit, bit_index_range. }
  unfold Accumulate.
  destruct (Z.eqb_spec (invalid_productions inner) 0) as [Hzero|Hne].
  - unfold is_valid at 3. rewrite Hzero, Z.land_0_l. cbn.
    rewrite orb_true_r, andb_true_r. reflexivity.
  - destruct (negb (Z.land productions
                      (bits ArrowFormalParametersProduction) =? 0)
              && negb (is_valid_binding_pattern inner));
      rewrite Hmask, !is_valid_bit; cbn [invalid_productions];
      rewrite ?Z.lor_spec, !Z.land_spec, Hkeep, ?Harrow;
      destruct (Z.testbit (invalid_productions outer) (bit_index production)),
               (Z.testbit productions (bit_index production)),
               (Z.testbit (invalid_productions inner) (bit_index production));
      reflexivity.
Qed.

(** The rule of [Accumulate] for every production: the outer cursor stays
    valid for a production among [productions] when the inner cursor is
    valid for it, and for the arrow production when the inner cursor is a
    valid binding pattern. *)
Lemma Accumulate_is_valid (outer inner : Cursor) (productions : Z)
    (production : TargetProduction) :
  is_valid (Accumulate outer inner productions) production
  = is_valid outer production
    && ((Z.land productions (bits production) =? 0)
        || is_valid inner
             (if is_arrow production then BindingPatternProduction
              else production)).
Proof.
  destruct (is_arrow production) eqn:Harrow.
  - destruct production; try discriminate Harrow.
    destruct (Z.eqb_spec (Z.land productions
                            (bits ArrowFormalParametersProduction)) 0)
      as [Hnot|Hin].
    + cbn [orb]. rewrite andb_true_r. unfold Accumulate.
      destruct (invalid_productions inner =? 0); [reflexivity|].
      apply Z.eqb_eq in Hnot. rewrite Hnot. cbn [negb andb].
      rewrite !is_valid_testbit. cbn [invalid_productions].
      rewrite Z.lor_spec, !Z.land_spec.
      replace (Z.testbit
                 (complement32 (bits ArrowFormalParametersProduction)) 6)
        with false by reflexivity.
      rewrite !andb_false_r, orb_false_r. reflexivity.
    + cbn [orb]. apply (Accumulate_arrow_valid _ _ _ Hin).
  - apply (Accumulate_non_arrow outer inner productions production Harrow).
Qed.

(** X7: for each of the six productions that are not the arrow production,
    the outer cursor is valid after [Accumulate] exactly when it was valid
    before and the production is not among [productions] or the inner
    cursor is valid for it; an inner cursor that is valid for every
    production changes nothing, and the start of the outer cursor stays. *)
Theorem Accumulate_production (outer inner : Cursor) (productions : Z)
    (production : TargetProduction) :
  is_arrow production = false ->
  is_valid (Accumulate outer inner productions) production
  = is_valid outer production
    && ((Z.land productions (bits production) =? 0)
        || is_valid inner production)
  /\ start (Accumulate outer inner productions) = start outer
  /\ (invalid_productions inner = 0 ->
      Accumulate outer inner productions = outer).
Proof.
  intros Hp. split; [exact (Accumulate_non_arrow _ _ _ _ Hp)|].
  unfold Accumulate. split.
  - destruct (invalid_productions inner =? 0); [reflexivity|].
    destruct (negb (Z.land productions
                      (bits ArrowFormalParametersProduction) =? 0)
              && negb (is_valid_binding_pattern inner)); reflexivity.
  - intros ->. reflexivity.
Qed.

(** An outer cursor that is valid for every production accumulates, for the
    standard productions, an inner cursor that is invalid for assignment
    patterns and duplicate parameters: it becomes invalid for assignment
    patterns. *)
Lemma Accumulate_production_witness :
  is_valid (Accumulate (mkCursor 0 0) (mkCursor 1 12) StandardProductions)
    AssignmentPatternProduction = false
  /\ is_valid (Accumulate (mkCursor 0 0) (mkCursor 1 12) StandardProductions)
       AssignmentPatternProduction
     = is_valid (mkCursor 0 0) AssignmentPatternProduction
       && ((Z.land StandardProductions (bits AssignmentPatternProduction) =? 0)
           || is_valid (mkCursor 1 12) AssignmentPatternProduction)
  /\ start (Accumulate (mkCursor 0 0) (mkCursor 1 12) StandardProductions)
     = start (mkCursor 0 0)
  /\ (invalid_productions (mkCursor 1 12) = 0 ->
      Accumulate (mkCursor 0 0) (mkCursor 1 12) StandardProductions
      = mkCursor 0 0).
Proof.
  split; [reflexivity|].
  apply (Accumulate_production (mkCursor 0 0) (mkCursor 1 12)
           StandardProductions AssignmentPatternProduction).
  reflexivity.
Defined.

(** X20: as far as the validity for any production goes, the order in
    which a cursor accumulates two inner cursors does not matter, and
    accumulating the same inner cursor a second time changes nothing. *)
Theorem Accumulate_order (outer inner1 inner2 : Cursor)
    (productions1 productions2 : Z) (production : TargetProduction) :
  is_valid
    (Accumulate (Accumulate outer inner1 productions1) inner2 productions2)
    production
  = is_valid
      (Accumulate (Accumulate outer inner2 productions2) inner1 productions1)
      production
  /\ is_valid
       (Accumulate (Accumulate outer inner1 productions1) inner1
          productions1)
       production
     = is_valid (Accumulate outer inner1 productions1) production.
Proof.
  rewrite !Accumulate_is_valid.
  destruct (is_valid outer production),
    (Z.land productions1 (bits production) =? 0),
    (Z.land productions2 (bits production) =? 0),
    (is_valid inner1 (if is_arrow production then BindingPatternProduction
                      else production)),
    (is_valid inner2 (if is_arrow production then BindingPatternProduction
                      else production));
    split; reflexivity.
Qed.

(** ** An error of a nested scope *)

Lemma bits_positive (p : TargetProduction) : 0 < bits p.
Proof. destruct p; reflexivity. Qed.

Lemma land_bits_self (p : TargetProduction) : Z.land (bits p) (bits p) <> 0.
Proof. rewrite Z.land_diag. pose proof (bits_positive p). lia. Qed.

(** X24: the round trip through a nested scope, for a production that is
    not the arrow production: an error that a fresh nested scope records and
    the enclosing cursor accumulates is, once the nested scope is closed,
    the error [FindError] reports from the enclosing cursor, whatever the
    log held before the nested scope; closing the scope has appended the
    leaf and a [Skip] entry of skip count 1. *)
Theorem nested_error_is_reported (debug : bool) (buffer_ : Buffer)
    (outer : Cursor) (production : TargetProduction) (productions : Z)
    (e : Error) :
  is_arrow production = false ->
  Z.land productions (bits production) <> 0 ->
  let recorded := RecordError (push buffer_) buffer_ production e in
  let accumulated := Accumulate outer (fst recorded) productions in
  let closed :=
    buffer_ ++ [Leaf (bits production) e; Skip (bits production) 1] in
  pop debug (snd recorded) (fst recorded) = Ok closed
  /\ is_valid accumulated production = false
  /\ FindError debug accumulated closed production = Ok e.
Proof.
  intros Harrow Hin. cbn zeta.
  assert (Hrecorded : RecordError (push buffer_) buffer_ production e
                      = (mkCursor (size buffer_) (bits production),
                         buffer_ ++ [Leaf (bits production) e])).
  { unfold RecordError, push, is_valid. cbn [invalid_productions start].
    rewrite Z.land_0_l. cbn. reflexivity. }
  rewrite Hrecorded. cbn [fst snd].
  assert (Hinvalid : is_valid (mkCursor (size buffer_) (bits production))
                       production = false).
  { unfold is_valid. cbn [invalid_productions].
    apply Z.eqb_neq, land_bits_self. }
  assert (Haccumulated :
    is_valid (Accumulate outer (mkCursor (size buffer_) (bits production))
                productions) production = false).
  { rewrite (Accumulate_non_arrow _ _ _ _ Harrow), Hinvalid.
    apply Z.eqb_neq in Hin. rewrite Hin. apply andb_false_r. }
  split; [|split; [exact Haccumulated|]].
  - unfold pop. cbn [start invalid_productions].
    rewrite size_app. change (size [Leaf (bits production) e]) with 1.
    rewrite DCHECK_holds by (apply Z.leb_le; lia). cbn [bind].
    destruct (Z.eqb_spec (size buffer_ + 1) (size buffer_)); [lia|].
    pose proof (bits_positive production) as Hpositive.
    destruct (Z.eqb_spec (bits production) 0); [lia|].
    rewrite DCHECK_holds by (apply Z.ltb_lt; lia). cbn [bind].
    replace (size buffer_ + 1 - size buffer_) with 1 by lia.
    rewrite <- app_assoc. reflexivity.
  - unfold FindError, CHECK. rewrite Haccumulated. cbn [negb bind].
    replace (buffer_ ++ [Leaf (bits production) e; Skip (bits production) 1])
      with ((buffer_ ++ [Leaf (bits production) e])
            ++ [Skip (bits production) 1])
      by (rewrite <- app_assoc; reflexivity).
    rewrite length_app. cbn [length]. rewrite Nat.add_1_r, size_app.
    change (size [Skip (bits production) 1]) with 1.
    rewrite FindError_loop_enter by apply land_bits_self.
    rewrite <- app_assoc. cbn [app].
    rewrite size_app. change (size [Leaf (bits production) e]) with 1.
    replace (size buffer_ + 1) with (size buffer_ + 1 + size [])
      by (unfold size; cbn [length]; lia).
    apply (FindError_loop_passed_over debug production buffer_
             (bits production) e [] (land_bits_self production)
             (passed_over_nil production) [Skip (bits production) 1]).
    cbn [length]. lia.
Qed.

(** A nested scope records a binding-pattern error behind an expression
    error of the enclosing cursor, which accumulates the standard
    productions. *)
Lemma nested_error_is_reported_witness :
  FindError true
    (Accumulate (mkCursor 0 1)
       (fst (RecordError (push [Leaf 1 (mkError (3, 4) 17 None)])
               [Leaf 1 (mkError (3, 4) 17 None)] BindingPatternProduction
               (mkError (5, 6) 18 None)))
       StandardProductions)
    ([Leaf 1 (mkError (3, 4) 17 None)]
     ++ [Leaf (bits BindingPatternProduction) (mkError (5, 6) 18 None);
         Skip (bits BindingPatternProduction) 1])
    BindingPatternProduction
  = Ok (mkError (5, 6) 18 None).
Proof.
  apply (nested_error_is_reported true [Leaf 1 (mkError (3, 4) 17 None)]
           (mkCursor 0 1) BindingPatternProduction StandardProductions
           (mkError (5, 6) 18 None)).
  - reflexivity.
  - vm_compute. discriminate.
Defined.

(** ** The walk ends *)



End ClassifierLogFacts.

(** * Properties of the codec *)

Module CodecFacts.
Import CompressedSourceCodec CompressedSource TokenStream SampleStreams.

(** [lia] reads a division or a remainder by a constant as its quotient and
    remainder equations. *)
Ltac Zify.zify_post_hook ::= Z.to_euclidean_division_equations.

(** ** Reads of a vector *)

Lemma at_app_offset {A : Type} (pre l : list A) (i j : Z) :
  0 <= j -> i = Z.of_nat (length pre) + j -> at_ (pre ++ l) i = at_ l j.
Proof.
  intros Hj ->. unfold at_.
  destruct (Z.ltb_spec (Z.of_nat (length pre) + j) 0); [lia|].
  destruct (Z.ltb_spec j 0); [lia|].
  replace (Z.to_nat (Z.of_nat (length pre) + j))
    with (length pre + Z.to_nat j)%nat by lia.
  rewrite nth_error_app2 by lia.
  replace (length pre + Z.to_nat j - length pre)%nat with (Z.to_nat j) by lia.
  reflexivity.
Qed.

Lemma at_outside {A : Type} (l : list A) (i : Z) :
  Z.of_nat (length l) <= i -> at_ l i = Fault OutOfBounds.
Proof.
  intros Hi. unfold at_. destruct (i <? 0); [reflexivity|].
  destruct (nth_error l (Z.to_nat i)) eqn:Hn; [|reflexivity].
  assert (Hlt : (Z.to_nat i < length l)%nat)
    by (apply nth_error_Some; congruence).
  lia.
Qed.

Lemma at_inside {A : Type} (l : list A) (i : Z) (x : A) :
  at_ l i = Ok x -> 0 <= i < Z.of_nat (length l).
Proof.
  unfold at_. destruct (Z.ltb_spec i 0); [discriminate|].
  destruct (nth_error l (Z.to_nat i)) eqn:Hn; [|discriminate].
  intros _.
  assert (Hlt : (Z.to_nat i < length l)%nat)
    by (apply nth_error_Some; congruence).
  lia.
Qed.

Lemma ASSERT_true (debug : bool) : ASSERT debug true = Ok tt.
Proof. unfold ASSERT. destruct debug; reflexivity. Qed.

Lemma ASSERT_holds (debug cond : bool) :
  cond = true -> ASSERT debug cond = Ok tt.
Proof. intros ->. apply ASSERT_true. Qed.

(** ** Streams of tokens *)

Lemma token_bytes_length (t : token) :
  1 <= Z.of_nat (length (token_bytes t)) <= 4.
Proof. destruct t; cbn; lia. Qed.

Lemma stream_of_cons (t : token) (tokens : list token) :
  stream_of (t :: tokens) = token_bytes t ++ stream_of tokens.
Proof. reflexivity. Qed.

Lemma stream_of_app (a b : list token) :
  stream_of (a ++ b) = stream_of a ++ stream_of b.
Proof. unfold stream_of. apply flat_map_app. Qed.

Lemma stream_of_length (tokens : list token) :
  (length tokens <= length (stream_of tokens))%nat.
Proof.
  induction tokens as [|t rest IH]; [cbn; lia|].
  rewrite stream_of_cons, length_app. cbn [length].
  pose proof (token_bytes_length t). lia.
Qed.

Lemma stream_size_app (a b : list token) :
  stream_size (a ++ b) = stream_size a + stream_size b.
Proof. unfold stream_size. rewrite stream_of_app, length_app. lia. Qed.

Section Facts.

Variable debug : bool.
Variable token_lengths : Z -> Z.
Variable token_chars : Z -> list Z.

Hypothesis table_ok : code_table_ok token_lengths token_chars.

Local Abbreviation token_units := (token_units token_chars).
Local Abbreviation token_advance := (token_advance token_lengths).
Local Abbreviation units_of := (units_of token_chars).
Local Abbreviation advance_of := (advance_of token_lengths).
Local Abbreviation seek := (seek token_lengths).
Local Abbreviation cursor_at := (cursor_at token_lengths).
Local Abbreviation cursor_addresses := (cursor_addresses token_lengths).
Local Abbreviation AdvanceCursor := (AdvanceCursor debug token_lengths).
Local Abbreviation AdvanceCursor_loop :=
  (AdvanceCursor_loop debug token_lengths).
Local Abbreviation GetCursor := (GetCursor debug token_lengths).
Local Abbreviation IsAscii := (IsAscii debug token_lengths).
Local Abbreviation Decode := (Decode debug token_lengths token_chars).
Local Abbreviation Get := (Get debug token_lengths token_chars).
Local Abbreviation well_formed := (well_formed token_lengths token_chars debug).

Lemma table_ascii : token_lengths 0 = 1.
Proof. apply table_ok. Qed.

Lemma table_unicode : token_lengths 1 = 1.
Proof. apply table_ok. Qed.

Lemma table_bytecode (code : Z) :
  (kFirstBytecode <=? code) && (code <=? kLastBytecode) = true ->
  1 <= token_lengths code <= 9
  /\ Z.of_nat (length (token_chars code)) = token_lengths code.
Proof.
  intros H. apply andb_true_iff in H as [H1 H2].
  apply Z.leb_le in H1, H2. apply table_ok. lia.
Qed.

Lemma uc16_length_range (b0 b1 b2 : Z) : 1 <= uc16_length b0 b1 b2 <= 2.
Proof. unfold uc16_length. destruct (_ <? _); lia. Qed.

Lemma token_advance_pos (t : token) :
  valid_token t = true -> 1 <= token_advance t.
Proof.
  destruct t as [code|b|b0 b1 b2]; cbn [valid_token token_advance]; intros Hv.
  - apply table_bytecode in Hv. lia.
  - change kAsciiCode with 0. rewrite table_ascii. lia.
  - change kUnicodeCode with 1. rewrite table_unicode.
    pose proof (uc16_length_range b0 b1 b2). lia.
Qed.

Lemma advance_of_app (a b : list token) :
  advance_of (a ++ b) = advance_of a + advance_of b.
Proof. induction a as [|t a IH]; cbn; [|rewrite IH]; lia. Qed.

Lemma advance_of_nonneg (tokens : list token) :
  forallb valid_token tokens = true -> 0 <= advance_of tokens.
Proof.
  induction tokens as [|t rest IH]; cbn; [lia|].
  intros H. apply andb_true_iff in H as [Ht Hr].
  pose proof (token_advance_pos t Ht). specialize (IH Hr). lia.
Qed.

(** ** [AdvanceCursor] on a stream of tokens *)

Lemma AdvanceCursor_finish (data : list Z) (c : Cursor) (n : Z) :
  AdvanceCursor data c n
  = (st <- AdvanceCursor_loop (S (length data)) data
             (n + sub_token_offset c) (byte_offset c) 0 0 0 ;;
     Ok (finish (n + sub_token_offset c) st)).
Proof.
  unfold AdvanceCursor.
  destruct (AdvanceCursor_loop _ _ _ _ _ _ _) as [[[[bo cw] pbo] pcw]|f];
    cbn; [|reflexivity].
  destruct (cw =? _); reflexivity.
Qed.

(** One iteration of the loop over a whole token. *)
Lemma AdvanceCursor_loop_step (t : token) (pre tail : list Z) (fuel : nat)
    (chars cw pbo pcw : Z) :
  valid_token t = true ->
  cw < chars ->
  AdvanceCursor_loop (S fuel) (pre ++ token_bytes t ++ tail) chars
    (Z.of_nat (length pre)) cw pbo pcw
  = AdvanceCursor_loop fuel (pre ++ token_bytes t ++ tail) chars
      (Z.of_nat (length pre) + Z.of_nat (length (token_bytes t)))
      (cw + token_advance t) (Z.of_nat (length pre)) cw.
Proof.
  intros Hv Hlt. cbn [CompressedSourceCodec.AdvanceCursor_loop].
  destruct (Z.ltb_spec cw chars); [|lia].
  rewrite (at_app_offset pre _ _ 0) by lia.
  destruct t as [code|b|b0 b1 b2]; cbn [token_bytes app].
  - cbn in Hv. apply andb_true_iff in Hv as [Hv _].
    change (at_ (code :: tail) 0) with (Ok code). cbn [bind].
    unfold is_bytecode. rewrite Hv. cbn [negb]. reflexivity.
  - change (at_ (kAsciiCode :: b :: tail) 0) with (Ok kAsciiCode).
    cbn [bind]. change (negb (is_bytecode kAsciiCode)) with true.
    change (is_ascii kAsciiCode) with true. cbn iota.
    cbn [length token_advance]. f_equal. lia.
  - change (at_ (kUnicodeCode :: b0 :: b1 :: b2 :: tail) 0)
      with (Ok kUnicodeCode).
    cbn [bind]. change (negb (is_bytecode kUnicodeCode)) with true.
    change (is_ascii kUnicodeCode) with false.
    change (is_unicode kUnicodeCode) with true. cbn iota.
    rewrite ASSERT_true. cbn [bind].
    rewrite (at_app_offset pre _ _ 1) by lia.
    rewrite (at_app_offset pre _ _ 2) by lia.
    rewrite (at_app_offset pre _ _ 3) by lia.
    change (at_ (kUnicodeCode :: b0 :: b1 :: b2 :: tail) 1) with (Ok b0).
    change (at_ (kUnicodeCode :: b0 :: b1 :: b2 :: tail) 2) with (Ok b1).
    change (at_ (kUnicodeCode :: b0 :: b1 :: b2 :: tail) 3) with (Ok b2).
    cbn [bind length token_advance]. f_equal; lia.
Qed.

Lemma AdvanceCursor_loop_tokens (tokens : list token) :
  forall (pre post : list Z) (fuel : nat) (chars cw pbo pcw : Z),
  forallb valid_token tokens = true ->
  (length tokens < fuel)%nat ->
  cw <= chars <= cw + advance_of tokens ->
  exists st,
    AdvanceCursor_loop fuel (pre ++ stream_of tokens ++ post) chars
      (Z.of_nat (length pre)) cw pbo pcw = Ok st
    /\ finish chars st
       = fst (seek tokens (Z.of_nat (length pre)) (chars - cw)).
Proof.
  induction tokens as [|t rest IH]; intros pre post fuel chars cw pbo pcw
    Hv Hfuel Hrange.
  - cbn in Hrange. assert (chars = cw) by lia. subst chars.
    destruct fuel as [|fuel]; [cbn in Hfuel; lia|].
    cbn [CompressedSourceCodec.AdvanceCursor_loop]. rewrite Z.ltb_irrefl.
    eexists. split; [reflexivity|].
    cbn. rewrite Z.eqb_refl. f_equal. lia.
  - cbn [forallb] in Hv. apply andb_true_iff in Hv as [Ht Hr].
    cbn [advance_of TokenStream.advance_of] in Hrange.
    pose proof (token_advance_pos t Ht) as Hpos.
    destruct fuel as [|fuel]; [cbn in Hfuel; lia|].
    cbn [length] in Hfuel.
    destruct (Z.eq_dec cw chars) as [->|Hne].
    + cbn [CompressedSourceCodec.AdvanceCursor_loop]. rewrite Z.ltb_irrefl.
      eexists. split; [reflexivity|].
      cbn [finish]. rewrite Z.eqb_refl, Z.sub_diag.
      cbn [seek TokenStream.seek].
      destruct (Z.ltb_spec 0 (token_advance t)); [reflexivity|lia].
    + rewrite stream_of_cons, <- app_assoc.
      rewrite AdvanceCursor_loop_step by (assumption || lia).
      destruct (Z_le_gt_dec (cw + token_advance t) chars) as [Hle|Hgt].
      * replace (pre ++ token_bytes t ++ stream_of rest ++ post)
          with ((pre ++ token_bytes t) ++ stream_of rest ++ post)
          by (rewrite <- app_assoc; reflexivity).
        replace (Z.of_nat (length pre) + Z.of_nat (length (token_bytes t)))
          with (Z.of_nat (length (pre ++ token_bytes t)))
          by (rewrite length_app; lia).
        destruct (IH (pre ++ token_bytes t) post fuel chars
                    (cw + token_advance t) (Z.of_nat (length pre)) cw)
          as [st [Hst Hfin]]; [assumption|lia|lia|].
        exists st. split; [exact Hst|].
        rewrite Hfin. cbn [seek TokenStream.seek].
        destruct (Z.ltb_spec (chars - cw) (token_advance t)); [lia|].
        rewrite length_app.
        replace (Z.of_nat (length pre + length (token_bytes t)))
          with (Z.of_nat (length pre) + Z.of_nat (length (token_bytes t)))
          by lia.
        replace (chars - (cw + token_advance t))
          with (chars - cw - token_advance t) by lia.
        reflexivity.
      * destruct fuel as [|fuel]; [lia|].
        cbn [CompressedSourceCodec.AdvanceCursor_loop].
        destruct (Z.ltb_spec (cw + token_advance t) chars); [lia|].
        eexists. split; [reflexivity|].
        cbn [finish].
        destruct (Z.eqb_spec (cw + token_advance t) chars); [lia|].
        cbn [seek TokenStream.seek].
        destruct (Z.ltb_spec (chars - cw) (token_advance t)); [|lia].
        reflexivity.
Qed.

(** [AdvanceCursor] from a cursor on a token boundary, with any sub-token
    offset, is the walk [seek] describes. *)
Lemma AdvanceCursor_seek (tokens : list token) (pre post : list Z)
    (sub n : Z) :
  forallb valid_token tokens = true ->
  0 <= sub + n <= advance_of tokens ->
  AdvanceCursor (pre ++ stream_of tokens ++ post)
    (mkCursor (Z.of_nat (length pre)) sub) n
  = Ok (fst (seek tokens (Z.of_nat (length pre)) (sub + n))).
Proof.
  intros Hv Hrange. rewrite AdvanceCursor_finish.
  cbn [byte_offset sub_token_offset].
  destruct (AdvanceCursor_loop_tokens tokens pre post
              (S (length (pre ++ stream_of tokens ++ post)))
              (n + sub) 0 0 0) as [st [Hst Hfin]].
  - exact Hv.
  - rewrite !length_app. pose proof (stream_of_length tokens). lia.
  - lia.
  - rewrite Hst. cbn [bind]. rewrite Hfin.
    replace (n + sub - 0) with (sub + n) by lia. reflexivity.
Qed.

(** A read past the last token of a stream with nothing behind it is
    outside the vector. *)
Lemma AdvanceCursor_loop_overrun (tokens : list token) :
  forall (pre : list Z) (fuel : nat) (chars cw pbo pcw : Z),
  forallb valid_token tokens = true ->
  (length tokens < fuel)%nat ->
  cw + advance_of tokens < chars ->
  AdvanceCursor_loop fuel (pre ++ stream_of tokens) chars
    (Z.of_nat (length pre)) cw pbo pcw = Fault OutOfBounds.
Proof.
  induction tokens as [|t rest IH]; intros pre fuel chars cw pbo pcw
    Hv Hfuel Hrange.
  - cbn in Hrange. destruct fuel as [|fuel]; [cbn in Hfuel; lia|].
    cbn [CompressedSourceCodec.AdvanceCursor_loop].
    destruct (Z.ltb_spec cw chars); [|lia].
    rewrite at_outside; [reflexivity|]. cbn. rewrite app_nil_r. lia.
  - cbn [forallb] in Hv. apply andb_true_iff in Hv as [Ht Hr].
    cbn [TokenStream.advance_of] in Hrange.
    pose proof (token_advance_pos t Ht) as Hpos.
    pose proof (advance_of_nonneg rest Hr) as Hnn.
    destruct fuel as [|fuel]; [cbn in Hfuel; lia|].
    cbn [length] in Hfuel.
    rewrite stream_of_cons.
    rewrite AdvanceCursor_loop_step by (assumption || lia).
    replace (pre ++ token_bytes t ++ stream_of rest)
      with ((pre ++ token_bytes t) ++ stream_of rest)
      by (rewrite <- app_assoc; reflexivity).
    replace (Z.of_nat (length pre) + Z.of_nat (length (token_bytes t)))
      with (Z.of_nat (length (pre ++ token_bytes t)))
      by (rewrite length_app; lia).
    apply IH; [assumption|lia|lia].
Qed.

(** ** The walk [seek] *)

Lemma seek_app (before rest : list token) (byte_offset target : Z) :
  forallb valid_token before = true ->
  0 <= target ->
  seek (before ++ rest) byte_offset (advance_of before + target)
  = seek rest (byte_offset + stream_size before) target.
Proof.
  intros Hv Ht. revert byte_offset.
  induction before as [|t before IH]; intros byte_offset.
  - cbn. f_equal; lia.
  - cbn [forallb] in Hv. apply andb_true_iff in Hv as [Hvt Hvb].
    pose proof (advance_of_nonneg before Hvb) as Hnn.
    cbn [app TokenStream.seek TokenStream.advance_of].
    destruct (Z.ltb_spec (token_advance t + advance_of before + target)
                (token_advance t)); [lia|].
    replace (token_advance t + advance_of before + target - token_advance t)
      with (advance_of before + target) by lia.
    rewrite IH by assumption. f_equal.
    unfold stream_size. rewrite stream_of_cons, length_app. lia.
Qed.

Lemma seek_split (tokens : list token) :
  forall (byte_offset target : Z),
  forallb valid_token tokens = true ->
  0 <= target <= advance_of tokens ->
  exists before,
    tokens = before ++ snd (seek tokens byte_offset target)
    /\ forallb valid_token before = true
    /\ CompressedSourceCodec.byte_offset (fst (seek tokens byte_offset target))
       = byte_offset + stream_size before
    /\ target
       = advance_of before
         + sub_token_offset (fst (seek tokens byte_offset target))
    /\ 0 <= sub_token_offset (fst (seek tokens byte_offset target))
    /\ match snd (seek tokens byte_offset target) with
       | [] => sub_token_offset (fst (seek tokens byte_offset target)) = 0
       | t :: _ =>
         sub_token_offset (fst (seek tokens byte_offset target))
         < token_advance t
       end.
Proof.
  induction tokens as [|t rest IH]; intros byte_offset target Hv Hrange.
  - cbn in *. exists []. cbn. repeat split; lia.
  - cbn [forallb] in Hv. apply andb_true_iff in Hv as [Hvt Hvr].
    cbn [TokenStream.advance_of] in Hrange.
    cbn [TokenStream.seek].
    destruct (Z.ltb_spec target (token_advance t)) as [Hlt|Hge].
    + exists []. cbn. repeat split; lia.
    + destruct (IH (byte_offset + Z.of_nat (length (token_bytes t)))
                  (target - token_advance t) Hvr) as
        [before [Heq [Hvb [Hbo [Htarget [Hsub Hinv]]]]]]; [lia|].
      exists (t :: before). repeat split.
      * cbn [app]. f_equal. exact Heq.
      * cbn [forallb]. rewrite Hvt, Hvb. reflexivity.
      * rewrite Hbo. unfold stream_size.
        rewrite stream_of_cons, length_app. lia.
      * cbn [TokenStream.advance_of]. lia.
      * exact Hsub.
      * exact Hinv.
Qed.

Lemma stream_size_zero (tokens : list token) :
  stream_size tokens = 0 -> tokens = [].
Proof.
  destruct tokens as [|t rest]; [reflexivity|].
  unfold stream_size. rewrite stream_of_cons, length_app.
  pose proof (token_bytes_length t). lia.
Qed.

(** ** Well-formed streams *)

(** In a well-formed stream the characters [AdvanceCursor] counts are
    [char_length] in all. *)
Lemma well_formed_advance (data : list Z) (char_length : Z)
    (tokens : list token) :
  well_formed data char_length tokens -> advance_of tokens = char_length.
Proof.
  intros [Hv [_ [Hunits [Hadv _]]]].
  assert (Hnn : 0 <= char_length) by lia.
  destruct (Z_le_gt_dec char_length (advance_of tokens)) as [Hle|Hgt].
  - pose proof (AdvanceCursor_seek tokens [] [] 0 char_length Hv) as Hseek.
    cbn [app length Z.of_nat Z.add] in Hseek.
    rewrite app_nil_r, Hadv in Hseek.
    specialize (Hseek (conj Hnn Hle)).
    destruct (seek_split tokens 0 char_length Hv (conj Hnn Hle))
      as [before [Heq [Hvb [Hbo [Htarget [Hsub Hinv]]]]]].
    injection Hseek as Hseek. rewrite <- Hseek in *.
    cbn [byte_offset sub_token_offset] in *.
    assert (Hrest : snd (seek tokens 0 char_length) = []).
    { apply stream_size_zero.
      rewrite Heq in Hbo at 1. rewrite stream_size_app in Hbo. lia. }
    rewrite Hrest, app_nil_r in Heq. subst before. lia.
  - exfalso. rewrite AdvanceCursor_finish in Hadv.
    cbn [byte_offset sub_token_offset] in Hadv.
    rewrite (AdvanceCursor_loop_overrun tokens []) in Hadv.
    + discriminate.
    + exact Hv.
    + cbn [app]. pose proof (stream_of_length tokens). lia.
    + lia.
Qed.

Lemma cursor_at_addresses (tokens : list token) (pos : Z) :
  forallb valid_token tokens = true ->
  0 <= pos <= advance_of tokens ->
  cursor_addresses tokens (cursor_at tokens pos) pos.
Proof.
  intros Hv Hrange.
  destruct (seek_split tokens 0 pos Hv Hrange)
    as [before [Heq [_ [Hbo [Htarget [Hsub _]]]]]].
  exists before, (snd (seek tokens 0 pos)).
  unfold TokenStream.cursor_at. repeat split; try assumption; lia.
Qed.

(** From a cursor that addresses [pos], [AdvanceCursor] by [n] gives the
    cursor of [pos + n]. *)
Lemma AdvanceCursor_addresses (data : list Z) (char_length : Z)
    (tokens : list token) (c : Cursor) (pos n : Z) :
  well_formed data char_length tokens ->
  cursor_addresses tokens c pos ->
  0 <= n -> pos + n <= char_length ->
  AdvanceCursor data c n = Ok (cursor_at tokens (pos + n)).
Proof.
  intros Hwf [before [rest [Heq [Hbo [Hsub Hpos]]]]] Hn Hle.
  pose proof (well_formed_advance _ _ _ Hwf) as Htotal.
  destruct Hwf as [Hv [[index [Hdata _]] _]].
  subst tokens. rewrite forallb_app in Hv.
  apply andb_true_iff in Hv as [Hvb Hvr].
  rewrite advance_of_app in Htotal.
  pose proof (advance_of_nonneg before Hvb) as Hnnb.
  destruct c as [bo sub]. cbn [byte_offset sub_token_offset] in *.
  subst bo. rewrite Hdata, stream_of_app, <- app_assoc.
  unfold stream_size. rewrite AdvanceCursor_seek by (assumption || lia).
  f_equal. unfold TokenStream.cursor_at.
  replace (pos + n) with (advance_of before + (sub + n)) by lia.
  rewrite seek_app by (assumption || lia).
  reflexivity.
Qed.

Lemma ReadIndex_same_entry (data : list Z) (pos length_ : Z) :
  kCharsPerIndexEntry <= pos ->
  ReadIndex data pos length_
  = ReadIndex data (pos / kCharsPerIndexEntry * kCharsPerIndexEntry) length_.
Proof.
  intros Hpos. unfold ReadIndex, kCharsPerIndexEntry in *.
  destruct (Z.ltb_spec pos 1024); [lia|].
  destruct (Z.ltb_spec (pos / 1024 * 1024) 1024); [lia|].
  rewrite Z.div_mul by lia. reflexivity.
Qed.

(** [GetCursor] gives the cursor of the position it is asked for. *)
Lemma GetCursor_cursor_at (data : list Z) (char_length : Z)
    (tokens : list token) (pos : Z) :
  well_formed data char_length tokens ->
  0 <= pos <= char_length ->
  GetCursor data pos char_length = Ok (cursor_at tokens pos).
Proof.
  intros Hwf Hpos.
  pose proof (well_formed_advance _ _ _ Hwf) as Htotal.
  assert (Hv : forallb valid_token tokens = true) by apply Hwf.
  assert (Hstart : forall q, 0 <= q <= char_length ->
            AdvanceCursor data (mkCursor 0 0) q = Ok (cursor_at tokens q)).
  { intros q Hq.
    rewrite (AdvanceCursor_addresses data char_length tokens _ 0 q Hwf);
      [reflexivity| |lia|lia].
    exists [], tokens. cbn. repeat split; lia. }
  unfold CompressedSourceCodec.GetCursor.
  destruct (Z_lt_ge_dec pos kCharsPerIndexEntry) as [Hlt|Hge].
  - unfold ReadIndex. destruct (Z.ltb_spec pos kCharsPerIndexEntry); [|lia].
    cbn [bind]. rewrite Z.mod_small by lia. apply Hstart. lia.
  - rewrite ReadIndex_same_entry by lia.
    pose proof (proj2 (proj2 (proj2 (proj2 Hwf)))) as Hindex.
    assert (Hdiv : 1 <= pos / kCharsPerIndexEntry
                   <= char_length / kCharsPerIndexEntry).
    { unfold kCharsPerIndexEntry in *. split.
      - apply Z.div_le_lower_bound; lia.
      - apply Z.div_le_mono; lia. }
    destruct (Hindex _ Hdiv) as [anchor [Hread Hanchor]].
    rewrite Hread. cbn [bind].
    pose proof (Z.div_mod pos kCharsPerIndexEntry) as Hdm.
    pose proof (Z.mod_pos_bound pos kCharsPerIndexEntry) as Hmod.
    unfold kCharsPerIndexEntry in *.
    assert (Hq : 0 <= pos / 1024 * 1024 <= char_length) by lia.
    rewrite (Hstart _ Hq) in Hanchor. injection Hanchor as Hanchor.
    rewrite <- Hanchor.
    rewrite (AdvanceCursor_addresses data char_length tokens _
               (pos / 1024 * 1024) (pos mod 1024)).
    + f_equal. f_equal. lia.
    + exact Hwf.
    + apply cursor_at_addresses; [exact Hv|lia].
    + lia.
    + lia.
Qed.

(** From a cursor that addresses [pos] in the count of [AdvanceCursor],
    in any stream of tokens. *)
Lemma AdvanceCursor_addresses_tokens (tokens : list token) (post : list Z)
    (c : Cursor) (pos n : Z) :
  forallb valid_token tokens = true ->
  cursor_addresses tokens c pos ->
  0 <= n -> pos + n <= advance_of tokens ->
  AdvanceCursor (stream_of tokens ++ post) c n
  = Ok (cursor_at tokens (pos + n)).
Proof.
  intros Hv [before [rest [Heq [Hbo [Hsub Hpos]]]]] Hn Hle.
  subst tokens. rewrite forallb_app in Hv.
  apply andb_true_iff in Hv as [Hvb Hvr].
  rewrite advance_of_app in Hle.
  pose proof (advance_of_nonneg before Hvb) as Hnnb.
  destruct c as [bo sub]. cbn [byte_offset sub_token_offset] in *.
  subst bo. rewrite stream_of_app, <- app_assoc.
  unfold stream_size. rewrite AdvanceCursor_seek by (assumption || lia).
  f_equal. unfold TokenStream.cursor_at.
  replace (pos + n) with (advance_of before + (sub + n)) by lia.
  rewrite seek_app by (assumption || lia).
  reflexivity.
Qed.

(** X28: [AdvanceCursor] is additive in its own count, on every stream of
    tokens: from a cursor at a token, with any sub-token offset, advancing
    by [a] and then by [b] gives the cursor that advancing by [a + b] gives,
    as long as the characters [AdvanceCursor] counts for the tokens are not
    exceeded.  The stream need not be well formed: an escape of U+FFFF
    counts as two characters in each of the three walks. *)
Theorem AdvanceCursor_twice (tokens : list token) (post : list Z)
    (c : Cursor) (p a b : Z) :
  forallb valid_token tokens = true ->
  cursor_addresses tokens c p ->
  0 <= a -> 0 <= b -> p + a + b <= advance_of tokens ->
  exists c1 c2,
    AdvanceCursor (stream_of tokens ++ post) c a = Ok c1
    /\ AdvanceCursor (stream_of tokens ++ post) c1 b = Ok c2
    /\ AdvanceCursor (stream_of tokens ++ post) c (a + b) = Ok c2
    /\ cursor_addresses tokens c2 (p + a + b).
Proof.
  intros Hv Hc Ha Hb Hle.
  assert (Hp : 0 <= p).
  { destruct Hc as [before [rest [Heq [_ [Hsub Hpos]]]]].
    subst tokens. rewrite forallb_app in Hv.
    apply andb_true_iff in Hv as [Hvb _].
    pose proof (advance_of_nonneg before Hvb). lia. }
  exists (cursor_at tokens (p + a)), (cursor_at tokens (p + a + b)).
  split; [|split; [|split]].
  - apply (AdvanceCursor_addresses_tokens tokens post c p a);
      assumption || lia.
  - apply (AdvanceCursor_addresses_tokens tokens post _ (p + a) b);
      try assumption; try lia.
    apply cursor_at_addresses; [exact Hv|lia].
  - replace (p + a + b) with (p + (a + b)) by lia.
    apply (AdvanceCursor_addresses_tokens tokens post c p (a + b));
      assumption || lia.
  - apply cursor_at_addresses; [exact Hv|lia].
Qed.

(** ** The code units of a well-formed stream *)

Lemma utf16_units_length (codepoint : Z) :
  1 <= Z.of_nat (length (utf16_units codepoint)) <= 2.
Proof. unfold utf16_units. destruct (_ <=? _); cbn; lia. Qed.

Lemma token_units_length (t : token) :
  valid_token t = true ->
  1 <= Z.of_nat (length (token_units t)) <= 9.
Proof.
  destruct t as [code|b|b0 b1 b2]; cbn [valid_token TokenStream.token_units];
    intros Hv.
  - apply table_bytecode in Hv. lia.
  - cbn. lia.
  - pose proof (utf16_units_length (decode_unicode b0 b1 b2)). lia.
Qed.

(** [AdvanceCursor] counts at least the code units [Decode] writes. *)
Lemma token_units_le_advance (t : token) :
  valid_token t = true ->
  Z.of_nat (length (token_units t)) <= token_advance t.
Proof.
  destruct t as [code|b|b0 b1 b2];
    cbn [valid_token TokenStream.token_units TokenStream.token_advance];
    intros Hv.
  - apply table_bytecode in Hv. lia.
  - change kAsciiCode with 0. rewrite table_ascii. cbn. lia.
  - change kUnicodeCode with 1. rewrite table_unicode.
    unfold uc16_length, utf16_units, kMaxNonSurrogateCharCode.
    destruct (Z.ltb_spec (decode_unicode b0 b1 b2) 65535),
             (Z.leb_spec (decode_unicode b0 b1 b2) 65535); cbn; lia.
Qed.

Lemma units_of_app (a b : list token) :
  units_of (a ++ b) = units_of a ++ units_of b.
Proof. unfold TokenStream.units_of. apply flat_map_app. Qed.

Lemma units_of_le_advance (tokens : list token) :
  forallb valid_token tokens = true ->
  Z.of_nat (length (units_of tokens)) <= advance_of tokens.
Proof.
  induction tokens as [|t rest IH]; [cbn; lia|].
  cbn [forallb]. intros H. apply andb_true_iff in H as [Ht Hr].
  change (units_of (t :: rest)) with (token_units t ++ units_of rest).
  rewrite length_app. cbn [TokenStream.advance_of].
  pose proof (token_units_le_advance t Ht). specialize (IH Hr). lia.
Qed.

(** Where the two counts agree on the whole stream, they agree on every
    part of it. *)
Lemma units_of_advance_prefix (before rest : list token) :
  forallb valid_token (before ++ rest) = true ->
  Z.of_nat (length (units_of (before ++ rest))) = advance_of (before ++ rest) ->
  Z.of_nat (length (units_of before)) = advance_of before
  /\ Z.of_nat (length (units_of rest)) = advance_of rest.
Proof.
  intros Hv Heq. rewrite forallb_app in Hv.
  apply andb_true_iff in Hv as [Hvb Hvr].
  rewrite units_of_app, length_app, advance_of_app in Heq.
  pose proof (units_of_le_advance before Hvb).
  pose proof (units_of_le_advance rest Hvr). lia.
Qed.

Lemma units_of_advance_head (t : token) (rest : list token) :
  forallb valid_token (t :: rest) = true ->
  Z.of_nat (length (units_of (t :: rest))) = advance_of (t :: rest) ->
  Z.of_nat (length (token_units t)) = token_advance t.
Proof.
  intros Hv Heq. cbn [forallb] in Hv.
  apply andb_true_iff in Hv as [Hvt Hvr].
  change (units_of (t :: rest)) with (token_units t ++ units_of rest) in Heq.
  rewrite length_app in Heq. cbn [TokenStream.advance_of] in Heq.
  pose proof (token_units_le_advance t Hvt).
  pose proof (units_of_le_advance rest Hvr). lia.
Qed.

(** ** [IsAscii] on a stream of tokens *)

Local Abbreviation IsAscii_loop :=
  (CompressedSourceCodec.IsAscii_loop debug token_lengths).
Local Abbreviation from_unicode_escape :=
  (from_unicode_escape token_chars).
Local Abbreviation range_has_unicode_escape :=
  (range_has_unicode_escape token_chars).

Lemma IsAscii_loop_step (t : token) (pre tail : list Z) (fuel : nat)
    (chars : Z) :
  valid_token t = true ->
  0 < chars ->
  IsAscii_loop (S fuel) (pre ++ token_bytes t ++ tail)
    (Z.of_nat (length pre)) chars
  = if is_unicode_escape t then Ok false
    else IsAscii_loop fuel (pre ++ token_bytes t ++ tail)
           (Z.of_nat (length pre) + Z.of_nat (length (token_bytes t)))
           (chars - Z.of_nat (length (token_units t))).
Proof.
  intros Hv Hchars. cbn [CompressedSourceCodec.IsAscii_loop].
  destruct (Z.ltb_spec 0 chars); [|lia].
  rewrite ASSERT_holds
    by (apply Z.ltb_lt; rewrite !length_app;
        pose proof (token_bytes_length t); lia).
  cbn [bind]. rewrite (at_app_offset pre _ _ 0) by lia.
  destruct t as [code|b|b0 b1 b2]; cbn [token_bytes app is_unicode_escape].
  - pose proof (table_bytecode code Hv) as [_ Hchars'].
    cbn in Hv. apply andb_true_iff in Hv as [Hv _].
    change (at_ (code :: tail) 0) with (Ok code). cbn [bind].
    unfold is_bytecode. rewrite Hv. cbn [negb].
    cbn [TokenStream.token_units length]. rewrite Hchars'. reflexivity.
  - change (at_ (kAsciiCode :: b :: tail) 0) with (Ok kAsciiCode).
    cbn [bind]. change (negb (is_bytecode kAsciiCode)) with true.
    change (is_ascii kAsciiCode) with true. cbn iota.
    rewrite ASSERT_holds
      by (apply Z.ltb_lt; rewrite !length_app; cbn [length]; lia).
    cbn [bind TokenStream.token_units length].
    change kAsciiCode with 0. rewrite table_ascii. f_equal. lia.
  - change (at_ (kUnicodeCode :: b0 :: b1 :: b2 :: tail) 0)
      with (Ok kUnicodeCode).
    cbn [bind]. change (negb (is_bytecode kUnicodeCode)) with true.
    change (is_ascii kUnicodeCode) with false.
    change (is_unicode kUnicodeCode) with true. cbn iota.
    rewrite ASSERT_true. reflexivity.
Qed.

Lemma map_constant {A B : Type} (b : B) (l : list A) :
  map (fun _ => b) l = repeat b (length l).
Proof. induction l as [|x l IH]; cbn; [|rewrite IH]; reflexivity. Qed.

Lemma existsb_repeat (b : bool) (n : nat) :
  existsb (fun u => u) (repeat b (S n)) = b.
Proof.
  induction n as [|n IH]; cbn in *; [apply orb_false_r|].
  rewrite IH. destruct b; reflexivity.
Qed.

Lemma skipn_run {A : Type} (x : A) (k n : nat) :
  skipn k (repeat x n) = repeat x (n - k).
Proof.
  revert k. induction n as [|n IH]; intros [|k]; cbn; try reflexivity.
  apply IH.
Qed.

Lemma firstn_run {A : Type} (x : A) (k n : nat) :
  firstn k (repeat x n) = repeat x (Nat.min k n).
Proof.
  revert k. induction n as [|n IH]; intros [|k]; cbn; try reflexivity.
  rewrite IH. reflexivity.
Qed.

(** A range that starts inside a run of [n] equal flags. *)
Lemma existsb_range_run (b : bool) (n sub len : nat) (flags : list bool) :
  (sub < n)%nat -> (0 < len)%nat ->
  existsb (fun u => u) (firstn len (skipn sub (repeat b n ++ flags)))
  = b || existsb (fun u => u) (firstn (len - (n - sub)) flags).
Proof.
  intros Hsub Hlen.
  rewrite skipn_app, repeat_length, skipn_run.
  replace (sub - n)%nat with 0%nat by lia. cbn [skipn].
  rewrite firstn_app, repeat_length, existsb_app.
  rewrite firstn_run. f_equal.
  destruct (Nat.min len (n - sub)) as [|k] eqn:Hk; [lia|].
  apply existsb_repeat.
Qed.

Lemma from_unicode_escape_length (tokens : list token) :
  length (from_unicode_escape tokens) = length (units_of tokens).
Proof.
  induction tokens as [|t rest IH]; [reflexivity|].
  unfold TokenStream.from_unicode_escape, TokenStream.units_of in *.
  cbn [flat_map]. rewrite !length_app, length_map, IH. reflexivity.
Qed.

Lemma from_unicode_escape_app (a b : list token) :
  from_unicode_escape (a ++ b)
  = from_unicode_escape a ++ from_unicode_escape b.
Proof. unfold TokenStream.from_unicode_escape. apply flat_map_app. Qed.

(** The walk of [IsAscii] over a range that is not empty: [sub] is the
    offset into the first token, [len] the length of the range. *)
Lemma IsAscii_loop_tokens (tokens : list token) :
  forall (pre post : list Z) (fuel : nat) (sub len : Z),
  forallb valid_token tokens = true ->
  (length tokens < fuel)%nat ->
  0 <= sub -> 0 < len ->
  sub + len <= Z.of_nat (length (units_of tokens)) ->
  match tokens with
  | [] => True
  | t :: _ => sub < Z.of_nat (length (token_units t))
  end ->
  IsAscii_loop fuel (pre ++ stream_of tokens ++ post)
    (Z.of_nat (length pre)) (len + sub)
  = Ok (negb (range_has_unicode_escape tokens sub len)).
Proof.
  induction tokens as [|t rest IH];
    intros pre post fuel sub len Hv Hfuel Hsub Hlen Hrange Hinv.
  - cbn in Hrange. lia.
  - cbn [forallb] in Hv. apply andb_true_iff in Hv as [Hvt Hvr].
    change (units_of (t :: rest)) with (token_units t ++ units_of rest)
      in Hrange.
    rewrite length_app in Hrange.
    destruct fuel as [|fuel]; [cbn in Hfuel; lia|].
    cbn [length] in Hfuel.
    rewrite stream_of_cons, <- app_assoc.
    rewrite IsAscii_loop_step by (assumption || lia).
    unfold TokenStream.range_has_unicode_escape.
    change (from_unicode_escape (t :: rest))
      with (map (fun _ => is_unicode_escape t) (token_units t)
            ++ from_unicode_escape rest).
    rewrite map_constant, existsb_range_run by lia.
    destruct (is_unicode_escape t); [reflexivity|]. cbn [orb].
    replace (pre ++ token_bytes t ++ stream_of rest ++ post)
      with ((pre ++ token_bytes t) ++ stream_of rest ++ post)
      by (rewrite <- app_assoc; reflexivity).
    replace (Z.of_nat (length pre) + Z.of_nat (length (token_bytes t)))
      with (Z.of_nat (length (pre ++ token_bytes t)))
      by (rewrite length_app; lia).
    destruct (Z_lt_ge_dec 0 (len + sub - Z.of_nat (length (token_units t))))
      as [Hmore|Hdone].
    + replace (len + sub - Z.of_nat (length (token_units t)))
        with (len + sub - Z.of_nat (length (token_units t)) + 0) by lia.
      rewrite IH; try assumption; try lia.
      * unfold TokenStream.range_has_unicode_escape.
        cbn [Z.to_nat skipn]. do 4 f_equal. lia.
      * destruct rest as [|t' rest']; [exact I|].
        cbn [forallb] in Hvr. apply andb_true_iff in Hvr as [Hvt' _].
        pose proof (token_units_length t' Hvt'). lia.
    + destruct fuel as [|fuel]; [lia|].
      cbn [CompressedSourceCodec.IsAscii_loop].
      destruct (Z.ltb_spec 0 (len + sub - Z.of_nat (length (token_units t))));
        [lia|].
      replace (Z.to_nat len - (length (token_units t) - Z.to_nat sub))%nat
        with 0%nat by lia.
      reflexivity.
Qed.

(** [IsAscii] of an empty range. *)
Lemma IsAscii_empty_range (tokens : list token) (pre post : list Z)
    (sub : Z) :
  forallb valid_token tokens = true ->
  0 <= sub ->
  match tokens with
  | [] => sub = 0
  | t :: _ => sub < Z.of_nat (length (token_units t))
  end ->
  IsAscii (pre ++ stream_of tokens ++ post)
    (mkCursor (Z.of_nat (length pre)) sub) 0
  = Ok (negb (inside_unicode_escape (pre ++ stream_of tokens ++ post)
                (mkCursor (Z.of_nat (length pre)) sub))).
Proof.
  intros Hv Hsub Hinv.
  unfold CompressedSourceCodec.IsAscii, inside_unicode_escape.
  cbn [byte_offset sub_token_offset Z.add].
  destruct (Z.eqb_spec sub 0) as [->|Hne].
  - cbn [CompressedSourceCodec.IsAscii_loop Z.ltb Z.compare negb andb].
    reflexivity.
  - destruct tokens as [|t rest]; [lia|].
    cbn [forallb] in Hv. apply andb_true_iff in Hv as [Hvt _].
    rewrite stream_of_cons, <- app_assoc.
    pose proof (token_bytes_length t) as Hbytes.
    assert (Hfuel : (0 < length (pre ++ token_bytes t
                                   ++ stream_of rest ++ post))%nat)
      by (rewrite !length_app; lia).
    rewrite IsAscii_loop_step by (assumption || lia).
    destruct (length (pre ++ token_bytes t ++ stream_of rest ++ post))
      as [|fuel]; [lia|].
    rewrite (at_app_offset pre _ _ 0) by lia.
    cbn [negb andb].
    destruct t as [code|b|b0 b1 b2];
      cbn [token_bytes app is_unicode_escape TokenStream.token_units] in *.
    + change (at_ (code :: stream_of rest ++ post) 0) with (Ok code).
      apply andb_true_iff in Hvt as [Hcode _].
      unfold kFirstBytecode in Hcode. apply Z.leb_le in Hcode.
      unfold is_unicode, kUnicodeCode.
      destruct (Z.eqb_spec code 1); [lia|].
      cbn [CompressedSourceCodec.IsAscii_loop].
      destruct (Z.ltb_spec 0 (sub - Z.of_nat (length (token_chars code))));
        [lia|reflexivity].
    + cbn in Hinv. lia.
    + reflexivity.
Qed.

(** A cursor inside the token [t]. *)
Lemma inside_unicode_escape_token (t : token) (pre tail : list Z)
    (sub : Z) :
  valid_token t = true ->
  inside_unicode_escape (pre ++ token_bytes t ++ tail)
    (mkCursor (Z.of_nat (length pre)) sub)
  = negb (sub =? 0) && is_unicode_escape t.
Proof.
  intros Hv. unfold inside_unicode_escape.
  cbn [byte_offset sub_token_offset].
  rewrite (at_app_offset pre _ _ 0) by lia. f_equal.
  destruct t as [code|b|b0 b1 b2]; cbn [token_bytes app is_unicode_escape];
    try reflexivity.
  change (at_ (code :: tail) 0) with (Ok code).
  cbn in Hv. apply andb_true_iff in Hv as [Hcode _].
  unfold kFirstBytecode in Hcode. apply Z.leb_le in Hcode.
  unfold is_unicode, kUnicodeCode. apply Z.eqb_neq. lia.
Qed.

(** [IsAscii] from a cursor at the start of [tokens], or inside the first of
    them. *)
Lemma IsAscii_tokens (tokens : list token) (pre post : list Z)
    (sub len : Z) :
  forallb valid_token tokens = true ->
  0 <= sub -> 0 <= len ->
  sub + len <= Z.of_nat (length (units_of tokens)) ->
  match tokens with
  | [] => sub = 0
  | t :: _ => sub < Z.of_nat (length (token_units t))
  end ->
  IsAscii (pre ++ stream_of tokens ++ post)
    (mkCursor (Z.of_nat (length pre)) sub) len
  = Ok (if len =? 0
        then negb (inside_unicode_escape (pre ++ stream_of tokens ++ post)
                     (mkCursor (Z.of_nat (length pre)) sub))
        else negb (range_has_unicode_escape tokens sub len)).
Proof.
  intros Hv Hsub Hlen Hrange Hinv.
  destruct (Z.eqb_spec len 0) as [->|Hne].
  - apply IsAscii_empty_range; assumption.
  - unfold CompressedSourceCodec.IsAscii.
    cbn [byte_offset sub_token_offset].
    apply IsAscii_loop_tokens; try assumption; try lia.
    + rewrite !length_app. pose proof (stream_of_length tokens). lia.
    + destruct tokens as [|t rest]; [exact I|exact Hinv].
Qed.

(** The tokens and the offset behind the cursor of a position. *)
Lemma cursor_at_tokens (data : list Z) (char_length : Z)
    (tokens : list token) (pos : Z) :
  well_formed data char_length tokens ->
  0 <= pos <= char_length ->
  exists before rest index sub,
    tokens = before ++ rest
    /\ data = stream_of before ++ stream_of rest ++ index
    /\ cursor_at tokens pos
       = mkCursor (Z.of_nat (length (stream_of before))) sub
    /\ forallb valid_token rest = true
    /\ Z.of_nat (length (units_of before)) + sub = pos
    /\ Z.of_nat (length (units_of before))
       + Z.of_nat (length (units_of rest)) = char_length
    /\ 0 <= sub
    /\ match rest with
       | [] => sub = 0
       | t :: _ => sub < Z.of_nat (length (token_units t))
       end.
Proof.
  intros Hwf Hpos.
  pose proof (well_formed_advance _ _ _ Hwf) as Htotal.
  destruct Hwf as [Hv [[index [Hdata _]] [Hunits _]]].
  destruct (seek_split tokens 0 pos Hv) as
    [before [Heq [Hvb [Hbo [Htarget [Hsub Hinv]]]]]]; [lia|].
  unfold TokenStream.cursor_at.
  destruct (seek tokens 0 pos) as [[bo sub] rest].
  cbn [fst snd byte_offset sub_token_offset] in *.
  subst tokens.
  destruct (units_of_advance_prefix before rest Hv) as [Hub Hur]; [lia|].
  rewrite forallb_app in Hv. apply andb_true_iff in Hv as [_ Hvr].
  rewrite advance_of_app in Htotal.
  exists before, rest, index, sub. repeat split; try assumption; try lia.
  - rewrite Hdata, stream_of_app, <- app_assoc. reflexivity.
  - f_equal. unfold stream_size in Hbo. lia.
  - destruct rest as [|t rest']; [exact Hinv|].
    rewrite (units_of_advance_head t rest' Hvr Hur). exact Hinv.
Qed.

Lemma range_has_unicode_escape_app (before rest : list token)
    (sub len : Z) :
  0 <= sub ->
  range_has_unicode_escape (before ++ rest)
    (Z.of_nat (length (units_of before)) + sub) len
  = range_has_unicode_escape rest sub len.
Proof.
  intros Hsub. unfold TokenStream.range_has_unicode_escape.
  rewrite from_unicode_escape_app, skipn_app.
  rewrite (skipn_all2 (from_unicode_escape before))
    by (rewrite from_unicode_escape_length; lia).
  rewrite from_unicode_escape_length. cbn [app].
  do 3 f_equal. lia.
Qed.

(** ** Streams without the escape of U+FFFF *)

Local Abbreviation plain_stream := (plain_stream token_chars).

(** For every token but the escape of U+FFFF, [AdvanceCursor] counts the
    code units that [Decode] writes. *)
Lemma not_U_FFFF_advance (t : token) :
  valid_token t = true -> not_U_FFFF t = true ->
  token_advance t = Z.of_nat (length (token_units t)).
Proof.
  destruct t as [code|b|b0 b1 b2];
    cbn [valid_token not_U_FFFF token_advance TokenStream.token_advance
         token_units TokenStream.token_units]; intros Hv Hplain.
  - apply andb_true_iff in Hv as [Hlow Hhigh].
    apply Z.leb_le in Hlow, Hhigh.
    destruct table_ok as [_ [_ [_ Hall]]].
    destruct (Hall code (conj Hlow Hhigh)) as [_ Hlength]. lia.
  - change kAsciiCode with 0. rewrite table_ascii. reflexivity.
  - change kUnicodeCode with 1. rewrite table_unicode.
    apply negb_true_iff, Z.eqb_neq in Hplain.
    unfold uc16_length, utf16_units.
    destruct (Z.ltb_spec (decode_unicode b0 b1 b2)
                kMaxNonSurrogateCharCode),
             (Z.leb_spec (decode_unicode b0 b1 b2)
                kMaxNonSurrogateCharCode); cbn [length]; lia.
Qed.

Lemma plain_advance_of (tokens : list token) :
  forallb valid_token tokens = true ->
  forallb not_U_FFFF tokens = true ->
  advance_of tokens = Z.of_nat (length (units_of tokens)).
Proof.
  induction tokens as [|t tokens IH]; [reflexivity|].
  cbn [forallb]. intros Hv Hplain.
  apply andb_true_iff in Hv as [Hvt Hv].
  apply andb_true_iff in Hplain as [Hpt Hplain].
  change (units_of (t :: tokens)) with (token_units t ++ units_of tokens).
  rewrite length_app. cbn [advance_of TokenStream.advance_of].
  rewrite (not_U_FFFF_advance t Hvt Hpt), (IH Hv Hplain). lia.
Qed.

(** The cursor of the position at which a token starts. *)
Lemma cursor_at_token_start (before rest : list token) :
  forallb valid_token (before ++ rest) = true ->
  cursor_at (before ++ rest) (advance_of before)
  = mkCursor (stream_size before) 0.
Proof.
  intros Hv. rewrite forallb_app in Hv.
  apply andb_true_iff in Hv as [Hvb Hvr].
  unfold TokenStream.cursor_at.
  rewrite <- (Z.add_0_r (advance_of before)).
  rewrite seek_app by (assumption || lia).
  destruct rest as [|t rest]; [reflexivity|].
  cbn [forallb] in Hvr. apply andb_true_iff in Hvr as [Hvt _].
  pose proof (token_advance_pos t Hvt).
  cbn [seek TokenStream.seek].
  destruct (Z.ltb_spec 0 (token_advance t)); [reflexivity|lia].
Qed.

(** Such a stream is well formed: the walk of [AdvanceCursor] from the
    start ends where the tokens end, and at every index entry. *)
Lemma plain_stream_well_formed (data : list Z) (char_length : Z)
    (tokens : list token) :
  plain_stream data char_length tokens ->
  well_formed data char_length tokens.
Proof.
  intros [Hv [Hplain [[index [Hdata Hindex]] [Hunits Hentries]]]].
  pose proof (plain_advance_of tokens Hv Hplain) as Htotal.
  assert (Hstart : cursor_addresses tokens (mkCursor 0 0) 0).
  { exists [], tokens. cbn. repeat split; lia. }
  split; [exact Hv|]. split; [exists index; split; assumption|].
  split; [exact Hunits|]. split.
  - rewrite <- (app_nil_r (stream_of tokens)).
    rewrite (AdvanceCursor_addresses_tokens tokens [] _ 0 char_length)
      by (assumption || lia).
    f_equal. cbn [Z.add].
    rewrite <- Hunits, <- Htotal.
    rewrite <- (app_nil_r tokens) at 1.
    rewrite cursor_at_token_start by (rewrite app_nil_r; exact Hv).
    reflexivity.
  - intros i Hi.
    destruct (Hentries i Hi)
      as [anchor [before [rest [Hread [Heq [Hbefore Hanchor]]]]]].
    exists anchor. split; [exact Hread|].
    assert (Hvb : forallb valid_token before = true
                  /\ forallb not_U_FFFF before = true).
    { subst tokens. rewrite !forallb_app in *.
      apply andb_true_iff in Hv, Hplain. split; [apply Hv|apply Hplain]. }
    pose proof (plain_advance_of before (proj1 Hvb) (proj2 Hvb)) as Hadv.
    assert (Hle : i * kCharsPerIndexEntry <= char_length).
    { unfold kCharsPerIndexEntry in *. lia. }
    rewrite Hdata.
    rewrite (AdvanceCursor_addresses_tokens tokens index _ 0
               (i * kCharsPerIndexEntry))
      by (assumption || unfold kCharsPerIndexEntry in *; lia).
    f_equal. cbn [Z.add]. rewrite <- Hbefore, <- Hadv, Hanchor.
    subst tokens. apply cursor_at_token_start. exact Hv.
Qed.

(** [IsAscii] of a range of a well-formed stream, from the cursor of the
    range's start. *)
Lemma IsAscii_cursor_at (data : list Z) (char_length : Z)
    (tokens : list token) (start length_ : Z) :
  well_formed data char_length tokens ->
  0 <= start -> 0 <= length_ -> start + length_ <= char_length ->
  IsAscii data (cursor_at tokens start) length_
  = Ok (if length_ =? 0
        then negb (inside_unicode_escape data (cursor_at tokens start))
        else negb (range_has_unicode_escape tokens start length_)).
Proof.
  intros Hwf Hstart Hlength Hle.
  destruct (cursor_at_tokens data char_length tokens start Hwf)
    as [before [rest [index [sub
         [Heq [Hdata [Hc [Hvr [Hpos [Htotal [Hsub Hinv]]]]]]]]]]]; [lia|].
  rewrite Hc, Hdata.
  rewrite IsAscii_tokens by (assumption || lia).
  subst tokens. rewrite <- Hpos.
  rewrite range_has_unicode_escape_app by lia. reflexivity.
Qed.

(** C7, amended: on a stream of valid tokens without the escape of the
    code point [0xFFFF], followed by the index of the tokens at the
    positions [i * 1024] ([plain_stream]), for a range within the stream
    that is not empty, [IsAscii] is true exactly when no Unicode escape
    contributes a code unit to the range; for an empty range it is true
    exactly when the cursor of the range's start is not inside a Unicode
    escape. *)
Theorem IsAscii_range (data : list Z) (char_length : Z)
    (tokens : list token) (start length_ : Z) :
  plain_stream data char_length tokens ->
  0 <= start -> 0 <= length_ -> start + length_ <= char_length ->
  exists c r,
    GetCursor data start char_length = Ok c
    /\ IsAscii data c length_ = Ok r
    /\ (0 < length_ ->
        (r = true
         <-> range_has_unicode_escape tokens start length_ = false))
    /\ (length_ = 0 ->
        (r = true <-> inside_unicode_escape data c = false)).
Proof.
  intros Hplain Hstart Hlength Hle.
  pose proof (plain_stream_well_formed _ _ _ Hplain) as Hwf.
  exists (cursor_at tokens start). eexists.
  split; [apply GetCursor_cursor_at; [exact Hwf|lia]|].
  split; [apply (IsAscii_cursor_at data char_length); assumption|].
  split; intros Hl.
  - destruct (Z.eqb_spec length_ 0); [lia|]. apply negb_true_iff.
  - destruct (Z.eqb_spec length_ 0); [|lia]. apply negb_true_iff.
Qed.

(** ** [Decode] on a stream of tokens

    The lemmas hold for a [uc16] destination, and for a [char] destination
    ([narrow]) as long as no Unicode escape is decoded. *)

Local Abbreviation Decode_loop :=
  (CompressedSourceCodec.Decode_loop debug token_lengths token_chars).

(** One iteration of the whole-token loop: the token's code units, as many
    as there is room for, and the room left for the rest. *)
Lemma Decode_loop_step (narrow : bool) (t : token) (pre tail : list Z)
    (fuel : nat) (room : Z) :
  valid_token t = true ->
  narrow && is_unicode_escape t = false ->
  0 < room ->
  exists room',
    (room' = room - Z.of_nat (length (token_units t))
     \/ (room' <= 0 /\ room - Z.of_nat (length (token_units t)) <= 0))
    /\ Decode_loop (S fuel) narrow (pre ++ token_bytes t ++ tail)
         (Z.of_nat (length pre)) room
       = (rest <- Decode_loop fuel narrow (pre ++ token_bytes t ++ tail)
                    (Z.of_nat (length pre)
                     + Z.of_nat (length (token_bytes t))) room' ;;
          Ok (firstn (Z.to_nat room) (token_units t) ++ rest)).
Proof.
  intros Hv Hnarrow Hroom. cbn [CompressedSourceCodec.Decode_loop].
  destruct (Z.ltb_spec 0 room); [|lia].
  rewrite ASSERT_holds
    by (apply Z.ltb_lt; rewrite !length_app;
        pose proof (token_bytes_length t); lia).
  cbn [bind]. rewrite (at_app_offset pre _ _ 0) by lia.
  destruct t as [code|b|b0 b1 b2]; cbn [token_bytes app].
  - pose proof (table_bytecode code Hv) as [Hlen Hchars].
    cbn in Hv. apply andb_true_iff in Hv as [Hv _].
    change (at_ (code :: tail) 0) with (Ok code). cbn [bind].
    unfold is_bytecode. rewrite Hv.
    unfold decode_bytecode, write_chars. cbn [TokenStream.token_units length].
    destruct (Z.leb_spec (token_lengths code) room) as [Hfit|Hcut].
    + exists (room - Z.of_nat (length (token_chars code))).
      split; [left; reflexivity|].
      rewrite !firstn_all2 by lia. reflexivity.
    + exists 0. split; [right; lia|].
      rewrite firstn_length_le by lia.
      replace (room - Z.of_nat (Z.to_nat room)) with 0 by lia.
      reflexivity.
  - change (at_ (kAsciiCode :: b :: tail) 0) with (Ok kAsciiCode).
    cbn [bind]. change (is_bytecode kAsciiCode) with false.
    change (is_ascii kAsciiCode) with true. cbn iota.
    rewrite ASSERT_holds
      by (apply Z.ltb_lt; rewrite !length_app; cbn [length]; lia).
    cbn [bind]. rewrite (at_app_offset pre _ _ 1) by lia.
    change (at_ (kAsciiCode :: b :: tail) 1) with (Ok b). cbn [bind].
    exists (room - 1). split; [left; cbn; lia|].
    cbn [TokenStream.token_units length].
    replace (Z.of_nat (length pre) + 1 + 1)
      with (Z.of_nat (length pre) + Z.of_nat 2) by lia.
    destruct (Z.to_nat room) as [|n] eqn:Hn; [lia|].
    cbn [firstn app]. rewrite firstn_nil. reflexivity.
  - destruct narrow; [discriminate Hnarrow|].
    change (at_ (kUnicodeCode :: b0 :: b1 :: b2 :: tail) 0)
      with (Ok kUnicodeCode).
    cbn [bind]. change (is_bytecode kUnicodeCode) with false.
    change (is_ascii kUnicodeCode) with false.
    change (is_unicode kUnicodeCode) with true. cbn iota.
    rewrite ASSERT_true. cbn [bind].
    rewrite ASSERT_holds
      by (apply Z.ltb_lt; rewrite !length_app; cbn [length]; lia).
    cbn [bind].
    rewrite (at_app_offset pre _ _ 1) by lia.
    rewrite (at_app_offset pre _ _ 2) by lia.
    rewrite (at_app_offset pre _ _ 3) by lia.
    change (at_ (kUnicodeCode :: b0 :: b1 :: b2 :: tail) 1) with (Ok b0).
    change (at_ (kUnicodeCode :: b0 :: b1 :: b2 :: tail) 2) with (Ok b1).
    change (at_ (kUnicodeCode :: b0 :: b1 :: b2 :: tail) 3) with (Ok b2).
    cbn [bind length TokenStream.token_units].
    cbn in Hv. apply andb_true_iff in Hv as [_ Hcp].
    unfold write_as_utf16, utf16_units.
    replace (Z.of_nat (length pre) + 1 + 3)
      with (Z.of_nat (length pre) + Z.of_nat 4) by lia.
    destruct (decode_unicode b0 b1 b2 <=? kMaxNonSurrogateCharCode).
    + cbn [bind]. exists (room - 1). split; [left; cbn; lia|].
      destruct (Z.leb_spec 1 room); [|lia].
      destruct (Z.to_nat room) as [|n] eqn:Hn; [lia|].
      cbn [firstn app]. rewrite firstn_nil. reflexivity.
    + rewrite ASSERT_holds by exact Hcp. cbn [bind].
      exists (room - 2). split; [left; cbn; lia|].
      destruct (Z.leb_spec 1 room); [|lia].
      destruct (Z.leb_spec 2 room).
      * destruct (Z.to_nat room) as [|[|n]] eqn:Hn; [lia|lia|].
        cbn [firstn app]. rewrite firstn_nil. reflexivity.
      * replace (Z.to_nat room) with 1%nat by lia. reflexivity.
Qed.

(** A range from inside the first token, taken apart. *)
Lemma range_has_unicode_escape_cons (t : token) (rest : list token)
    (sub len : Z) :
  0 <= sub < Z.of_nat (length (token_units t)) ->
  0 < len ->
  range_has_unicode_escape (t :: rest) sub len
  = is_unicode_escape t
    || range_has_unicode_escape rest 0
         (len - (Z.of_nat (length (token_units t)) - sub)).
Proof.
  intros Hsub Hlen. unfold TokenStream.range_has_unicode_escape.
  change (from_unicode_escape (t :: rest))
    with (map (fun _ => is_unicode_escape t) (token_units t)
          ++ from_unicode_escape rest).
  rewrite map_constant, existsb_range_run by lia.
  cbn [Z.to_nat skipn]. do 3 f_equal. lia.
Qed.

Lemma range_has_unicode_escape_empty (tokens : list token)
    (sub len : Z) :
  len <= 0 -> range_has_unicode_escape tokens sub len = false.
Proof.
  intros Hlen. unfold TokenStream.range_has_unicode_escape.
  replace (Z.to_nat len) with 0%nat by lia. reflexivity.
Qed.

Lemma Decode_loop_tokens (narrow : bool) (tokens : list token) :
  forall (pre post : list Z) (fuel : nat) (room : Z),
  forallb valid_token tokens = true ->
  (length tokens < fuel)%nat ->
  room <= Z.of_nat (length (units_of tokens)) ->
  (narrow = true -> range_has_unicode_escape tokens 0 room = false) ->
  Decode_loop fuel narrow (pre ++ stream_of tokens ++ post)
    (Z.of_nat (length pre)) room
  = Ok (firstn (Z.to_nat room) (units_of tokens)).
Proof.
  induction tokens as [|t rest IH];
    intros pre post fuel room Hv Hfuel Hroom Hascii.
  - cbn in Hroom. destruct fuel as [|fuel]; [cbn in Hfuel; lia|].
    cbn [CompressedSourceCodec.Decode_loop].
    destruct (Z.ltb_spec 0 room); [lia|].
    rewrite firstn_nil. reflexivity.
  - cbn [forallb] in Hv. apply andb_true_iff in Hv as [Hvt Hvr].
    pose proof (token_units_length t Hvt) as Hunits.
    change (units_of (t :: rest)) with (token_units t ++ units_of rest)
      in *.
    rewrite length_app in Hroom.
    destruct fuel as [|fuel]; [cbn in Hfuel; lia|].
    cbn [length] in Hfuel.
    destruct (Z_lt_ge_dec 0 room) as [Hpos|Hnone].
    + assert (Hsplit : narrow = true ->
                is_unicode_escape t = false
                /\ range_has_unicode_escape rest 0
                     (room - Z.of_nat (length (token_units t))) = false).
      { intros Hn. specialize (Hascii Hn).
        rewrite range_has_unicode_escape_cons in Hascii by lia.
        apply orb_false_iff in Hascii as [Ht Hr]. split; [exact Ht|].
        rewrite <- Hr. f_equal. lia. }
      assert (Hnt : narrow && is_unicode_escape t = false).
      { destruct narrow; [|reflexivity]. apply Hsplit. reflexivity. }
      rewrite stream_of_cons, <- app_assoc.
      destruct (Decode_loop_step narrow t pre (stream_of rest ++ post) fuel
                  room Hvt Hnt Hpos) as [room' [Hroom' Hstep]].
      rewrite Hstep.
      replace (pre ++ token_bytes t ++ stream_of rest ++ post)
        with ((pre ++ token_bytes t) ++ stream_of rest ++ post)
        by (rewrite <- app_assoc; reflexivity).
      replace (Z.of_nat (length pre) + Z.of_nat (length (token_bytes t)))
        with (Z.of_nat (length (pre ++ token_bytes t)))
        by (rewrite length_app; lia).
      rewrite IH; try assumption; try lia.
      * cbn [bind]. rewrite firstn_app. do 2 f_equal. f_equal. lia.
      * intros Hn. destruct Hroom' as [->|[Hle _]].
        -- apply Hsplit. exact Hn.
        -- apply range_has_unicode_escape_empty. exact Hle.
    + cbn [CompressedSourceCodec.Decode_loop].
      destruct (Z.ltb_spec 0 room); [lia|].
      replace (Z.to_nat room) with 0%nat by lia. reflexivity.
Qed.

Lemma copy_first_token_range (first_token : list Z) (n : nat) (from : Z) :
  0 <= from ->
  from + Z.of_nat n <= Z.of_nat (length first_token) ->
  copy_first_token n first_token from
  = Ok (firstn n (skipn (Z.to_nat from) first_token)).
Proof.
  revert from. induction n as [|n IH]; intros from Hfrom Hle.
  - reflexivity.
  - cbn [copy_first_token].
    destruct (nth_error first_token (Z.to_nat from)) as [x|] eqn:Hx.
    2:{ apply nth_error_None in Hx. lia. }
    unfold at_ at 1. destruct (Z.ltb_spec from 0); [lia|].
    rewrite Hx. cbn [bind].
    rewrite IH by lia. cbn [bind].
    apply nth_error_split in Hx as [l1 [l2 [Heq Hlen]]].
    rewrite Heq.
    replace (Z.to_nat (from + 1)) with (S (length l1)) by lia.
    rewrite <- Hlen.
    rewrite (skipn_app (length l1)), (skipn_app (S (length l1))).
    rewrite skipn_all, (skipn_all2 l1) by lia.
    replace (length l1 - length l1)%nat with 0%nat by lia.
    replace (S (length l1) - length l1)%nat with 1%nat by lia.
    reflexivity.
Qed.

Local Abbreviation Decode_first_token :=
  (CompressedSourceCodec.Decode_first_token debug token_lengths token_chars).

Lemma Decode_first_token_copy (units : list Z) (sub m data_ptr : Z) :
  0 < sub < Z.of_nat (length units) ->
  Z.of_nat (length units) <= 9 ->
  0 <= m ->
  (ASSERT debug (sub <? Z.of_nat (length units)) ;;;
   copied <- copy_first_token
               (Z.to_nat
                  (if m <? (Z.of_nat (length units) - sub) mod 2 ^ 32
                   then m
                   else (Z.of_nat (length units) - sub) mod 2 ^ 32))
               units sub ;;
   Ok (data_ptr, copied))
  = Ok (data_ptr,
        firstn (Z.to_nat (Z.min m (Z.of_nat (length units) - sub)))
          (skipn (Z.to_nat sub) units)).
Proof.
  intros Hsub Hlen Hm.
  rewrite ASSERT_holds by (apply Z.ltb_lt; lia). cbn [bind].
  rewrite Z.mod_small by lia.
  replace (if m <? Z.of_nat (length units) - sub
           then m else Z.of_nat (length units) - sub)
    with (Z.min m (Z.of_nat (length units) - sub))
    by (destruct (Z.ltb_spec m (Z.of_nat (length units) - sub)); lia).
  rewrite copy_first_token_range by lia. reflexivity.
Qed.

(** The partial first token, for a cursor inside the token [t]. *)
Lemma Decode_first_token_tokens (narrow : bool) (t : token)
    (pre tail : list Z) (sub m : Z) :
  valid_token t = true ->
  narrow && is_unicode_escape t = false ->
  0 < sub < Z.of_nat (length (token_units t)) ->
  0 <= m ->
  Decode_first_token narrow (pre ++ token_bytes t ++ tail)
    (mkCursor (Z.of_nat (length pre)) sub) m
  = Ok (Z.of_nat (length pre) + Z.of_nat (length (token_bytes t)),
        firstn (Z.to_nat (Z.min m (Z.of_nat (length (token_units t)) - sub)))
          (skipn (Z.to_nat sub) (token_units t))).
Proof.
  intros Hv Hnarrow Hsub Hm.
  pose proof (token_units_length t Hv) as Hlen.
  unfold CompressedSourceCodec.Decode_first_token.
  cbn [byte_offset sub_token_offset].
  rewrite ASSERT_holds
    by (apply Z.eqb_eq; apply table_ok).
  cbn [bind].
  rewrite ASSERT_holds by (apply Z.ltb_lt; unfold kMaxTokenLength; lia).
  cbn [bind].
  rewrite ASSERT_holds
    by (apply Z.ltb_lt; rewrite !length_app;
        pose proof (token_bytes_length t); lia).
  cbn [bind]. rewrite (at_app_offset pre _ _ 0) by lia.
  destruct t as [code|b|b0 b1 b2]; cbn [token_bytes app].
  - pose proof (table_bytecode code Hv) as [Hrange Hchars].
    cbn in Hv. apply andb_true_iff in Hv as [Hv _].
    change (at_ (code :: tail) 0) with (Ok code). cbn [bind].
    unfold is_bytecode. rewrite Hv.
    unfold decode_bytecode, write_chars, kMaxTokenLength.
    cbn [TokenStream.token_units length] in *.
    destruct (Z.leb_spec (token_lengths code) 9); [|lia].
    rewrite firstn_all2 by lia. cbn [bind].
    rewrite Decode_first_token_copy by lia.
    reflexivity.
  - cbn in Hsub. lia.
  - destruct narrow; [discriminate Hnarrow|].
    change (at_ (kUnicodeCode :: b0 :: b1 :: b2 :: tail) 0)
      with (Ok kUnicodeCode).
    cbn [bind]. change (is_bytecode kUnicodeCode) with false.
    change (is_ascii kUnicodeCode) with false.
    change (is_unicode kUnicodeCode) with true. cbn iota.
    rewrite ASSERT_true. cbn [bind].
    rewrite ASSERT_holds
      by (apply Z.ltb_lt; rewrite !length_app; cbn [length]; lia).
    cbn [bind].
    rewrite (at_app_offset pre _ _ 1) by lia.
    rewrite (at_app_offset pre _ _ 2) by lia.
    rewrite (at_app_offset pre _ _ 3) by lia.
    change (at_ (kUnicodeCode :: b0 :: b1 :: b2 :: tail) 1) with (Ok b0).
    change (at_ (kUnicodeCode :: b0 :: b1 :: b2 :: tail) 2) with (Ok b1).
    change (at_ (kUnicodeCode :: b0 :: b1 :: b2 :: tail) 3) with (Ok b2).
    cbn [bind length TokenStream.token_units] in *.
    cbn in Hv. apply andb_true_iff in Hv as [_ Hcp].
    unfold write_as_utf16, utf16_units in *.
    destruct (decode_unicode b0 b1 b2 <=? kMaxNonSurrogateCharCode).
    + cbn in Hsub. lia.
    + rewrite ASSERT_holds by exact Hcp. cbn [bind].
      cbn [length] in Hsub, Hlen.
      change (1 <=? kMaxTokenLength) with true.
      change (2 <=? kMaxTokenLength) with true. cbn iota. cbn [app].
      rewrite (Decode_first_token_copy
                 [LeadSurrogate (decode_unicode b0 b1 b2);
                  TrailSurrogate (decode_unicode b0 b1 b2)]) by (cbn; lia).
      do 2 f_equal. lia.
Qed.

(** [Decode] from a cursor at the start of [tokens], or inside the first of
    them: the code units from the cursor on.  For a [char] destination no
    Unicode escape may contribute to the range, nor be the token the cursor
    is inside of. *)
Lemma Decode_tokens (narrow : bool) (tokens : list token)
    (pre post : list Z) (sub m : Z) :
  forallb valid_token tokens = true ->
  0 <= sub -> 0 <= m ->
  sub + m <= Z.of_nat (length (units_of tokens)) ->
  match tokens with
  | [] => sub = 0
  | t :: _ => sub < Z.of_nat (length (token_units t))
  end ->
  (narrow = true -> range_has_unicode_escape tokens sub m = false) ->
  (narrow = true ->
   inside_unicode_escape (pre ++ stream_of tokens ++ post)
     (mkCursor (Z.of_nat (length pre)) sub) = false) ->
  Decode narrow (pre ++ stream_of tokens ++ post)
    (mkCursor (Z.of_nat (length pre)) sub) m
  = Ok (firstn (Z.to_nat m) (skipn (Z.to_nat sub) (units_of tokens))).
Proof.
  intros Hv Hsub Hm Hrange Hinv Hascii Hinside.
  unfold CompressedSourceCodec.Decode. cbn [byte_offset sub_token_offset].
  destruct (Z.eqb_spec sub 0) as [->|Hne]; cbn [negb].
  - cbn [bind length Z.of_nat Z.to_nat skipn].
    rewrite Z.sub_0_r.
    rewrite Decode_loop_tokens.
    + reflexivity.
    + exact Hv.
    + rewrite !length_app. pose proof (stream_of_length tokens). lia.
    + lia.
    + exact Hascii.
  - destruct tokens as [|t rest]; [lia|].
    cbn [forallb] in Hv. apply andb_true_iff in Hv as [Hvt Hvr].
    change (units_of (t :: rest)) with (token_units t ++ units_of rest)
      in *.
    rewrite length_app in Hrange.
    rewrite stream_of_cons, <- app_assoc in *.
    assert (Hnt : narrow && is_unicode_escape t = false).
    { destruct narrow; [|reflexivity]. specialize (Hinside eq_refl).
      rewrite inside_unicode_escape_token in Hinside by exact Hvt.
      destruct (Z.eqb_spec sub 0); [lia|exact Hinside]. }
    rewrite Decode_first_token_tokens by (assumption || lia).
    cbn [bind].
    replace (pre ++ token_bytes t ++ stream_of rest ++ post)
      with ((pre ++ token_bytes t) ++ stream_of rest ++ post)
      by (rewrite <- app_assoc; reflexivity).
    replace (Z.of_nat (length pre) + Z.of_nat (length (token_bytes t)))
      with (Z.of_nat (length (pre ++ token_bytes t)))
      by (rewrite length_app; lia).
    rewrite length_firstn, length_skipn.
    rewrite Decode_loop_tokens.
    + cbn [bind]. f_equal.
      rewrite skipn_app, firstn_app, length_skipn.
      replace (Z.to_nat sub - length (token_units t))%nat with 0%nat by lia.
      cbn [skipn]. f_equal.
      * destruct (Z_le_gt_dec m (Z.of_nat (length (token_units t)) - sub)).
        -- f_equal. lia.
        -- rewrite !firstn_all2 by (rewrite length_skipn; lia). reflexivity.
      * f_equal. lia.
    + exact Hvr.
    + rewrite !length_app. pose proof (stream_of_length rest). lia.
    + lia.
    + intros Hn. specialize (Hascii Hn).
      destruct (Z_le_gt_dec m (Z.of_nat (length (token_units t)) - sub)).
      * apply range_has_unicode_escape_empty. lia.
      * rewrite range_has_unicode_escape_cons in Hascii by lia.
        apply orb_false_iff in Hascii as [_ Hr]. rewrite <- Hr.
        f_equal. lia.
Qed.

(** In a well-formed stream, [Decode] from the cursor of a position writes
    the code units from that position on: to a [uc16] destination, and to a
    [char] destination when [IsAscii] is true for the range. *)
Lemma Decode_cursor_at (narrow : bool) (data : list Z) (char_length : Z)
    (tokens : list token) (pos m : Z) :
  well_formed data char_length tokens ->
  0 <= pos -> 0 <= m -> pos + m <= char_length ->
  (narrow = true -> IsAscii data (cursor_at tokens pos) m = Ok true) ->
  Decode narrow data (cursor_at tokens pos) m
  = Ok (firstn (Z.to_nat m) (skipn (Z.to_nat pos) (units_of tokens))).
Proof.
  intros Hwf Hpos Hm Hle Hascii.
  destruct (cursor_at_tokens data char_length tokens pos Hwf)
    as [before [rest [index [sub
         [Heq [Hdata [Hc [Hvr [Hsum [Htotal [Hsub Hinv]]]]]]]]]]]; [lia|].
  rewrite Hc, Hdata in *.
  assert (His : narrow = true ->
            (if m =? 0
             then negb (inside_unicode_escape
                          (stream_of before ++ stream_of rest ++ index)
                          (mkCursor (Z.of_nat (length (stream_of before)))
                             sub))
             else negb (range_has_unicode_escape rest sub m)) = true).
  { intros Hn. specialize (Hascii Hn).
    rewrite IsAscii_tokens in Hascii by (assumption || lia).
    injection Hascii as Hascii. exact Hascii. }
  rewrite Decode_tokens; try assumption; try lia.
  - subst tokens. do 2 f_equal. rewrite units_of_app, skipn_app.
    rewrite (skipn_all2 (units_of before)) by lia. cbn [app]. f_equal. lia.
  - intros Hn. specialize (His Hn).
    destruct (Z.eqb_spec m 0) as [->|Hne].
    + apply range_has_unicode_escape_empty. lia.
    + apply negb_true_iff. exact His.
  - intros Hn. specialize (His Hn).
    destruct (Z.eqb_spec m 0) as [->|Hne].
    + apply negb_true_iff. exact His.
    + apply negb_true_iff in His.
      destruct rest as [|t rest'].
      * subst sub. reflexivity.
      * cbn [forallb] in Hvr. apply andb_true_iff in Hvr as [Hvt _].
        rewrite stream_of_cons, <- app_assoc.
        rewrite inside_unicode_escape_token by exact Hvt.
        rewrite range_has_unicode_escape_cons in His by lia.
        apply orb_false_iff in His as [-> _]. apply andb_false_r.
Qed.

Lemma Get_cursor_at (data : list Z) (char_length : Z) (tokens : list token)
    (pos : Z) :
  well_formed data char_length tokens ->
  0 <= pos < char_length ->
  Get data (cursor_at tokens pos)
  = Ok (nth (Z.to_nat pos) (units_of tokens) 0).
Proof.
  intros Hwf Hpos. unfold CompressedSourceCodec.Get.
  rewrite (Decode_cursor_at false data char_length)
    by (assumption || lia || discriminate).
  cbn [bind].
  assert (Hlen : Z.of_nat (length (units_of tokens)) = char_length)
    by apply Hwf.
  destruct (skipn (Z.to_nat pos) (units_of tokens)) as [|x tail] eqn:Hskip.
  - apply (f_equal (@length Z)) in Hskip.
    rewrite length_skipn in Hskip. cbn in Hskip. lia.
  - change (Z.to_nat 1) with 1%nat. cbn [firstn].
    change (at_ [x] 0) with (Ok x). f_equal.
    rewrite <- (firstn_skipn (Z.to_nat pos) (units_of tokens)) at 1.
    rewrite app_nth2 by (rewrite length_firstn; lia).
    rewrite length_firstn, Hskip.
    replace (Z.to_nat pos
             - Nat.min (Z.to_nat pos) (length (units_of tokens)))%nat
      with 0%nat by lia.
    reflexivity.
Qed.

Lemma skipn_cons_nth (units : list Z) (n : nat) :
  (n < length units)%nat ->
  skipn n units = nth n units 0 :: skipn (S n) units.
Proof.
  revert n. induction units as [|x units IH]; intros n Hn; [cbn in Hn; lia|].
  destruct n as [|n]; [reflexivity|].
  cbn [skipn nth]. apply IH. cbn in Hn. lia.
Qed.

(** ** The operations of a compressed source *)

Local Abbreviation well_formed_source :=
  (well_formed_source token_lengths token_chars debug).
Local Abbreviation SubStringEquals :=
  (CompressedSource.SubStringEquals debug token_lengths token_chars).
Local Abbreviation SubStringEquals_loop :=
  (CompressedSource.SubStringEquals_loop debug token_lengths token_chars).
Local Abbreviation GetLineNumberSlow :=
  (CompressedSource.GetLineNumberSlow debug token_lengths token_chars).
Local Abbreviation GetLineNumberSlow_loop :=
  (CompressedSource.GetLineNumberSlow_loop debug token_lengths token_chars).

Lemma units_eqb_eq (a b : list Z) : units_eqb a b = true <-> a = b.
Proof.
  revert b. induction a as [|x a IH]; intros [|y b]; cbn;
    try (split; [discriminate|discriminate]); [tauto|].
  rewrite andb_true_iff, Z.eqb_eq, IH. split.
  - intros [-> ->]. reflexivity.
  - intros H. injection H as -> ->. split; reflexivity.
Qed.

Lemma cursor_at_start (tokens : list token) :
  forallb valid_token tokens = true ->
  cursor_at tokens 0 = mkCursor 0 0.
Proof.
  destruct tokens as [|t rest]; [reflexivity|].
  cbn [forallb]. intros H. apply andb_true_iff in H as [Ht _].
  pose proof (token_advance_pos t Ht).
  unfold TokenStream.cursor_at. cbn [TokenStream.seek].
  destruct (Z.ltb_spec 0 (token_advance t)); [reflexivity|lia].
Qed.

(** X17: on a well-formed source, [Decompress(start, length)] of a range
    within the source is the substring of the string the tokens decode to,
    with or without the cached string, and through either destination of
    [Decode]. *)
Lemma Decompress_units (source : CompressedSource) (tokens : list token)
    (start length_ : Z) :
  well_formed_source source tokens ->
  0 <= start -> 0 <= length_ -> start + length_ <= char_length source ->
  CompressedSource.Decompress debug token_lengths token_chars source start
    length_
  = Ok (NewSubString (units_of tokens) start (start + length_)).
Proof.
  intros [Hwf Hcached] Hstart Hlength Hle.
  unfold CompressedSource.Decompress, NewSubString.
  replace (start + length_ - start) with length_ by lia.
  destruct (cached_string source) as [string|] eqn:Hc.
  - rewrite (Hcached string eq_refl). reflexivity.
  - rewrite (GetCursor_cursor_at (bytes source) (char_length source) tokens)
      by (assumption || lia).
    cbn [bind].
    destruct (IsAscii (bytes source) (cursor_at tokens start) length_)
      as [[|]|f] eqn:Hascii.
    + cbn [bind].
      apply (Decode_cursor_at true (bytes source) (char_length source));
        try assumption. intros _. exact Hascii.
    + cbn [bind].
      apply (Decode_cursor_at false (bytes source) (char_length source));
        try assumption. discriminate.
    + rewrite (IsAscii_cursor_at (bytes source) (char_length source))
        in Hascii by (assumption || lia).
      discriminate Hascii.
Qed.

Lemma SubStringEquals_loop_units (data : list Z) (char_length : Z)
    (tokens : list token) (other : list Z) :
  forall pos : Z,
  well_formed data char_length tokens ->
  0 <= pos -> pos + Z.of_nat (length other) <= char_length ->
  SubStringEquals_loop data (cursor_at tokens pos) other
  = Ok (units_eqb
          (firstn (length other) (skipn (Z.to_nat pos) (units_of tokens)))
          other).
Proof.
  induction other as [|o other IH]; intros pos Hwf Hpos Hle.
  - reflexivity.
  - cbn [length] in Hle.
    assert (Hlen : Z.of_nat (length (units_of tokens)) = char_length)
      by apply Hwf.
    assert (Hv : forallb valid_token tokens = true) by apply Hwf.
    pose proof (well_formed_advance _ _ _ Hwf) as Htotal.
    cbn [CompressedSource.SubStringEquals_loop].
    rewrite (Get_cursor_at data char_length) by (assumption || lia).
    cbn [bind].
    rewrite (skipn_cons_nth (units_of tokens) (Z.to_nat pos)) by lia.
    cbn [length firstn units_eqb].
    destruct (nth (Z.to_nat pos) (units_of tokens) 0 =? o); cbn [negb andb];
      [|reflexivity].
    rewrite (AdvanceCursor_addresses data char_length tokens _ pos 1);
      try assumption; try lia.
    + cbn [bind]. rewrite IH by (assumption || lia).
      replace (Z.to_nat (pos + 1)) with (S (Z.to_nat pos)) by lia.
      reflexivity.
    + apply cursor_at_addresses; [exact Hv|lia].
Qed.

(** A sum that stays within the range of [int] is the sum. *)
Lemma int_add_in_range (a b : Z) :
  - 2 ^ 31 <= a + b < 2 ^ 31 -> int_add a b = a + b.
Proof.
  intros H. unfold int_add.
  change (2 ^ 31) with 2147483648 in *. change (2 ^ 32) with 4294967296.
  rewrite Z.mod_small by lia. lia.
Qed.

(** X18: on a well-formed source, for a start within it and an end
    [start + len(other)] within the range of [int],
    [SubStringEquals(start, other)] is true exactly when the code units the
    tokens decode to in [start, start + len(other)) are those of [other],
    with or without the cached string; and when the end exceeds the length
    it is false whatever the byte array and the cached string are. *)
Theorem SubStringEquals_units (source : CompressedSource)
    (tokens : list token) (start : Z) (other : list Z) :
  well_formed_source source tokens ->
  0 <= start <= char_length source ->
  start + Z.of_nat (length other) < 2 ^ 31 ->
  (exists r,
     SubStringEquals source start other = Ok r
     /\ (r = true
         <-> NewSubString (units_of tokens) start
               (start + Z.of_nat (length other)) = other))
  /\ (char_length source < start + Z.of_nat (length other) ->
      forall bytes' cached',
        SubStringEquals
          (mkCompressedSource bytes' (char_length source) cached')
          start other = Ok false).
Proof.
  intros [Hwf Hcached] Hstart Hint.
  assert (Hsum : int_add start (Z.of_nat (length other))
                 = start + Z.of_nat (length other))
    by (apply int_add_in_range; lia).
  split.
  - assert (Hlen : Z.of_nat (length (units_of tokens)) = char_length source)
      by apply Hwf.
    assert (Hsub : NewSubString (units_of tokens) start
                     (start + Z.of_nat (length other))
                   = firstn (length other)
                       (skipn (Z.to_nat start) (units_of tokens))).
    { unfold NewSubString. f_equal. lia. }
    unfold CompressedSource.SubStringEquals. rewrite Hsum. cbv zeta.
    destruct (Z.ltb_spec (char_length source)
                (start + Z.of_nat (length other))) as [Hout|Hin].
    + exists false. split; [reflexivity|]. split; [discriminate|].
      intros Heq. apply (f_equal (@length Z)) in Heq.
      rewrite Hsub, length_firstn, length_skipn in Heq. exfalso. lia.
    + destruct (cached_string source) as [string|] eqn:Hc.
      * eexists. split; [reflexivity|].
        rewrite (Hcached string eq_refl).
        unfold String_SubStringEquals. apply units_eqb_eq.
      * rewrite (GetCursor_cursor_at (bytes source) (char_length source)
                   tokens) by (assumption || lia).
        cbn [bind].
        rewrite (SubStringEquals_loop_units (bytes source)
                   (char_length source)) by (assumption || lia).
        eexists. split; [reflexivity|].
        rewrite Hsub. apply units_eqb_eq.
  - intros Hout bytes' cached'.
    unfold CompressedSource.SubStringEquals. cbn [char_length].
    rewrite Hsum. cbv zeta.
    destruct (Z.ltb_spec (char_length source)
                (start + Z.of_nat (length other))); [reflexivity|lia].
Qed.

Lemma GetLineNumberSlow_loop_units (data : list Z) (char_length : Z)
    (tokens : list token) (n : nat) :
  forall pos line : Z,
  well_formed data char_length tokens ->
  0 <= pos -> pos + Z.of_nat n <= char_length ->
  GetLineNumberSlow_loop n data (cursor_at tokens pos) line
  = Ok (line
        + count_line_feeds
            (firstn n (skipn (Z.to_nat pos) (units_of tokens)))).
Proof.
  induction n as [|n IH]; intros pos line Hwf Hpos Hle.
  - cbn. f_equal. lia.
  - assert (Hlen : Z.of_nat (length (units_of tokens)) = char_length)
      by apply Hwf.
    assert (Hv : forallb valid_token tokens = true) by apply Hwf.
    cbn [CompressedSource.GetLineNumberSlow_loop].
    rewrite (Get_cursor_at data char_length) by (assumption || lia).
    cbn [bind].
    rewrite (AdvanceCursor_addresses data char_length tokens _ pos 1);
      try assumption; try lia.
    + cbn [bind]. rewrite IH by (assumption || lia).
      rewrite (skipn_cons_nth (units_of tokens) (Z.to_nat pos)) by lia.
      replace (Z.to_nat (pos + 1)) with (S (Z.to_nat pos)) by lia.
      cbn [firstn count_line_feeds]. f_equal.
      destruct (nth (Z.to_nat pos) (units_of tokens) 0 =? 10); lia.
    + apply cursor_at_addresses; [exact Hv|].
      pose proof (well_formed_advance _ _ _ Hwf). lia.
Qed.

(** ** The unreachable branch of [Decode] *)

Lemma ASSERT_fault (cond : bool) (f : fault) :
  ASSERT debug cond = Fault f -> f = AssertionFailed.
Proof. unfold ASSERT. destruct (debug && negb cond); congruence. Qed.

Lemma at_fault {A : Type} (v : list A) (i : Z) (f : fault) :
  at_ v i = Fault f -> f = OutOfBounds.
Proof.
  unfold at_. destruct (i <? 0); [congruence|].
  destruct (nth_error v (Z.to_nat i)); congruence.
Qed.

Lemma write_as_utf16_wide_fault (codepoint dest_len : Z) (f : fault) :
  write_as_utf16 debug false codepoint dest_len = Fault f ->
  f = AssertionFailed.
Proof.
  unfold write_as_utf16. destruct (codepoint <=? _); [congruence|].
  destruct (ASSERT debug _) as [[]|f'] eqn:Ha; cbn [bind]; [congruence|].
  apply ASSERT_fault in Ha. congruence.
Qed.

Lemma copy_first_token_fault (n : nat) (first_token : list Z) (from : Z)
    (f : fault) :
  copy_first_token n first_token from = Fault f -> f = OutOfBounds.
Proof.
  revert from. induction n as [|n IH]; intros from; cbn; [congruence|].
  destruct (at_ first_token from) as [x|f'] eqn:Hx; cbn [bind].
  - destruct (copy_first_token n first_token (from + 1)) as [l|f'] eqn:Hc;
      cbn [bind]; [congruence|].
    intros H. injection H as <-. exact (IH _ Hc).
  - intros H. injection H as <-. exact (at_fault _ _ _ Hx).
Qed.

Lemma bind_fault {A B : Type} (r : result A) (k : A -> result B)
    (f : fault) :
  bind r k = Fault f -> r = Fault f \/ exists a, r = Ok a /\ k a = Fault f.
Proof.
  destruct r as [a|f']; cbn [bind]; intros H.
  - right. exists a. split; [reflexivity|exact H].
  - left. injection H as ->. reflexivity.
Qed.

(** Takes apart a hypothesis that says the code ends in the fault of
    unreachable code, down to the calls that could raise it. *)
Ltac unreachable_inversion :=
  repeat match goal with
  | H : bind _ _ = Fault UnreachableCode |- _ =>
    apply bind_fault in H; destruct H as [H|[? [? H]]]
  | H : ASSERT _ _ = Fault UnreachableCode |- _ =>
    apply ASSERT_fault in H; discriminate
  | H : at_ _ _ = Fault UnreachableCode |- _ =>
    apply at_fault in H; discriminate
  | H : write_as_utf16 _ false _ _ = Fault UnreachableCode |- _ =>
    apply write_as_utf16_wide_fault in H; discriminate
  | H : copy_first_token _ _ _ = Fault UnreachableCode |- _ =>
    apply copy_first_token_fault in H; discriminate
  | H : Ok _ = Fault _ |- _ => discriminate
  | H : (if ?c then _ else _) = Fault UnreachableCode |- _ =>
    destruct c eqn:?
  | H : match ?p with pair _ _ => _ end = Fault UnreachableCode |- _ =>
    destruct p
  end.

Lemma Decode_loop_wide_reachable (fuel : nat) (data : list Z) :
  forall data_ptr room : Z,
  Decode_loop fuel false data data_ptr room <> Fault UnreachableCode.
Proof.
  induction fuel as [|fuel IH]; intros data_ptr room; [discriminate|].
  cbn [CompressedSourceCodec.Decode_loop]. intros H.
  unreachable_inversion;
    match goal with
    | Hrest : CompressedSourceCodec.Decode_loop _ _ _ _ _ _ _ _
              = Fault UnreachableCode |- _ => exact (IH _ _ Hrest)
    end.
Qed.

(** C10: a cursor that satisfies the cursor invariant and has a sub-token
    offset above 0 does not point to an ASCII escape, so the branch of the
    partial first token of [Decode] that is marked unreachable is not
    taken, and [Decode] to a [uc16] destination does not end in it. *)
Theorem Decode_first_token_not_ascii (data : list Z) (cursor : Cursor)
    (code dest_length : Z) :
  at_ data (byte_offset cursor) = Ok code ->
  0 < sub_token_offset cursor < token_lengths code ->
  is_ascii code = false
  /\ Decode false data cursor dest_length <> Fault UnreachableCode.
Proof.
  intros Hcode Hsub.
  assert (Hascii : is_ascii code = false).
  { unfold is_ascii, kAsciiCode. apply Z.eqb_neq. intros ->.
    rewrite table_ascii in Hsub. lia. }
  split; [exact Hascii|].
  unfold CompressedSourceCodec.Decode.
  destruct (Z.eqb_spec (sub_token_offset cursor) 0) as [Hz|_]; [lia|].
  cbn [negb]. unfold CompressedSourceCodec.Decode_first_token.
  rewrite Hcode. cbn [bind]. rewrite Hascii. intros H.
  unreachable_inversion;
    match goal with
    | Hrest : CompressedSourceCodec.Decode_loop _ _ _ _ _ _ _ _
              = Fault UnreachableCode |- _ =>
      exact (Decode_loop_wide_reachable _ _ _ _ Hrest)
    end.
Qed.

(** ** The escape of U+FFFF *)

(** C2, at the input where the code leaves the claim: for the escape of
    the code point [0xFFFF], [uc16_length] is 2 and [AdvanceCursor] counts
    two characters, so that advancing by 1 from its start stays inside the
    token, while [write_as_utf16] and [Decode] produce the single code unit
    [0xFFFF] for it. *)
Theorem AdvanceCursor_counts_U_FFFF_twice :
  uc16_length 0 255 255 = 2
  /\ write_as_utf16 debug false (decode_unicode 0 255 255) kMaxTokenLength
     = Ok (1, [0xFFFF])
  /\ Decode false [1; 0; 255; 255] (mkCursor 0 0) 1 = Ok [0xFFFF]
  /\ AdvanceCursor [1; 0; 255; 255] (mkCursor 0 0) 1 = Ok (mkCursor 0 1)
  /\ AdvanceCursor [1; 0; 255; 255] (mkCursor 0 0) 2 = Ok (mkCursor 4 0).
Proof.
  assert (Hv : forallb valid_token [UnicodeEscape 0 255 255] = true)
    by reflexivity.
  assert (Hadv : advance_of [UnicodeEscape 0 255 255] = 2).
  { cbn. change kUnicodeCode with 1. rewrite table_unicode. reflexivity. }
  split; [reflexivity|]. split; [reflexivity|]. split; [|split].
  - change [1; 0; 255; 255]
      with ([] ++ stream_of [UnicodeEscape 0 255 255] ++ []).
    change (mkCursor 0 0) with (mkCursor (Z.of_nat (length (@nil Z))) 0).
    rewrite Decode_tokens;
      [reflexivity|exact Hv|lia|lia|cbn; lia|cbn; lia
      |discriminate|discriminate].
  - change [1; 0; 255; 255]
      with ([] ++ stream_of [UnicodeEscape 0 255 255] ++ []).
    change (mkCursor 0 0) with (mkCursor (Z.of_nat (length (@nil Z))) 0).
    rewrite AdvanceCursor_seek by (exact Hv || lia).
    cbn. change kUnicodeCode with 1. rewrite table_unicode. reflexivity.
  - change [1; 0; 255; 255]
      with ([] ++ stream_of [UnicodeEscape 0 255 255] ++ []).
    change (mkCursor 0 0) with (mkCursor (Z.of_nat (length (@nil Z))) 0).
    rewrite AdvanceCursor_seek by (exact Hv || lia).
    cbn. change kUnicodeCode with 1. rewrite table_unicode. reflexivity.
Qed.

End Facts.

(** ** The code table where the walks read it *)

(** [AdvanceCursor] reads the code table at the codes of the stream only:
    two tables with the same lengths give the same walk. *)
Lemma AdvanceCursor_loop_ext (debug : bool) (lengths lengths' : Z -> Z)
    (data : list Z) (chars : Z) (fuel : nat) :
  (forall code, lengths code = lengths' code) ->
  forall byte_offset chars_written prev_byte_offset prev_chars_written : Z,
  AdvanceCursor_loop debug lengths fuel data chars byte_offset
    chars_written prev_byte_offset prev_chars_written
  = AdvanceCursor_loop debug lengths' fuel data chars byte_offset
      chars_written prev_byte_offset prev_chars_written.
Proof.
  intros Hext. induction fuel as [|fuel IH]; intros bo cw pbo pcw;
    [reflexivity|].
  cbn [AdvanceCursor_loop].
  destruct (cw <? chars); [|reflexivity].
  destruct (at_ data bo) as [code|]; cbn [bind]; [|reflexivity].
  rewrite Hext.
  destruct (negb (is_bytecode code)); [|apply IH].
  destruct (is_ascii code); [apply IH|].
  destruct (ASSERT debug (is_unicode code)); cbn [bind]; [|reflexivity].
  destruct (at_ data (bo + 1)); cbn [bind]; [|reflexivity].
  destruct (at_ data (bo + 1 + 1)); cbn [bind]; [|reflexivity].
  destruct (at_ data (bo + 1 + 2)); cbn [bind]; [|reflexivity].
  apply IH.
Qed.

Lemma AdvanceCursor_ext (debug : bool) (lengths lengths' : Z -> Z)
    (data : list Z) (cursor : Cursor) (chars : Z) :
  (forall code, lengths code = lengths' code) ->
  AdvanceCursor debug lengths data cursor chars
  = AdvanceCursor debug lengths' data cursor chars.
Proof.
  intros Hext. unfold AdvanceCursor.
  rewrite (AdvanceCursor_loop_ext debug lengths lengths' _ _ _ Hext).
  reflexivity.
Qed.

Lemma GetCursor_ext (debug : bool) (lengths lengths' : Z -> Z)
    (data : list Z) (pos length_ : Z) :
  (forall code, lengths code = lengths' code) ->
  GetCursor debug lengths data pos length_
  = GetCursor debug lengths' data pos length_.
Proof.
  intros Hext. unfold GetCursor.
  destruct (ReadIndex data pos length_); cbn [bind]; [|reflexivity].
  apply AdvanceCursor_ext, Hext.
Qed.

Lemma Forall_firstn_skipn {A : Type} (P : A -> Prop) (n : nat)
    (l : list A) :
  Forall P l -> Forall P (firstn n l) /\ Forall P (skipn n l).
Proof.
  intros H. rewrite <- (firstn_skipn n l) in H.
  apply Forall_app in H. exact H.
Qed.

(** The characters of a block are characters of the input. *)
Lemma fill_input_buffer_keeps (P : Z -> Prop) (input : list Z)
    (pos block_size : Z) :
  Forall P input ->
  Forall P
    (firstn (Z.to_nat (snd (fill_input_buffer input pos block_size)))
       (fst (fill_input_buffer input pos block_size))).
Proof.
  intros Hinput. unfold fill_input_buffer.
  destruct (pos + block_size <=? Z.of_nat (length input)); cbn [fst snd].
  - apply Forall_firstn_skipn, Forall_firstn_skipn, Forall_firstn_skipn,
      Hinput.
  - rewrite Nat2Z.id, firstn_app, Nat.sub_diag, firstn_all. cbn [firstn].
    rewrite app_nil_r. apply Forall_firstn_skipn, Hinput.
Qed.

(** ** [Compress] and [Decompress] on a string with U+FFFF *)

Section Roundtrip.

Variable token_lengths : Z -> Z.
Variable token_chars : Z -> list Z.

Hypothesis table_ok : code_table_ok token_lengths token_chars.

(** The dictionary of a source-text codec holds ASCII text: [IsAscii]
    takes every bytecode for ASCII. *)
Hypothesis tokens_ascii :
  forall code, Forall (fun u => 0 <= u <= 127) (token_chars code).

Lemma starts_with_non_ascii (token : list Z) (c : Z) (rest : list Z) :
  Forall (fun u => 0 <= u <= 127) token ->
  127 < c ->
  negb (Nat.eqb (length token) 0) && starts_with token (c :: rest) = false.
Proof.
  intros Hascii Hc. destruct token as [|t token]; [reflexivity|].
  inversion Hascii as [|? ? Ht _]; subst.
  cbn. destruct (Z.eqb_spec t c); [lia|reflexivity].
Qed.

Lemma longest_match_non_ascii (c : Z) (rest : list Z) :
  127 < c -> longest_match token_chars (c :: rest) = None.
Proof.
  intros Hc. unfold longest_match.
  induction bytecodes as [|code codes IH]; [reflexivity|].
  cbn [fold_left].
  rewrite starts_with_non_ascii by (apply tokens_ascii || exact Hc).
  exact IH.
Qed.

Lemma encode_block_with_U_FFFF :
  encode_block token_chars 3 string_with_U_FFFF
  = [1; 0; 255; 255; 1; 0; 255; 255; 1; 0; 1; 0].
Proof.
  unfold string_with_U_FFFF. cbn [encode_block].
  rewrite !longest_match_non_ascii by lia. reflexivity.
Qed.

Lemma Encode_with_U_FFFF (debug : bool) :
  Encode debug token_lengths token_chars string_with_U_FFFF []
  = Ok ([1; 0; 255; 255; 1; 0; 255; 255; 1; 0; 1; 0], []).
Proof.
  unfold Encode.
  destruct table_ok as [H0 [H1 [H255 Hall]]].
  destruct (Hall kFirstBytecode) as [Hfirst _];
    [unfold kFirstBytecode, kLastBytecode; lia|].
  rewrite H0, H1, H255.
  rewrite !ASSERT_holds;
    try reflexivity; [|apply Z.leb_le; lia].
  cbn [bind].
  change (Z.to_nat (Z.of_nat (length string_with_U_FFFF)
                    / kCharsPerIndexEntry)) with 0%nat.
  cbn [encode_blocks]. unfold add_index_entry.
  rewrite ASSERT_holds by reflexivity. cbn [bind].
  change (negb (0 =? 0)) with false. cbn iota. cbn [bind].
  change (fill_input_buffer string_with_U_FFFF 0 kCharsPerIndexEntry)
    with (string_with_U_FFFF ++ repeat (-1) 1021, 3).
  cbn iota.
  change (firstn (Z.to_nat 3) (string_with_U_FFFF ++ repeat (-1) 1021))
    with string_with_U_FFFF.
  change (length string_with_U_FFFF) with 3%nat.
  rewrite encode_block_with_U_FFFF. reflexivity.
Qed.

(** The lengths of the escapes are those of [escape_lengths]. *)
Lemma escape_lengths_table (code : Z) :
  token_lengths code = escape_lengths token_lengths code.
Proof.
  destruct table_ok as [H0 [H1 _]].
  unfold escape_lengths, kAsciiCode, kUnicodeCode in *.
  destruct (Z.eqb_spec code 0) as [->|_]; [exact H0|].
  destruct (Z.eqb_spec code 1) as [->|_]; [exact H1|].
  reflexivity.
Qed.

(** A string without ASCII characters is encoded with no look at the
    dictionary. *)
Lemma longest_match_no_dictionary (input : list Z) :
  longest_match (fun _ => []) input = None.
Proof.
  unfold longest_match.
  induction bytecodes as [|code codes IH]; [reflexivity|exact IH].
Qed.

Lemma encode_block_non_ascii (fuel : nat) :
  forall input : list Z,
  Forall (fun c => 127 < c) input ->
  encode_block token_chars fuel input = encode_block (fun _ => []) fuel input.
Proof.
  induction fuel as [|fuel IH]; intros input Hinput; [reflexivity|].
  destruct input as [|c rest]; [reflexivity|].
  inversion Hinput as [|? ? Hc Hrest]; subst.
  cbn [encode_block].
  rewrite longest_match_non_ascii by exact Hc.
  rewrite longest_match_no_dictionary.
  destruct (Z.leb_spec c 127); [lia|].
  destruct rest as [|t rest']; [reflexivity|].
  inversion Hrest as [|? ? _ Hrest']; subst.
  destruct (IsLeadSurrogate c && IsTrailSurrogate t); f_equal; apply IH;
    assumption.
Qed.

Lemma encode_blocks_non_ascii (debug : bool) (input : list Z)
    (blocks : nat) :
  Forall (fun c => 127 < c) input ->
  forall (pos : Z) (output index : list Z),
  encode_blocks debug token_chars blocks input pos output index
  = encode_blocks debug (fun _ => []) blocks input pos output index.
Proof.
  intros Hinput.
  induction blocks as [|blocks IH]; intros pos output index; [reflexivity|].
  cbn [encode_blocks].
  destruct (add_index_entry debug index output pos); cbn [bind];
    [|reflexivity].
  destruct (fill_input_buffer input pos kCharsPerIndexEntry)
    as [input_buffer n] eqn:Hfill.
  rewrite encode_block_non_ascii; [apply IH|].
  pose proof (fill_input_buffer_keeps (fun c => 127 < c) input pos
                kCharsPerIndexEntry Hinput) as Hblock.
  rewrite Hfill in Hblock. exact Hblock.
Qed.

Lemma Encode_non_ascii (debug : bool) (input index : list Z) :
  Forall (fun c => 127 < c) input ->
  Encode debug token_lengths token_chars input index
  = encode_blocks debug (fun _ => [])
      (S (Z.to_nat (Z.of_nat (length input) / kCharsPerIndexEntry)))
      input 0 [] index.
Proof.
  intros Hinput. unfold Encode.
  destruct table_ok as [H0 [H1 [H255 Hall]]].
  destruct (Hall kFirstBytecode) as [Hfirst _];
    [unfold kFirstBytecode, kLastBytecode; lia|].
  rewrite H0, H1, H255.
  rewrite !ASSERT_holds;
    try reflexivity; [|apply Z.leb_le; lia].
  cbn [bind]. apply encode_blocks_non_ascii, Hinput.
Qed.

Lemma string_across_blocks_non_ascii :
  Forall (fun c => 127 < c) string_across_blocks.
Proof.
  unfold string_across_blocks. apply Forall_cons; [lia|].
  apply Forall_forall. intros c Hc. apply repeat_spec in Hc. lia.
Qed.

Lemma Encode_across_blocks (debug : bool) :
  Encode debug token_lengths token_chars string_across_blocks
    (repeat 0 (Z.to_nat (IndexSize (Z.of_nat (length string_across_blocks)))))
  = Ok (stream_of tokens_across_blocks, [0; 16; 0; 0]).
Proof.
  rewrite Encode_non_ascii by exact string_across_blocks_non_ascii.
  destruct debug; vm_compute; reflexivity.
Qed.

(** The calls of a computation on a given byte array, one at a time. *)
Ltac run_Get :=
  match goal with
  | |- context [Get ?d token_lengths token_chars ?bv ?c] =>
    let v := eval vm_compute in (Get d token_lengths token_chars bv c) in
    replace (Get d token_lengths token_chars bv c) with v
      by (vm_compute; reflexivity);
    cbn [bind]
  end.

Ltac run_AdvanceCursor :=
  match goal with
  | |- context [AdvanceCursor ?d token_lengths ?bv ?c ?n] =>
    rewrite (AdvanceCursor_ext d token_lengths
               (escape_lengths token_lengths) bv c n escape_lengths_table);
    let v := eval vm_compute in
               (AdvanceCursor d (escape_lengths token_lengths) bv c n) in
    replace (AdvanceCursor d (escape_lengths token_lengths) bv c n) with v
      by (vm_compute; reflexivity);
    cbn [bind]
  end.

Ltac run_GetCursor :=
  match goal with
  | |- context [GetCursor ?d token_lengths ?bv ?pos ?len] =>
    rewrite (GetCursor_ext d token_lengths
               (escape_lengths token_lengths) bv pos len
               escape_lengths_table);
    let v := eval vm_compute in
               (GetCursor d (escape_lengths token_lengths) bv pos len) in
    replace (GetCursor d (escape_lengths token_lengths) bv pos len) with v
      by (vm_compute; reflexivity);
    cbn [bind]
  end.

(** C3, at the input where the code leaves the claim: for the string of
    U+FFFF and 1024 times U+0100 the debug build of [Compress] fails its
    own assertion; on the source the release build returns, [GetCursor] for
    position 1023, advanced by 1, is not what [GetCursor] gives for
    position 1024.  The walk from the start counts the escape of U+FFFF as
    two characters and is one token behind the index entry, which holds the
    start of the second block. *)
Theorem GetCursor_across_blocks :
  Compress true token_lengths token_chars string_across_blocks
  = Fault AssertionFailed
  /\ (exists source,
        Compress false token_lengths token_chars string_across_blocks
        = Ok source
        /\ char_length source = 1025
        /\ GetCursor false token_lengths (bytes source) 1023 1025
           = Ok (mkCursor 4088 0)
        /\ AdvanceCursor false token_lengths (bytes source)
             (mkCursor 4088 0) 1 = Ok (mkCursor 4092 0)
        /\ GetCursor false token_lengths (bytes source) (1023 + 1) 1025
           = Ok (mkCursor 4096 0)).
Proof.
  split.
  - unfold Compress. cbv zeta. rewrite Encode_across_blocks.
    cbn [bind]. cbv beta iota zeta.
    rewrite (AdvanceCursor_ext true token_lengths
               (escape_lengths token_lengths) _ _ _ escape_lengths_table).
    vm_compute. reflexivity.
  - exists (mkCompressedSource data_across_blocks 1025
              (Some string_across_blocks)).
    split; [|split; [reflexivity|]].
    + unfold Compress. cbv zeta. rewrite Encode_across_blocks.
      cbn [bind]. reflexivity.
    + cbn [bytes].
      split; [run_GetCursor; reflexivity|].
      split; [run_AdvanceCursor; reflexivity|].
      run_GetCursor. reflexivity.
Qed.

(** C1, at the input where the code leaves the claim: for the string
    U+FFFF, U+FFFF, U+0100 the debug build of [Compress] fails its own
    assertion that [AdvanceCursor] by the length ends at the end of the
    stream; the release build returns a source from which, once the cached
    string is dropped, [Decompress] over the full range is the string, but
    [Decompress(2, 1)] is the code unit [0xFFFF] at position 1 and not the
    code unit [0x100] at position 2. *)
Theorem Decompress_after_U_FFFF :
  Compress true token_lengths token_chars string_with_U_FFFF
  = Fault AssertionFailed
  /\ (exists source,
        Compress false token_lengths token_chars string_with_U_FFFF
        = Ok source
        /\ Decompress_all false token_lengths token_chars
             (drop_cached_string source) = Ok string_with_U_FFFF
        /\ Decompress false token_lengths token_chars
             (drop_cached_string source) 2 1 = Ok [0xFFFF])
  /\ NewSubString string_with_U_FFFF 2 (2 + 1) = [0x100].
Proof.
  assert (Hv : forallb valid_token
                 [UnicodeEscape 0 255 255; UnicodeEscape 0 255 255;
                  UnicodeEscape 0 1 0] = true) by reflexivity.
  pose proof (table_unicode token_lengths token_chars table_ok) as H1.
  split; [|split; [|reflexivity]].
  - unfold Compress. rewrite Encode_with_U_FFFF. cbn [bind].
    change [1; 0; 255; 255; 1; 0; 255; 255; 1; 0; 1; 0]
      with ([] ++ stream_of [UnicodeEscape 0 255 255; UnicodeEscape 0 255 255;
                             UnicodeEscape 0 1 0] ++ []) at 1.
    change (mkCursor 0 0) with (mkCursor (Z.of_nat (length (@nil Z))) 0).
    rewrite (AdvanceCursor_seek true token_lengths token_chars table_ok).
    + cbn. change kUnicodeCode with 1. rewrite H1. reflexivity.
    + exact Hv.
    + cbn. change kUnicodeCode with 1. rewrite H1. cbn. lia.
  - eexists. split; [|split].
    + unfold Compress. rewrite Encode_with_U_FFFF. cbn [bind]. reflexivity.
    + vm_compute. reflexivity.
    + unfold Decompress, drop_cached_string.
      cbn [cached_string bytes char_length app].
      unfold GetCursor.
      change (ReadIndex [1; 0; 255; 255; 1; 0; 255; 255; 1; 0; 1; 0] 2
                (Z.of_nat (length string_with_U_FFFF))) with (@Ok Z 0).
      cbn [bind].
      change [1; 0; 255; 255; 1; 0; 255; 255; 1; 0; 1; 0]
        with ([] ++ stream_of [UnicodeEscape 0 255 255;
                               UnicodeEscape 0 255 255;
                               UnicodeEscape 0 1 0] ++ []) at 1.
      change (mkCursor 0 0) with (mkCursor (Z.of_nat (length (@nil Z))) 0).
      rewrite (AdvanceCursor_seek false token_lengths token_chars table_ok).
      * assert (Hseek :
          fst (seek token_lengths
                 [UnicodeEscape 0 255 255; UnicodeEscape 0 255 255;
                  UnicodeEscape 0 1 0] (Z.of_nat (length (@nil Z)))
                 (0 + 2 mod kCharsPerIndexEntry)) = mkCursor 4 0).
        { cbn. change kUnicodeCode with 1. rewrite H1. reflexivity. }
        rewrite Hseek. cbn [bind].
        assert (Hascii :
          IsAscii false token_lengths
            [1; 0; 255; 255; 1; 0; 255; 255; 1; 0; 1; 0] (mkCursor 4 0) 1
          = Ok false) by (vm_compute; reflexivity).
        rewrite Hascii. cbn [bind]. vm_compute. reflexivity.
      * exact Hv.
      * cbn. change kUnicodeCode with 1. rewrite H1. cbn. lia.
Qed.

(** C8, at the input where the code leaves the claim: on the source the
    release build of [Compress] makes of the string U+FFFF, U+FFFF, U+0100,
    [SubStringEquals(2, other)] for the one code unit [0x100], which is the
    code unit of the string at position 2, is true while the source keeps
    the string and false once the host has dropped it: the cursor of
    position 2 is at the second escape of U+FFFF. *)
Theorem SubStringEquals_after_U_FFFF :
  exists source,
    Compress false token_lengths token_chars string_with_U_FFFF = Ok source
    /\ NewSubString string_with_U_FFFF 2 (2 + 1) = [0x100]
    /\ SubStringEquals false token_lengths token_chars source 2 [0x100]
       = Ok true
    /\ GetCursor false token_lengths (bytes source) 2 (char_length source)
       = Ok (mkCursor 4 0)
    /\ Get false token_lengths token_chars (bytes source) (mkCursor 4 0)
       = Ok 0xFFFF
    /\ SubStringEquals false token_lengths token_chars
         (drop_cached_string source) 2 [0x100] = Ok false.
Proof.
  eexists. split.
  { unfold Compress. rewrite Encode_with_U_FFFF. cbn [bind]. reflexivity. }
  cbn [bytes char_length app].
  split; [reflexivity|]. split; [vm_compute; reflexivity|].
  split; [run_GetCursor; reflexivity|].
  split; [vm_compute; reflexivity|].
  unfold SubStringEquals, drop_cached_string.
  cbn [cached_string bytes char_length].
  change (int_add 2 (Z.of_nat (length [256]))) with 3. cbv zeta.
  change (Z.of_nat (length string_with_U_FFFF) <? 3) with false. cbv iota.
  run_GetCursor. cbn [SubStringEquals_loop]. run_Get. reflexivity.
Qed.

(** The encoder on the string U+FFFF, U+FFFF, line feed: two Unicode
    escapes, and then the line feed as the dictionary has it, by a bytecode
    or by an ASCII escape. *)
Lemma Encode_with_line_feed (debug : bool) :
  exists tail,
    Encode debug token_lengths token_chars string_with_line_feed []
    = Ok ([1; 0; 255; 255; 1; 0; 255; 255] ++ tail, [])
    /\ (tail = [0; 10] \/ exists code, tail = [code]).
Proof.
  destruct (longest_match token_chars [10]) as [code|] eqn:Hmatch;
    [exists [code]|exists [0; 10]];
    (split; [|eauto]);
    unfold Encode;
    destruct table_ok as [H0 [H1 [H255 Hall]]];
    (destruct (Hall kFirstBytecode) as [Hfirst _];
       [unfold kFirstBytecode, kLastBytecode; lia|]);
    rewrite H0, H1, H255;
    (rewrite !ASSERT_holds; try reflexivity; [|apply Z.leb_le; lia]);
    cbn [bind];
    change (Z.to_nat (Z.of_nat (length string_with_line_feed)
                      / kCharsPerIndexEntry)) with 0%nat;
    cbn [encode_blocks]; unfold add_index_entry;
    rewrite ASSERT_holds by reflexivity; cbn [bind];
    change (negb (0 =? 0)) with false; cbn iota; cbn [bind];
    change (fill_input_buffer string_with_line_feed 0 kCharsPerIndexEntry)
      with (string_with_line_feed ++ repeat (-1) 1021, 3);
    cbn iota;
    change (firstn (Z.to_nat 3) (string_with_line_feed ++ repeat (-1) 1021))
      with string_with_line_feed;
    change (length string_with_line_feed) with 3%nat;
    unfold string_with_line_feed; cbn [encode_block];
    rewrite (longest_match_non_ascii 0xFFFF [0xFFFF; 10]) by lia;
    rewrite (longest_match_non_ascii 0xFFFF [10]) by lia;
    rewrite Hmatch; reflexivity.
Qed.

(** C9, at the input where the code leaves the claim: on the source the
    release build of [Compress] makes of the string U+FFFF, U+FFFF, line
    feed, [GetLineNumberSlow] for a position beyond the length is what it
    is for the length, and that is 0, while the string has one line feed:
    the three steps of the cursor end inside the second escape.  A debug
    build fails an assertion of [Decode] at the second code unit. *)
Theorem GetLineNumberSlow_after_U_FFFF :
  exists source,
    Compress false token_lengths token_chars string_with_line_feed
    = Ok source
    /\ char_length source = 3
    /\ count_line_feeds string_with_line_feed = 1
    /\ GetLineNumberSlow false token_lengths token_chars source 3 = Ok 0
    /\ GetLineNumberSlow false token_lengths token_chars source 4 = Ok 0
    /\ GetLineNumberSlow true token_lengths token_chars source 4
       = Fault AssertionFailed.
Proof.
  destruct (Encode_with_line_feed false) as [tail [Hencode Htail]].
  exists (mkCompressedSource
            (([1; 0; 255; 255; 1; 0; 255; 255] ++ tail) ++ []) 3
            (Some string_with_line_feed)).
  split.
  { unfold Compress. cbv zeta.
    change (repeat 0
              (Z.to_nat
                 (IndexSize (Z.of_nat (length string_with_line_feed)))))
      with (@nil Z).
    rewrite Hencode. cbn [bind]. reflexivity. }
  split; [reflexivity|]. split; [reflexivity|].
  assert (H255 : token_lengths 255 = 9) by apply table_ok.
  unfold GetLineNumberSlow. cbn [bytes char_length].
  change (Z.to_nat (if 3 <? 3 then 3 else 3)) with 3%nat.
  change (Z.to_nat (if 3 <? 4 then 3 else 4)) with 3%nat.
  destruct Htail as [->|[code ->]]; cbn [app];
    (split; [|split]); cbn [GetLineNumberSlow_loop];
    [do 3 (run_Get; run_AdvanceCursor); reflexivity
    |do 3 (run_Get; run_AdvanceCursor); reflexivity
    |run_Get; run_AdvanceCursor;
     unfold Get, Decode, Decode_first_token; rewrite H255;
     vm_compute; reflexivity
    |do 3 (run_Get; run_AdvanceCursor); reflexivity
    |do 3 (run_Get; run_AdvanceCursor); reflexivity
    |run_Get; run_AdvanceCursor;
     unfold Get, Decode, Decode_first_token; rewrite H255;
     vm_compute; reflexivity].
Qed.

End Roundtrip.

End CodecFacts.

(** * The properties at concrete inputs *)

Module Samples.
Import CompressedSourceCodec CompressedSource TokenStream SampleStreams
  CodecFacts.

Ltac Zify.zify_post_hook ::= Z.to_euclidean_division_equations.

Lemma sample_table_ok :
  code_table_ok SampleTable.token_lengths SampleTable.token_chars.
Proof.
  unfold code_table_ok. repeat split; try reflexivity.
  - unfold SampleTable.token_lengths, kFirstBytecode, kLastBytecode in *.
    destruct (code <? 2), (code <? 255); lia.
  - unfold SampleTable.token_lengths, kFirstBytecode, kLastBytecode,
      kMaxTokenLength in *.
    destruct (Z.ltb_spec code 2), (Z.ltb_spec code 255); lia.
  - unfold SampleTable.token_chars, SampleTable.token_lengths,
      kFirstBytecode, kLastBytecode in *.
    destruct (Z.eqb_spec code 255) as [->|Hne]; [reflexivity|].
    rewrite repeat_length.
    destruct (Z.ltb_spec code 2), (Z.ltb_spec code 255); lia.
Qed.

Lemma sample_well_formed (debug : bool) :
  well_formed SampleTable.token_lengths SampleTable.token_chars debug
    sample_data 1027 sample_tokens.
Proof.
  unfold well_formed. split; [reflexivity|]. split.
  { exists [127; 0; 0; 0]. split; reflexivity. }
  split; [reflexivity|]. split.
  { destruct debug; vm_compute; reflexivity. }
  intros i Hi. change (1027 / kCharsPerIndexEntry) with 1 in Hi.
  assert (i = 1) by lia. subst i.
  exists 127. split; [reflexivity|].
  destruct debug; vm_compute; reflexivity.
Qed.

(** The stream of the string U+FFFF, U+FFFF, U+0100: from its start by 1,
    into the first escape, and then by 2, into the second. *)
Lemma AdvanceCursor_twice_witness :
  AdvanceCursor true SampleTable.token_lengths
    [1; 0; 255; 255; 1; 0; 255; 255; 1; 0; 1; 0] (mkCursor 0 0) (1 + 2)
  = Ok (mkCursor 4 1)
  /\ exists c1 c2,
       AdvanceCursor true SampleTable.token_lengths
         (stream_of [UnicodeEscape 0 255 255; UnicodeEscape 0 255 255;
                     UnicodeEscape 0 1 0] ++ []) (mkCursor 0 0) 1 = Ok c1
       /\ AdvanceCursor true SampleTable.token_lengths
            (stream_of [UnicodeEscape 0 255 255; UnicodeEscape 0 255 255;
                        UnicodeEscape 0 1 0] ++ []) c1 2 = Ok c2
       /\ AdvanceCursor true SampleTable.token_lengths
            (stream_of [UnicodeEscape 0 255 255; UnicodeEscape 0 255 255;
                        UnicodeEscape 0 1 0] ++ []) (mkCursor 0 0) (1 + 2)
          = Ok c2
       /\ cursor_addresses SampleTable.token_lengths
            [UnicodeEscape 0 255 255; UnicodeEscape 0 255 255;
             UnicodeEscape 0 1 0] c2 (0 + 1 + 2).
Proof.
  split; [vm_compute; reflexivity|].
  apply (AdvanceCursor_twice true SampleTable.token_lengths
           SampleTable.token_chars sample_table_ok
           [UnicodeEscape 0 255 255; UnicodeEscape 0 255 255;
            UnicodeEscape 0 1 0] [] (mkCursor 0 0) 0 1 2).
  - reflexivity.
  - exists [], [UnicodeEscape 0 255 255; UnicodeEscape 0 255 255;
                UnicodeEscape 0 1 0].
    repeat split; cbn; lia.
  - lia.
  - lia.
  - vm_compute. discriminate.
Defined.

Lemma sample_tokens_ascii (code : Z) :
  Forall (fun u => 0 <= u <= 127) (SampleTable.token_chars code).
Proof.
  unfold SampleTable.token_chars. destruct (code =? 255).
  - repeat constructor; lia.
  - apply Forall_forall. intros u Hu. apply repeat_spec in Hu. lia.
Qed.

Lemma short_well_formed (debug : bool) :
  well_formed SampleTable.token_lengths SampleTable.token_chars debug
    short_data 14 short_tokens.
Proof.
  unfold well_formed. split; [reflexivity|]. split.
  { exists []. split; reflexivity. }
  split; [reflexivity|]. split.
  { destruct debug; vm_compute; reflexivity. }
  intros i Hi. change (14 / kCharsPerIndexEntry) with 0 in Hi. lia.
Qed.

Lemma short_source_well_formed (debug : bool) :
  well_formed_source SampleTable.token_lengths SampleTable.token_chars debug
    short_source short_tokens.
Proof. split; [apply short_well_formed|]. intros string H. discriminate H. Qed.

(** C1 at the sample table. *)
Lemma Decompress_after_U_FFFF_witness :
  Compress true SampleTable.token_lengths SampleTable.token_chars
    string_with_U_FFFF = Fault AssertionFailed
  /\ (exists source,
        Compress false SampleTable.token_lengths SampleTable.token_chars
          string_with_U_FFFF = Ok source
        /\ Decompress_all false SampleTable.token_lengths
             SampleTable.token_chars (drop_cached_string source)
           = Ok string_with_U_FFFF
        /\ Decompress false SampleTable.token_lengths SampleTable.token_chars
             (drop_cached_string source) 2 1 = Ok [0xFFFF])
  /\ NewSubString string_with_U_FFFF 2 (2 + 1) = [0x100].
Proof.
  exact (Decompress_after_U_FFFF SampleTable.token_lengths
           SampleTable.token_chars sample_table_ok sample_tokens_ascii).
Defined.

(** C2 at the sample table, in a debug build. *)
Lemma AdvanceCursor_counts_U_FFFF_twice_witness :
  uc16_length 0 255 255 = 2
  /\ write_as_utf16 true false (decode_unicode 0 255 255) kMaxTokenLength
     = Ok (1, [0xFFFF])
  /\ Decode true SampleTable.token_lengths SampleTable.token_chars false
       [1; 0; 255; 255] (mkCursor 0 0) 1 = Ok [0xFFFF]
  /\ AdvanceCursor true SampleTable.token_lengths [1; 0; 255; 255]
       (mkCursor 0 0) 1 = Ok (mkCursor 0 1)
  /\ AdvanceCursor true SampleTable.token_lengths [1; 0; 255; 255]
       (mkCursor 0 0) 2 = Ok (mkCursor 4 0).
Proof.
  exact (AdvanceCursor_counts_U_FFFF_twice true SampleTable.token_lengths
           SampleTable.token_chars sample_table_ok).
Defined.

Lemma sample_plain_stream :
  plain_stream SampleTable.token_chars sample_data 1027 sample_tokens.
Proof.
  split; [reflexivity|]. split; [reflexivity|]. split.
  { exists [127; 0; 0; 0]. split; reflexivity. }
  split; [reflexivity|].
  intros i Hi. change (1027 / kCharsPerIndexEntry) with 1 in Hi.
  assert (i = 1) by lia. subst i.
  exists 127, (repeat (Bytecode 255) 113 ++ repeat (AsciiEscape 59) 7),
         [UnicodeEscape 1 246 0; AsciiEscape 66].
  repeat split; vm_compute; reflexivity.
Qed.

Lemma short_plain_stream :
  plain_stream SampleTable.token_chars short_data 14 short_tokens.
Proof.
  split; [reflexivity|]. split; [reflexivity|]. split.
  { exists []. split; reflexivity. }
  split; [reflexivity|].
  intros i Hi. change (14 / kCharsPerIndexEntry) with 0 in Hi. lia.
Qed.

(** C7 as it is stated fails on the short stream: the empty range at
    position 12, the trailing surrogate of the escaped pair, gets no code
    unit from any token, and [IsAscii] is false for it. *)
Lemma IsAscii_empty_range_inside_escape :
  well_formed SampleTable.token_lengths SampleTable.token_chars true
    short_data 14 short_tokens
  /\ plain_stream SampleTable.token_chars short_data 14 short_tokens
  /\ GetCursor true SampleTable.token_lengths short_data 12 14
     = Ok (mkCursor 5 1)
  /\ range_has_unicode_escape SampleTable.token_chars short_tokens 12 0
     = false
  /\ IsAscii true SampleTable.token_lengths short_data (mkCursor 5 1) 0
     = Ok false.
Proof.
  split; [apply short_well_formed|].
  split; [apply short_plain_stream|].
  repeat split; vm_compute; reflexivity.
Qed.

(** C7, amended, at the sample stream: the range of 5 code units from
    position 1020 ends with the leading surrogate of the escape. *)
Lemma IsAscii_range_witness :
  exists c r,
    GetCursor true SampleTable.token_lengths sample_data 1020 1027 = Ok c
    /\ IsAscii true SampleTable.token_lengths sample_data c 5 = Ok r
    /\ (0 < 5 ->
        (r = true
         <-> range_has_unicode_escape SampleTable.token_chars sample_tokens
               1020 5 = false))
    /\ (5 = 0 ->
        (r = true <-> inside_unicode_escape sample_data c = false)).
Proof.
  apply (IsAscii_range true SampleTable.token_lengths SampleTable.token_chars
           sample_table_ok sample_data 1027 sample_tokens 1020 5
           sample_plain_stream); lia.
Defined.

(** The short source: the nine code units from position 1. *)
Lemma SubStringEquals_units_witness :
  well_formed_source SampleTable.token_lengths SampleTable.token_chars true
    short_source short_tokens
  /\ SubStringEquals true SampleTable.token_lengths SampleTable.token_chars
       short_source 1 [102; 117; 110; 99; 116; 105; 111; 110; 32] = Ok true
  /\ exists r,
       SubStringEquals true SampleTable.token_lengths SampleTable.token_chars
         short_source 1 [102; 117; 110; 99; 116; 105; 111; 110; 32] = Ok r
       /\ (r = true
           <-> NewSubString
                 (units_of SampleTable.token_chars short_tokens) 1
                 (1 + Z.of_nat
                        (length [102; 117; 110; 99; 116; 105; 111; 110; 32]))
               = [102; 117; 110; 99; 116; 105; 111; 110; 32]).
Proof.
  split; [apply short_source_well_formed|].
  split; [vm_compute; reflexivity|].
  apply (proj1 (SubStringEquals_units true SampleTable.token_lengths
                  SampleTable.token_chars sample_table_ok short_source
                  short_tokens 1
                  [102; 117; 110; 99; 116; 105; 111; 110; 32]
                  (short_source_well_formed true)
                  ltac:(cbn; lia) ltac:(cbn; lia))).
Defined.

(** C3 at the sample table. *)
Lemma GetCursor_across_blocks_witness :
  Compress true SampleTable.token_lengths SampleTable.token_chars
    string_across_blocks = Fault AssertionFailed
  /\ (exists source,
        Compress false SampleTable.token_lengths SampleTable.token_chars
          string_across_blocks = Ok source
        /\ char_length source = 1025
        /\ GetCursor false SampleTable.token_lengths (bytes source) 1023 1025
           = Ok (mkCursor 4088 0)
        /\ AdvanceCursor false SampleTable.token_lengths (bytes source)
             (mkCursor 4088 0) 1 = Ok (mkCursor 4092 0)
        /\ GetCursor false SampleTable.token_lengths (bytes source)
             (1023 + 1) 1025 = Ok (mkCursor 4096 0)).
Proof.
  exact (GetCursor_across_blocks SampleTable.token_lengths
           SampleTable.token_chars sample_table_ok sample_tokens_ascii).
Defined.

(** C8 at the sample table. *)
Lemma SubStringEquals_after_U_FFFF_witness :
  exists source,
    Compress false SampleTable.token_lengths SampleTable.token_chars
      string_with_U_FFFF = Ok source
    /\ NewSubString string_with_U_FFFF 2 (2 + 1) = [0x100]
    /\ SubStringEquals false SampleTable.token_lengths
         SampleTable.token_chars source 2 [0x100] = Ok true
    /\ GetCursor false SampleTable.token_lengths (bytes source) 2
         (char_length source) = Ok (mkCursor 4 0)
    /\ Get false SampleTable.token_lengths SampleTable.token_chars
         (bytes source) (mkCursor 4 0) = Ok 0xFFFF
    /\ SubStringEquals false SampleTable.token_lengths
         SampleTable.token_chars (drop_cached_string source) 2 [0x100]
       = Ok false.
Proof.
  exact (SubStringEquals_after_U_FFFF SampleTable.token_lengths
           SampleTable.token_chars sample_table_ok sample_tokens_ascii).
Defined.

(** C9 at the sample table. *)
Lemma GetLineNumberSlow_after_U_FFFF_witness :
  exists source,
    Compress false SampleTable.token_lengths SampleTable.token_chars
      string_with_line_feed = Ok source
    /\ char_length source = 3
    /\ count_line_feeds string_with_line_feed = 1
    /\ GetLineNumberSlow false SampleTable.token_lengths
         SampleTable.token_chars source 3 = Ok 0
    /\ GetLineNumberSlow false SampleTable.token_lengths
         SampleTable.token_chars source 4 = Ok 0
    /\ GetLineNumberSlow true SampleTable.token_lengths
         SampleTable.token_chars source 4 = Fault AssertionFailed.
Proof.
  exact (GetLineNumberSlow_after_U_FFFF SampleTable.token_lengths
           SampleTable.token_chars sample_table_ok sample_tokens_ascii).
Defined.

(** C10 at the short stream: a cursor three code units into "function ". *)
Lemma Decode_first_token_not_ascii_witness :
  is_ascii 255 = false
  /\ Decode true SampleTable.token_lengths SampleTable.token_chars false
       short_data (mkCursor 2 3) 4 <> Fault UnreachableCode.
Proof.
  apply (Decode_first_token_not_ascii true SampleTable.token_lengths
           SampleTable.token_chars sample_table_ok short_data (mkCursor 2 3)
           255 4).
  - reflexivity.
  - cbn. lia.
Defined.

End Samples.

(** * The index, the cursor and the destination: what the codec keeps *)

Module CodecInvariants.
Import CompressedSourceCodec CompressedSource TokenStream SampleStreams
  CodecFacts Samples.

Ltac Zify.zify_post_hook ::= Z.to_euclidean_division_equations.

(** ** The index *)

Lemma unsigned_of_unsigned_bytes (x : Z) :
  0 <= x < 2 ^ 32 ->
  unsigned_of_bytes (x mod 256) ((x / 2 ^ 8) mod 256) ((x / 2 ^ 16) mod 256)
    ((x / 2 ^ 24) mod 256) = x.
Proof.
  unfold unsigned_of_bytes.
  change (2 ^ 8) with 256. change (2 ^ 16) with 65536.
  change (2 ^ 24) with 16777216. change (2 ^ 32) with 4294967296.
  intros Hx. lia.
Qed.

Lemma at_first_four {A : Type} (a b c d : A) (rest : list A) :
  at_ (a :: b :: c :: d :: rest) 0 = Ok a
  /\ at_ (a :: b :: c :: d :: rest) 1 = Ok b
  /\ at_ (a :: b :: c :: d :: rest) 2 = Ok c
  /\ at_ (a :: b :: c :: d :: rest) 3 = Ok d.
Proof. repeat split; reflexivity. Qed.

Lemma WriteIndex_entry (debug : bool) (index : list Z)
    (pos length_ byte_offset : Z) :
  Z.of_nat (length index) = IndexSize length_ ->
  kCharsPerIndexEntry <= pos <= length_ ->
  pos mod kCharsPerIndexEntry = 0 ->
  WriteIndex debug index pos byte_offset
  = Ok (firstn (Z.to_nat ((pos / kCharsPerIndexEntry - 1) * kIntSize)) index
        ++ unsigned_bytes byte_offset
        ++ skipn (Z.to_nat ((pos / kCharsPerIndexEntry - 1) * kIntSize
                            + kIntSize)) index).
Proof.
  unfold WriteIndex, IndexSize, kCharsPerIndexEntry, kIntSize.
  intros Hlen Hpos Hmod.
  rewrite ASSERT_holds by (apply Z.leb_le; lia).
  rewrite ASSERT_holds by (apply Z.eqb_eq; lia).
  cbn [bind].
  destruct (Z.ltb_spec ((pos / 1024 - 1) * 4) 0); [lia|].
  destruct (Z.ltb_spec (Z.of_nat (length index))
              ((pos / 1024 - 1) * 4 + 4)); [lia|].
  reflexivity.
Qed.

(** X8: the index entry that [add_index_entry] writes for a block is read
    back by [ReadIndex] for every position of the block, once the index is
    appended to the compressed data: it is the size the output had when the
    block began, which is the byte offset of the block's first token.  The
    index keeps its size. *)
Theorem add_index_entry_ReadIndex (debug : bool) (index output more : list Z)
    (pos length_ p : Z) :
  Z.of_nat (length index) = IndexSize length_ ->
  kCharsPerIndexEntry <= pos <= length_ ->
  pos mod kCharsPerIndexEntry = 0 ->
  Z.of_nat (length output) < 2 ^ 32 ->
  pos <= p < pos + kCharsPerIndexEntry ->
  exists index',
    add_index_entry debug index output pos = Ok index'
    /\ length index' = length index
    /\ ReadIndex (output ++ more ++ index') p length_
       = Ok (Z.of_nat (length output)).
Proof.
  intros Hlen Hpos Hmod Hout Hp.
  unfold add_index_entry.
  rewrite ASSERT_holds by (apply Z.eqb_eq; exact Hmod). cbn [bind].
  destruct (Z.eqb_spec pos 0) as [Hz|_];
    [unfold kCharsPerIndexEntry in Hpos; lia|]. cbn [negb].
  rewrite (WriteIndex_entry debug index pos length_) by assumption.
  eexists. split; [reflexivity|].
  unfold IndexSize, kCharsPerIndexEntry, kIntSize in *.
  set (at_entry := (pos / 1024 - 1) * 4).
  assert (Hentry : 0 <= at_entry /\ at_entry + 4 <= Z.of_nat (length index))
    by (subst at_entry; lia).
  assert (Hsame : (p / 1024 - 1) * 4 = at_entry) by (subst at_entry; lia).
  clearbody at_entry.
  assert (Hsize :
    length (firstn (Z.to_nat at_entry) index ++ unsigned_bytes
              (Z.of_nat (length output))
            ++ skipn (Z.to_nat (at_entry + 4)) index) = length index).
  { rewrite !length_app, length_firstn, length_skipn.
    unfold unsigned_bytes. cbn [length]. lia. }
  split; [exact Hsize|].
  unfold ReadIndex, IndexSize, kCharsPerIndexEntry, kIntSize.
  destruct (Z.ltb_spec p 1024); [lia|].
  rewrite (length_app output), (length_app more), Hsize.
  replace (Z.of_nat (length output + (length more + length index))
           - length_ / 1024 * 4)
    with (Z.of_nat (length output) + Z.of_nat (length more)) by lia.
  rewrite Hsame.
  replace (output ++ more ++ firstn (Z.to_nat at_entry) index
           ++ unsigned_bytes (Z.of_nat (length output))
           ++ skipn (Z.to_nat (at_entry + 4)) index)
    with ((output ++ more ++ firstn (Z.to_nat at_entry) index)
          ++ unsigned_bytes (Z.of_nat (length output))
          ++ skipn (Z.to_nat (at_entry + 4)) index)
    by (rewrite <- !app_assoc; reflexivity).
  assert (Hpre : Z.of_nat (length (output ++ more
                                   ++ firstn (Z.to_nat at_entry) index))
                 = Z.of_nat (length output) + Z.of_nat (length more)
                   + at_entry)
    by (rewrite !length_app, length_firstn; lia).
  rewrite (at_app_offset (output ++ more ++ firstn (Z.to_nat at_entry) index)
             _ _ 0) by (clear - Hpre; lia).
  rewrite (at_app_offset (output ++ more ++ firstn (Z.to_nat at_entry) index)
             _ _ 1) by (clear - Hpre; lia).
  rewrite (at_app_offset (output ++ more ++ firstn (Z.to_nat at_entry) index)
             _ _ 2) by (clear - Hpre; lia).
  rewrite (at_app_offset (output ++ more ++ firstn (Z.to_nat at_entry) index)
             _ _ 3) by (clear - Hpre; lia).
  cbn [unsigned_bytes app].
  destruct (at_first_four (Z.of_nat (length output) mod 256)
              ((Z.of_nat (length output) / 2 ^ 8) mod 256)
              ((Z.of_nat (length output) / 2 ^ 16) mod 256)
              ((Z.of_nat (length output) / 2 ^ 24) mod 256)
              (skipn (Z.to_nat (at_entry + 4)) index))
    as [H0 [H1 [H2 H3]]].
  rewrite H0, H1, H2, H3. cbn [bind].
  f_equal. apply unsigned_of_unsigned_bytes. lia.
Qed.

(** A vector with four elements overwritten reads the same elsewhere. *)
Lemma at_overwritten (data index written : list Z) (a i : nat) :
  length written = 4%nat ->
  (a + 4 <= length index)%nat ->
  (i < length data + a \/ length data + a + 4 <= i)%nat ->
  nth_error (data ++ firstn a index ++ written ++ skipn (a + 4) index) i
  = nth_error (data ++ index) i.
Proof.
  intros Hw Ha Hi.
  destruct (Nat.lt_ge_cases i (length data)) as [Hdata|Hdata].
  - rewrite !nth_error_app1 by exact Hdata. reflexivity.
  - rewrite (nth_error_app2 data index) by exact Hdata.
    rewrite (nth_error_app2 data) by exact Hdata.
    destruct Hi as [Hlow|Hhigh].
    + rewrite nth_error_app1 by (rewrite length_firstn; lia).
      rewrite nth_error_firstn.
      destruct (Nat.ltb_spec (i - length data) a); [reflexivity|lia].
    + rewrite nth_error_app2 by (rewrite length_firstn; lia).
      rewrite nth_error_app2 by (rewrite length_firstn; lia).
      rewrite nth_error_skipn, length_firstn. f_equal. lia.
Qed.

(** X9: [add_index_entry] leaves the other entries of the index as they
    were: after the call, [ReadIndex] for a position of another block reads
    what it read before, whatever the data before the index; the entry of
    the first block does not exist, and for position 0 nothing is
    written. *)
Theorem add_index_entry_other_entries (debug : bool)
    (index index' output data : list Z) (pos length_ p : Z) :
  Z.of_nat (length index) = IndexSize length_ ->
  add_index_entry debug index output pos = Ok index' ->
  p / kCharsPerIndexEntry <> pos / kCharsPerIndexEntry ->
  (pos = 0 -> index' = index)
  /\ ReadIndex (data ++ index') p length_
     = ReadIndex (data ++ index) p length_.
Proof.
  unfold add_index_entry, WriteIndex, IndexSize, kCharsPerIndexEntry,
    kIntSize.
  intros Hlen Hadd Hp.
  destruct (ASSERT debug (pos mod 1024 =? 0)); cbn [bind] in Hadd;
    [|discriminate].
  destruct (Z.eqb_spec pos 0) as [Hz|Hnz]; cbn [negb] in Hadd.
  - injection Hadd as <-. split; reflexivity.
  - split; [intros Hz; contradiction|].
    destruct (ASSERT debug (1024 <=? pos)); cbn [bind] in Hadd;
      [|discriminate].
    destruct (Z.ltb_spec ((pos / 1024 - 1) * 4) 0) as [|Hlow];
      cbn [orb] in Hadd; [discriminate|].
    destruct (Z.ltb_spec (Z.of_nat (length index))
                ((pos / 1024 - 1) * 4 + 4)) as [|Hhigh];
      [discriminate|].
    assert (Hw : length (unsigned_bytes (Z.of_nat (length output))) = 4%nat)
      by reflexivity.
    set (written := unsigned_bytes (Z.of_nat (length output))) in *.
    clearbody written.
    injection Hadd as <-.
    replace (Z.to_nat ((pos / 1024 - 1) * 4 + 4))
      with (Z.to_nat ((pos / 1024 - 1) * 4) + 4)%nat by lia.
    set (k := Z.to_nat ((pos / 1024 - 1) * 4)).
    assert (Ha : Z.of_nat k = (pos / 1024 - 1) * 4) by (subst k; lia).
    clearbody k.
    assert (Hsize : length (data ++ firstn k index
                            ++ written ++ skipn (k + 4) index)
                    = length (data ++ index)).
    { rewrite !length_app, length_firstn, length_skipn. lia. }
    unfold ReadIndex, IndexSize, kCharsPerIndexEntry, kIntSize.
    destruct (Z.ltb_spec p 1024) as [|Hblock]; [reflexivity|].
    rewrite Hsize, length_app.
    replace (Z.of_nat (length data + length index) - length_ / 1024 * 4)
      with (Z.of_nat (length data)) by lia.
    set (b := (p / 1024 - 1) * 4).
    assert (Hb : 0 <= b /\ (b + 4 <= Z.of_nat k \/ Z.of_nat k + 4 <= b))
      by (subst b; lia).
    clearbody b.
    assert (Hread : forall j, 0 <= j < 4 ->
              at_ (data ++ firstn k index ++ written ++ skipn (k + 4) index)
                (Z.of_nat (length data) + b + j)
              = at_ (data ++ index) (Z.of_nat (length data) + b + j)).
    { intros j Hj. unfold at_.
      destruct (Z.ltb_spec (Z.of_nat (length data) + b + j) 0);
        [reflexivity|].
      rewrite at_overwritten; [reflexivity|exact Hw| |];
        clear - Hb Hj Hhigh Ha; lia. }
    pose proof (Hread 0) as Hfirst. rewrite Z.add_0_r in Hfirst.
    rewrite Hfirst, (Hread 1), (Hread 2), (Hread 3) by lia. reflexivity.
Qed.

(** An index of two entries, where the entry of position 2048 is written
    after 300 bytes of output: the entry of position 1024 reads as
    before. *)
Lemma add_index_entry_other_entries_witness :
  add_index_entry true [44; 1; 0; 0; 0; 0; 0; 0] (repeat 7 300) 2048
  = Ok [44; 1; 0; 0; 44; 1; 0; 0]
  /\ ReadIndex (repeat 7 600 ++ [44; 1; 0; 0; 44; 1; 0; 0]) 1500 2100
     = Ok 300
  /\ (2048 = 0 -> [44; 1; 0; 0; 44; 1; 0; 0] = [44; 1; 0; 0; 0; 0; 0; 0])
  /\ ReadIndex (repeat 7 600 ++ [44; 1; 0; 0; 44; 1; 0; 0]) 1500 2100
     = ReadIndex (repeat 7 600 ++ [44; 1; 0; 0; 0; 0; 0; 0]) 1500 2100.
Proof.
  split; [reflexivity|]. split; [reflexivity|].
  apply (add_index_entry_other_entries true [44; 1; 0; 0; 0; 0; 0; 0]
           [44; 1; 0; 0; 44; 1; 0; 0] (repeat 7 300) (repeat 7 600)
           2048 2100 1500).
  - reflexivity.
  - reflexivity.
  - vm_compute. discriminate.
Defined.

(** The entry of position 2048 of the same index, read back for position
    2100 behind 600 bytes of data. *)
Lemma add_index_entry_ReadIndex_witness :
  exists index',
    add_index_entry true [44; 1; 0; 0; 0; 0; 0; 0] (repeat 7 300) 2048
    = Ok index'
    /\ length index' = length [44; 1; 0; 0; 0; 0; 0; 0]
    /\ ReadIndex (repeat 7 300 ++ repeat 9 300 ++ index') 2100 2100
       = Ok (Z.of_nat (length (repeat 7 300))).
Proof.
  apply (add_index_entry_ReadIndex true [44; 1; 0; 0; 0; 0; 0; 0]
           (repeat 7 300) (repeat 9 300) 2048 2100 2100).
  - reflexivity.
  - unfold kCharsPerIndexEntry. lia.
  - reflexivity.
  - rewrite repeat_length. reflexivity.
  - unfold kCharsPerIndexEntry. lia.
Defined.

(** ** The input buffer of the encoder *)

(** X10: for a block of [kCharsPerIndexEntry] characters at [pos],
    [fill_input_buffer] always fills the whole buffer: it returns the number
    of characters of the input from [pos] on, 1024 at most and 0 when [pos]
    is at or behind the end; the buffer starts with those characters and
    every entry behind them is the end marker -1. *)
Theorem fill_input_buffer_block (input : list Z) (pos : Z) :
  0 <= pos ->
  let filled := fill_input_buffer input pos kCharsPerIndexEntry in
  Z.of_nat (length (fst filled)) = kCharsPerIndexEntry
  /\ snd filled
     = Z.max 0 (Z.min kCharsPerIndexEntry (Z.of_nat (length input) - pos))
  /\ firstn (Z.to_nat (snd filled)) (fst filled)
     = NewSubString input pos (pos + snd filled)
  /\ skipn (Z.to_nat (snd filled)) (fst filled)
     = repeat (-1) (Z.to_nat (kCharsPerIndexEntry - snd filled)).
Proof.
  intros Hpos. cbn zeta.
  unfold fill_input_buffer, NewSubString, kCharsPerIndexEntry.
  destruct (Z.leb_spec (pos + 1024) (Z.of_nat (length input))) as [Hin|Hout];
    cbn [fst snd].
  - assert (Hlen : length (firstn (Z.to_nat 1024)
                             (skipn (Z.to_nat pos) input))
                   = Z.to_nat 1024)
      by (rewrite length_firstn, length_skipn; lia).
    split; [rewrite Hlen; lia|]. split; [lia|]. split.
    + rewrite firstn_all2 by (rewrite Hlen; lia). f_equal. lia.
    + rewrite skipn_all2 by (rewrite Hlen; lia). reflexivity.
  - assert (Hread : Z.of_nat (length (skipn (Z.to_nat pos) input))
                    = Z.max 0 (Z.of_nat (length input) - pos))
      by (rewrite length_skipn; lia).
    set (read := skipn (Z.to_nat pos) input) in *.
    split; [rewrite length_app, repeat_length; lia|].
    split; [lia|]. rewrite Nat2Z.id. split.
    + rewrite firstn_app, firstn_all, Nat.sub_diag. cbn [firstn].
      rewrite app_nil_r.
      replace (Z.to_nat (pos + Z.of_nat (length read) - pos))
        with (length read) by lia.
      rewrite firstn_all. reflexivity.
    + rewrite skipn_app, skipn_all, Nat.sub_diag. cbn [skipn app].
      f_equal. lia.
Qed.

(** The last block of an input of five characters, from position 3. *)
Lemma fill_input_buffer_block_witness :
  fill_input_buffer [104; 101; 108; 108; 111] 3 kCharsPerIndexEntry
  = ([108; 111] ++ repeat (-1) 1022, 2)
  /\ (let filled :=
        fill_input_buffer [104; 101; 108; 108; 111] 3 kCharsPerIndexEntry in
      Z.of_nat (length (fst filled)) = kCharsPerIndexEntry
      /\ snd filled
         = Z.max 0
             (Z.min kCharsPerIndexEntry
                (Z.of_nat (length [104; 101; 108; 108; 111]) - 3))
      /\ firstn (Z.to_nat (snd filled)) (fst filled)
         = NewSubString [104; 101; 108; 108; 111] 3 (3 + snd filled)
      /\ skipn (Z.to_nat (snd filled)) (fst filled)
         = repeat (-1) (Z.to_nat (kCharsPerIndexEntry - snd filled))).
Proof.
  split; [reflexivity|].
  apply (fill_input_buffer_block [104; 101; 108; 108; 111] 3). lia.
Defined.

(** ** The cursor that [AdvanceCursor] returns *)

Section CursorInvariant.

Variable debug : bool.
Variable token_lengths : Z -> Z.

Local Abbreviation counted := (TokenStream.counted token_lengths).
Local Abbreviation walked := (TokenStream.walked token_lengths).

Lemma AdvanceCursor_loop_walked (data : list Z) (chars from : Z)
    (fuel : nat) :
  forall (byte_offset chars_written prev_byte_offset prev_chars_written : Z)
    (st : Z * Z * Z * Z),
  AdvanceCursor_loop debug token_lengths fuel data chars byte_offset
    chars_written prev_byte_offset prev_chars_written = Ok st ->
  walked data chars from
    (byte_offset, chars_written, prev_byte_offset, prev_chars_written) ->
  walked data chars from st /\ chars <= snd (fst (fst st)).
Proof.
  induction fuel as [|fuel IH]; intros bo cw pbo pcw st;
    cbn [AdvanceCursor_loop]; [discriminate|].
  destruct (Z.ltb_spec cw chars) as [Hlt|Hge].
  - destruct (at_ data bo) as [code|f] eqn:Hcode; cbn [bind];
      [|discriminate].
    intros Hloop [Hfrom _].
    destruct (is_bytecode code) eqn:Hbytecode; cbn [negb] in Hloop.
    + apply (IH _ _ _ _ _ Hloop). split; [lia|]. right.
      split; [exact Hlt|]. split; [exact Hfrom|].
      exists code. split; [exact Hcode|].
      unfold TokenStream.counted. rewrite Hbytecode. lia.
    + destruct (is_ascii code) eqn:Hascii.
      * apply (IH _ _ _ _ _ Hloop). split; [lia|]. right.
        split; [exact Hlt|]. split; [exact Hfrom|].
        exists code. split; [exact Hcode|].
        unfold TokenStream.counted. rewrite Hbytecode, Hascii. lia.
      * destruct (ASSERT debug (is_unicode code)); cbn [bind] in Hloop;
          [|discriminate].
        destruct (at_ data (bo + 1)) as [b0|] eqn:Hb0; cbn [bind] in Hloop;
          [|discriminate].
        destruct (at_ data (bo + 1 + 1)) as [b1|] eqn:Hb1;
          cbn [bind] in Hloop; [|discriminate].
        destruct (at_ data (bo + 1 + 2)) as [b2|] eqn:Hb2;
          cbn [bind] in Hloop; [|discriminate].
        apply (IH _ _ _ _ _ Hloop). split; [lia|]. right.
        split; [exact Hlt|]. split; [exact Hfrom|].
        exists code. split; [exact Hcode|].
        unfold TokenStream.counted. rewrite Hbytecode, Hascii.
        exists b0, b1, b2. repeat split; try assumption. lia.
  - intros H Hwalked. injection H as <-. split; [exact Hwalked|].
    cbn [fst snd]. exact Hge.
Qed.

(** X11: whatever the data, a cursor that [AdvanceCursor] returns is not
    before the cursor it was given, and its sub-token offset is 0, or it
    points to a bytecode with an offset inside the token's length, or to a
    Unicode escape with offset 1 whose code point is [0xFFFF] at least; it
    is never inside an ASCII escape.  For a code point above [0xFFFF] the
    offset 1 is the trailing surrogate; for [0xFFFF] itself it is behind
    the one code unit that [Decode] writes.  The two escapes have length 1
    in the code table, as [Encode] asserts. *)
Theorem AdvanceCursor_sub_token_offset (data : list Z)
    (cursor after : Cursor) (chars : Z) :
  token_lengths kAsciiCode = 1 ->
  token_lengths kUnicodeCode = 1 ->
  0 <= chars + sub_token_offset cursor ->
  AdvanceCursor debug token_lengths data cursor chars = Ok after ->
  byte_offset cursor <= byte_offset after
  /\ (sub_token_offset after = 0
      \/ exists code,
           at_ data (byte_offset after) = Ok code
           /\ is_ascii code = false
           /\ (is_bytecode code = true ->
               0 < sub_token_offset after < token_lengths code)
           /\ (is_unicode code = true ->
               sub_token_offset after = 1
               /\ exists b0 b1 b2,
                    at_ data (byte_offset after + 1) = Ok b0
                    /\ at_ data (byte_offset after + 1 + 1) = Ok b1
                    /\ at_ data (byte_offset after + 1 + 2) = Ok b2
                    /\ kMaxNonSurrogateCharCode
                       <= decode_unicode b0 b1 b2)).
Proof.
  intros Hascii Hunicode Hchars. unfold AdvanceCursor.
  destruct (AdvanceCursor_loop debug token_lengths (S (length data)) data
              (chars + sub_token_offset cursor) (byte_offset cursor) 0 0 0)
    as [[[[bo cw] pbo] pcw]|f] eqn:Hloop; cbn [bind]; [|discriminate].
  destruct (AdvanceCursor_loop_walked data
              (chars + sub_token_offset cursor) (byte_offset cursor)
              _ _ _ _ _ _ Hloop) as [[Hfrom Hwalked] Hend].
  { split; [lia|]. left. split; reflexivity. }
  cbn [fst snd] in Hend.
  destruct (Z.eqb_spec cw (chars + sub_token_offset cursor)) as [Heq|Hne];
    intros H; injection H as <-; cbn [byte_offset sub_token_offset].
  - split; [exact Hfrom|]. left. reflexivity.
  - destruct Hwalked as [[Hzero _]|[Hprev [Hpbo [code [Hcode Hcounted]]]]];
      [lia|].
    split; [exact Hpbo|]. right. exists code. split; [exact Hcode|].
    unfold TokenStream.counted in Hcounted.
    destruct (is_bytecode code) eqn:Hbytecode.
    + split; [|split]; [|intros _; lia|].
      * unfold is_bytecode, is_ascii, kFirstBytecode, kAsciiCode in *. lia.
      * unfold is_bytecode, is_unicode, kFirstBytecode, kUnicodeCode in *.
        lia.
    + destruct (is_ascii code) eqn:Hcode_ascii.
      * exfalso. unfold is_ascii in Hcode_ascii.
        apply Z.eqb_eq in Hcode_ascii. subst code. lia.
      * split; [reflexivity|]. split; [discriminate|].
        intros Hcode_unicode. unfold is_unicode in Hcode_unicode.
        apply Z.eqb_eq in Hcode_unicode. subst code.
        destruct Hcounted as [b0 [b1 [b2 [Hb0 [Hb1 [Hb2 Hn]]]]]].
        unfold uc16_length in Hn.
        destruct (Z.ltb_spec (decode_unicode b0 b1 b2)
                    kMaxNonSurrogateCharCode) as [Hbelow|Habove];
          [lia|].
        split; [lia|]. exists b0, b1, b2. repeat split; assumption.
Qed.

End CursorInvariant.

(** The stream of the string U+FFFF, U+FFFF, U+0100: by one code unit
    from the start, into the escape of U+FFFF. *)
Lemma AdvanceCursor_sub_token_offset_witness :
  AdvanceCursor false SampleTable.token_lengths
    [1; 0; 255; 255; 1; 0; 255; 255; 1; 0; 1; 0] (mkCursor 0 0) 1
  = Ok (mkCursor 0 1)
  /\ byte_offset (mkCursor 0 0) <= byte_offset (mkCursor 0 1)
  /\ (sub_token_offset (mkCursor 0 1) = 0
      \/ exists code,
           at_ [1; 0; 255; 255; 1; 0; 255; 255; 1; 0; 1; 0]
             (byte_offset (mkCursor 0 1)) = Ok code
           /\ is_ascii code = false
           /\ (is_bytecode code = true ->
               0 < sub_token_offset (mkCursor 0 1)
                 < SampleTable.token_lengths code)
           /\ (is_unicode code = true ->
               sub_token_offset (mkCursor 0 1) = 1
               /\ exists b0 b1 b2,
                    at_ [1; 0; 255; 255; 1; 0; 255; 255; 1; 0; 1; 0]
                      (byte_offset (mkCursor 0 1) + 1) = Ok b0
                    /\ at_ [1; 0; 255; 255; 1; 0; 255; 255; 1; 0; 1; 0]
                         (byte_offset (mkCursor 0 1) + 1 + 1) = Ok b1
                    /\ at_ [1; 0; 255; 255; 1; 0; 255; 255; 1; 0; 1; 0]
                         (byte_offset (mkCursor 0 1) + 1 + 2) = Ok b2
                    /\ kMaxNonSurrogateCharCode
                       <= decode_unicode b0 b1 b2)).
Proof.
  split; [reflexivity|].
  apply (AdvanceCursor_sub_token_offset false SampleTable.token_lengths
           [1; 0; 255; 255; 1; 0; 255; 255; 1; 0; 1; 0] (mkCursor 0 0)
           (mkCursor 0 1) 1).
  - reflexivity.
  - reflexivity.
  - cbn. lia.
  - reflexivity.
Defined.

(** X12: [AdvanceCursor] has no check of its own against the end of the
    data: asked for more characters than the tokens from the cursor on
    hold, in a byte vector that ends with the tokens, it reads the byte
    behind the last one. *)
Theorem AdvanceCursor_past_the_end (debug : bool) (token_lengths : Z -> Z)
    (token_chars : Z -> list Z) (tokens : list token) (pre : list Z)
    (sub chars : Z) :
  code_table_ok token_lengths token_chars ->
  forallb valid_token tokens = true ->
  advance_of token_lengths tokens < chars + sub ->
  AdvanceCursor debug token_lengths (pre ++ stream_of tokens)
    (mkCursor (Z.of_nat (length pre)) sub) chars
  = Fault OutOfBounds.
Proof.
  intros Htable Hvalid Hchars.
  rewrite AdvanceCursor_finish. cbn [byte_offset sub_token_offset].
  rewrite (AdvanceCursor_loop_overrun debug token_lengths token_chars Htable);
    [reflexivity|exact Hvalid| |lia].
  rewrite length_app. pose proof (stream_of_length tokens). lia.
Qed.

(** The short stream holds 14 code units. *)
Lemma AdvanceCursor_past_the_end_witness :
  AdvanceCursor true SampleTable.token_lengths ([] ++ stream_of short_tokens)
    (mkCursor (Z.of_nat (length (@nil Z))) 0) 15
  = Fault OutOfBounds.
Proof.
  apply (AdvanceCursor_past_the_end true SampleTable.token_lengths
           SampleTable.token_chars short_tokens [] 0 15).
  - exact sample_table_ok.
  - reflexivity.
  - vm_compute. reflexivity.
Defined.

(** ** Ranges and destinations *)

Section AsciiRanges.

Variable debug : bool.
Variable token_lengths : Z -> Z.

Local Abbreviation IsAscii_loop :=
  (CompressedSourceCodec.IsAscii_loop debug token_lengths).

Lemma IsAscii_loop_shorter (data : list Z) (fuel : nat) :
  forall data_ptr chars shorter : Z,
  shorter <= chars ->
  IsAscii_loop fuel data data_ptr chars = Ok true ->
  IsAscii_loop fuel data data_ptr shorter = Ok true.
Proof.
  induction fuel as [|fuel IH]; intros data_ptr chars shorter Hle;
    cbn [CompressedSourceCodec.IsAscii_loop]; [discriminate|].
  destruct (Z.ltb_spec 0 shorter) as [Hpos|_]; [|reflexivity].
  destruct (Z.ltb_spec 0 chars) as [_|]; [|lia].
  destruct (ASSERT debug (data_ptr <? Z.of_nat (length data))); cbn [bind];
    [|discriminate].
  destruct (at_ data data_ptr) as [code|]; cbn [bind]; [|discriminate].
  destruct (is_bytecode code); cbn [negb]; [apply IH; lia|].
  destruct (is_ascii code).
  - destruct (ASSERT debug (data_ptr + 1 <? Z.of_nat (length data)));
      cbn [bind]; [|discriminate].
    apply IH. lia.
  - destruct (ASSERT debug (is_unicode code)); cbn [bind]; discriminate.
Qed.

(** X13: whatever the data and the code table, a range that [IsAscii]
    accepts stays accepted when it is shortened from its end: the walk over
    the shorter range reads a prefix of the same tokens. *)
Theorem IsAscii_shorter_range (data : list Z) (cursor : Cursor)
    (chars shorter : Z) :
  shorter <= chars ->
  IsAscii debug token_lengths data cursor chars = Ok true ->
  IsAscii debug token_lengths data cursor shorter = Ok true.
Proof.
  intros Hle. unfold IsAscii. apply IsAscii_loop_shorter. lia.
Qed.

End AsciiRanges.

Lemma write_chars_length (max n : Z) (src : list Z) :
  0 <= max -> Z.of_nat (length (write_chars max src n)) <= max.
Proof.
  intros Hmax. unfold write_chars.
  destruct (Z.leb_spec n max); rewrite length_firstn; lia.
Qed.

Section Destination.

Variable debug : bool.
Variable token_lengths : Z -> Z.
Variable token_chars : Z -> list Z.

Local Abbreviation Decode_loop :=
  (CompressedSourceCodec.Decode_loop debug token_lengths token_chars).
Local Abbreviation Decode_first_token :=
  (CompressedSourceCodec.Decode_first_token debug token_lengths token_chars).

Lemma Decode_loop_length (narrow : bool) (data : list Z) (fuel : nat) :
  forall (data_ptr room : Z) (out : list Z),
  Decode_loop fuel narrow data data_ptr room = Ok out ->
  Z.of_nat (length out) = Z.max 0 room.
Proof.
  induction fuel as [|fuel IH]; intros data_ptr room out;
    cbn [CompressedSourceCodec.Decode_loop]; [discriminate|].
  destruct (Z.ltb_spec 0 room) as [Hpos|Hnone];
    [|intros H; injection H as <-; cbn [length]; lia].
  destruct (ASSERT debug (data_ptr <? Z.of_nat (length data))); cbn [bind];
    [|discriminate].
  destruct (at_ data data_ptr) as [code|]; cbn [bind]; [|discriminate].
  destruct (is_bytecode code).
  - unfold decode_bytecode.
    pose proof (write_chars_length room (token_lengths code)
                  (token_chars code)) as Hwritten.
    destruct (Decode_loop fuel narrow data (data_ptr + 1) _) as [rest|]
      eqn:Hrest; cbn [bind]; [|discriminate].
    intros H. injection H as <-. apply IH in Hrest.
    rewrite length_app. lia.
  - destruct (is_ascii code).
    + destruct (ASSERT debug (data_ptr + 1 <? Z.of_nat (length data)));
        cbn [bind]; [|discriminate].
      destruct (at_ data (data_ptr + 1)) as [b|]; cbn [bind];
        [|discriminate].
      destruct (Decode_loop fuel narrow data (data_ptr + 1 + 1) _)
        as [rest|] eqn:Hrest; cbn [bind]; [|discriminate].
      intros H. injection H as <-. apply IH in Hrest. cbn [length]. lia.
    + destruct (ASSERT debug (is_unicode code)); cbn [bind];
        [|discriminate].
      destruct (ASSERT debug (data_ptr + 1 + 2 <? Z.of_nat (length data)));
        cbn [bind]; [|discriminate].
      destruct (at_ data (data_ptr + 1)) as [b0|]; cbn [bind];
        [|discriminate].
      destruct (at_ data (data_ptr + 1 + 1)) as [b1|]; cbn [bind];
        [|discriminate].
      destruct (at_ data (data_ptr + 1 + 2)) as [b2|]; cbn [bind];
        [|discriminate].
      destruct (write_as_utf16 debug narrow (decode_unicode b0 b1 b2) room)
        as [[n written]|] eqn:Hwrite; cbn [bind]; [|discriminate].
      destruct (Decode_loop fuel narrow data (data_ptr + 1 + 3) _)
        as [rest|] eqn:Hrest; cbn [bind]; [|discriminate].
      intros H. injection H as <-. apply IH in Hrest.
      rewrite length_app, Nat2Z.inj_add, Hrest.
      revert Hwrite. unfold write_as_utf16. destruct narrow.
      * destruct (UNREACHABLE debug); cbn [bind]; [|discriminate].
        intros H. injection H as <- <-. cbn [length]. lia.
      * destruct (decode_unicode b0 b1 b2 <=? kMaxNonSurrogateCharCode).
        -- intros H. injection H as <- <-.
           destruct (Z.leb_spec 1 room); cbn [length]; lia.
        -- destruct (ASSERT debug _); cbn [bind]; [|discriminate].
           intros H. injection H as <- <-.
           destruct (Z.leb_spec 1 room); destruct (Z.leb_spec 2 room);
             cbn [length app]; lia.
Qed.

Lemma copy_first_token_length (first_token : list Z) (n : nat) :
  forall (from : Z) (copied : list Z),
  copy_first_token n first_token from = Ok copied -> length copied = n.
Proof.
  induction n as [|n IH]; intros from copied; cbn [copy_first_token].
  - intros H. injection H as <-. reflexivity.
  - destruct (at_ first_token from); cbn [bind]; [|discriminate].
    destruct (copy_first_token n first_token (from + 1)) as [rest|] eqn:Hrest;
      cbn [bind]; [|discriminate].
    intros H. injection H as <-. cbn [length]. f_equal.
    exact (IH _ _ Hrest).
Qed.

(** What [Decode_first_token] copies is never more than the destination
    holds. *)
Lemma Decode_first_token_length (narrow : bool) (data : list Z)
    (cursor : Cursor) (dest_length data_ptr : Z) (dest : list Z) :
  0 <= dest_length ->
  Decode_first_token narrow data cursor dest_length = Ok (data_ptr, dest) ->
  Z.of_nat (length dest) <= dest_length.
Proof.
  intros Hlen. unfold CompressedSourceCodec.Decode_first_token.
  destruct (ASSERT debug (token_lengths 255 =? kMaxTokenLength));
    cbn [bind]; [|discriminate].
  destruct (ASSERT debug (sub_token_offset cursor <? kMaxTokenLength));
    cbn [bind]; [|discriminate].
  destruct (ASSERT debug (byte_offset cursor <? Z.of_nat (length data)));
    cbn [bind]; [|discriminate].
  destruct (at_ data (byte_offset cursor)) as [code|]; cbn [bind];
    [|discriminate].
  match goal with
  | |- bind ?token _ = _ -> _ =>
    destruct token as [[[ptr decoded_chars] first_token]|]; cbn [bind];
      [|discriminate]
  end.
  destruct (ASSERT debug (sub_token_offset cursor <? decoded_chars));
    cbn [bind]; [|discriminate].
  match goal with
  | |- bind (copy_first_token ?n _ _) _ = _ -> _ =>
    destruct (copy_first_token n first_token (sub_token_offset cursor))
      as [copied|] eqn:Hcopy; cbn [bind]; [|discriminate]
  end.
  intros H. injection H as _ <-.
  apply copy_first_token_length in Hcopy. rewrite Hcopy.
  destruct (Z.ltb_spec dest_length
              ((decoded_chars - sub_token_offset cursor) mod 2 ^ 32)); lia.
Qed.

(** X14: when [Decode] returns, it has written every element of the
    destination and none behind its end, whatever the data, the cursor and
    the code table: a token that does not fit is cut at the end of the
    destination, a surrogate pair after its leading half. *)
Theorem Decode_fills_the_destination (narrow : bool) (data : list Z)
    (cursor : Cursor) (dest_length : Z) (out : list Z) :
  0 <= dest_length ->
  Decode debug token_lengths token_chars narrow data cursor dest_length
  = Ok out ->
  Z.of_nat (length out) = dest_length.
Proof.
  intros Hlen. unfold Decode.
  destruct (negb (sub_token_offset cursor =? 0)).
  - destruct (Decode_first_token narrow data cursor dest_length)
      as [[data_ptr dest]|] eqn:Hfirst; cbn [bind]; [|discriminate].
    apply Decode_first_token_length in Hfirst; [|exact Hlen].
    destruct (Decode_loop (S (length data)) narrow data data_ptr _)
      as [rest|] eqn:Hrest; cbn [bind]; [|discriminate].
    intros H. injection H as <-. apply Decode_loop_length in Hrest.
    rewrite length_app. lia.
  - cbn [bind length].
    destruct (Decode_loop (S (length data)) narrow data _ _)
      as [rest|] eqn:Hrest; cbn [bind]; [|discriminate].
    intros H. injection H as <-. apply Decode_loop_length in Hrest.
    cbn [app]. lia.
Qed.

Lemma write_chars_shorter (room shorter n : Z) (src : list Z) :
  0 <= shorter <= room ->
  write_chars shorter src n
  = firstn (Z.to_nat shorter) (write_chars room src n).
Proof.
  intros Hle. unfold write_chars.
  destruct (Z.leb_spec n room), (Z.leb_spec n shorter); try lia;
    rewrite firstn_firstn; f_equal; lia.
Qed.

Lemma write_as_utf16_shorter (narrow : bool) (codepoint room shorter n : Z)
    (written : list Z) :
  0 < shorter <= room ->
  write_as_utf16 debug narrow codepoint room = Ok (n, written) ->
  write_as_utf16 debug narrow codepoint shorter
  = Ok (n, firstn (Z.to_nat shorter) written)
  /\ Z.to_nat (shorter - n) = (Z.to_nat shorter - length written)%nat.
Proof.
  intros Hle. unfold write_as_utf16. destruct narrow.
  - destruct (UNREACHABLE debug); cbn [bind]; [|discriminate].
    intros H. injection H as <- <-. rewrite firstn_nil. split; [reflexivity|].
    cbn [length]. lia.
  - destruct (codepoint <=? kMaxNonSurrogateCharCode).
    + intros H. injection H as <- <-.
      destruct (Z.leb_spec 1 room); [|lia].
      destruct (Z.leb_spec 1 shorter); [|lia].
      rewrite firstn_all2 by (cbn [length]; lia). split; [reflexivity|].
      cbn [length]. lia.
    + destruct (ASSERT debug (codepoint <=? kMaxCharCode)); cbn [bind];
        [|discriminate].
      intros H. injection H as <- <-.
      destruct (Z.leb_spec 1 room); [|lia].
      destruct (Z.leb_spec 1 shorter); [|lia].
      destruct (Z.leb_spec 2 room), (Z.leb_spec 2 shorter); try lia;
        cbn [app length].
      * rewrite firstn_all2 by (cbn [length]; lia). split; [reflexivity|lia].
      * replace (Z.to_nat shorter) with 1%nat by lia.
        split; [reflexivity|lia].
      * replace (Z.to_nat shorter) with 1%nat by lia.
        split; [reflexivity|lia].
Qed.

Lemma Decode_loop_shorter (narrow : bool) (data : list Z) (fuel : nat) :
  forall (data_ptr room shorter : Z) (out : list Z),
  shorter <= room ->
  Decode_loop fuel narrow data data_ptr room = Ok out ->
  Decode_loop fuel narrow data data_ptr shorter
  = Ok (firstn (Z.to_nat shorter) out).
Proof.
  induction fuel as [|fuel IH]; intros data_ptr room shorter out Hle;
    cbn [CompressedSourceCodec.Decode_loop]; [discriminate|].
  destruct (Z.ltb_spec 0 shorter) as [Hpos|Hnone];
    [|intros _; replace (Z.to_nat shorter) with 0%nat by lia; reflexivity].
  destruct (Z.ltb_spec 0 room) as [_|]; [|lia].
  destruct (ASSERT debug (data_ptr <? Z.of_nat (length data))); cbn [bind];
    [|discriminate].
  destruct (at_ data data_ptr) as [code|]; cbn [bind]; [|discriminate].
  destruct (is_bytecode code).
  - unfold decode_bytecode.
    rewrite (write_chars_shorter room shorter) by lia.
    pose proof (write_chars_length room (token_lengths code)
                  (token_chars code) ltac:(lia)) as Hwritten.
    set (written := write_chars room (token_chars code) (token_lengths code))
      in *.
    clearbody written.
    destruct (Decode_loop fuel narrow data (data_ptr + 1)
                (room - Z.of_nat (length written))) as [rest|] eqn:Hrest;
      cbn [bind]; [|discriminate].
    intros H. injection H as <-.
    assert (Hroom : shorter
                    - Z.of_nat (length (firstn (Z.to_nat shorter) written))
                    <= room - Z.of_nat (length written))
      by (rewrite length_firstn; lia).
    rewrite (IH _ _ _ _ Hroom Hrest).
    cbn [bind]. rewrite firstn_app. do 3 f_equal.
    rewrite length_firstn. lia.
  - destruct (is_ascii code).
    + destruct (ASSERT debug (data_ptr + 1 <? Z.of_nat (length data)));
        cbn [bind]; [|discriminate].
      destruct (at_ data (data_ptr + 1)) as [b|]; cbn [bind];
        [|discriminate].
      destruct (Decode_loop fuel narrow data (data_ptr + 1 + 1) (room - 1))
        as [rest|] eqn:Hrest; cbn [bind]; [|discriminate].
      intros H. injection H as <-.
      assert (Hroom : shorter - 1 <= room - 1) by lia.
      rewrite (IH _ _ _ _ Hroom Hrest). cbn [bind].
      replace (Z.to_nat shorter) with (S (Z.to_nat (shorter - 1))) by lia.
      reflexivity.
    + destruct (ASSERT debug (is_unicode code)); cbn [bind];
        [|discriminate].
      destruct (ASSERT debug (data_ptr + 1 + 2 <? Z.of_nat (length data)));
        cbn [bind]; [|discriminate].
      destruct (at_ data (data_ptr + 1)) as [b0|]; cbn [bind];
        [|discriminate].
      destruct (at_ data (data_ptr + 1 + 1)) as [b1|]; cbn [bind];
        [|discriminate].
      destruct (at_ data (data_ptr + 1 + 2)) as [b2|]; cbn [bind];
        [|discriminate].
      destruct (write_as_utf16 debug narrow (decode_unicode b0 b1 b2) room)
        as [[n written]|] eqn:Hwrite; cbn [bind]; [|discriminate].
      assert (Hboth : 0 < shorter <= room) by lia.
      destruct (write_as_utf16_shorter _ _ _ shorter _ _ Hboth Hwrite)
        as [-> Hroom].
      cbn [bind].
      destruct (Decode_loop fuel narrow data (data_ptr + 1 + 3) (room - n))
        as [rest|] eqn:Hrest; cbn [bind]; [|discriminate].
      intros H. injection H as <-.
      assert (Hless : shorter - n <= room - n) by lia.
      rewrite (IH _ _ _ _ Hless Hrest). cbn [bind].
      rewrite firstn_app, Hroom. reflexivity.
Qed.

Lemma copy_first_token_shorter (first_token : list Z) (n : nat) :
  forall (from : Z) (copied : list Z) (shorter : nat),
  (shorter <= n)%nat ->
  copy_first_token n first_token from = Ok copied ->
  copy_first_token shorter first_token from = Ok (firstn shorter copied).
Proof.
  induction n as [|n IH]; intros from copied shorter Hle;
    cbn [copy_first_token].
  - intros H. injection H as <-. replace shorter with 0%nat by lia.
    reflexivity.
  - destruct (at_ first_token from) as [x|] eqn:Hx; cbn [bind];
      [|discriminate].
    destruct (copy_first_token n first_token (from + 1)) as [rest|] eqn:Hrest;
      cbn [bind]; [|discriminate].
    intros H. injection H as <-.
    destruct shorter as [|shorter]; [reflexivity|].
    cbn [copy_first_token firstn]. rewrite Hx. cbn [bind].
    assert (Hless : (shorter <= n)%nat) by lia.
    rewrite (IH _ _ shorter Hless Hrest). reflexivity.
Qed.

Lemma Decode_first_token_shorter (narrow : bool) (data : list Z)
    (cursor : Cursor) (dest_length shorter data_ptr : Z) (dest : list Z) :
  0 <= shorter <= dest_length ->
  Decode_first_token narrow data cursor dest_length = Ok (data_ptr, dest) ->
  Decode_first_token narrow data cursor shorter
  = Ok (data_ptr, firstn (Z.to_nat shorter) dest).
Proof.
  intros Hle. unfold CompressedSourceCodec.Decode_first_token.
  destruct (ASSERT debug (token_lengths 255 =? kMaxTokenLength));
    cbn [bind]; [|discriminate].
  destruct (ASSERT debug (sub_token_offset cursor <? kMaxTokenLength));
    cbn [bind]; [|discriminate].
  destruct (ASSERT debug (byte_offset cursor <? Z.of_nat (length data)));
    cbn [bind]; [|discriminate].
  destruct (at_ data (byte_offset cursor)) as [code|]; cbn [bind];
    [|discriminate].
  match goal with
  | |- bind ?token _ = _ -> _ =>
    destruct token as [[[ptr decoded_chars] first_token]|]; cbn [bind];
      [|discriminate]
  end.
  destruct (ASSERT debug (sub_token_offset cursor <? decoded_chars));
    cbn [bind]; [|discriminate].
  set (left := (decoded_chars - sub_token_offset cursor) mod 2 ^ 32).
  assert (Hleft : 0 <= left) by (subst left; lia).
  clearbody left.
  destruct (copy_first_token
              (Z.to_nat (if dest_length <? left then dest_length else left))
              first_token (sub_token_offset cursor))
    as [copied|] eqn:Hcopy; cbn [bind]; [|discriminate].
  intros H. injection H as <- <-.
  pose proof (copy_first_token_length _ _ _ _ Hcopy) as Hlength.
  assert (Hless : (Z.to_nat (if (shorter <? left)%Z then shorter else left)
                   <= Z.to_nat (if (dest_length <? left)%Z
                                then dest_length else left))%nat)
    by (destruct (Z.ltb_spec shorter left), (Z.ltb_spec dest_length left);
        lia).
  rewrite (copy_first_token_shorter _ _ _ _ _ Hless Hcopy).
  cbn [bind]. do 2 f_equal.
  destruct (Z.ltb_spec shorter left); [reflexivity|].
  rewrite !firstn_all2; [reflexivity| |];
    destruct (Z.ltb_spec dest_length left); lia.
Qed.

(** X15: a token that does not fit is cut cleanly: what [Decode] writes to
    a shorter destination is the beginning of what it writes to a longer
    one from the same cursor, whatever the data and the code table. *)
Theorem Decode_shorter_destination (narrow : bool) (data : list Z)
    (cursor : Cursor) (dest_length shorter : Z) (out : list Z) :
  0 <= shorter <= dest_length ->
  Decode debug token_lengths token_chars narrow data cursor dest_length
  = Ok out ->
  Decode debug token_lengths token_chars narrow data cursor shorter
  = Ok (firstn (Z.to_nat shorter) out).
Proof.
  intros Hle. unfold Decode.
  destruct (negb (sub_token_offset cursor =? 0)).
  - destruct (Decode_first_token narrow data cursor dest_length)
      as [[data_ptr dest]|] eqn:Hfirst; cbn [bind]; [|discriminate].
    assert (Hpos : 0 <= dest_length) by lia.
    pose proof (Decode_first_token_length _ _ _ _ _ _ Hpos Hfirst)
      as Hdest.
    rewrite (Decode_first_token_shorter _ _ _ _ shorter _ _ Hle Hfirst).
    cbn [bind].
    destruct (Decode_loop (S (length data)) narrow data data_ptr
                (dest_length - Z.of_nat (length dest)))
      as [rest|] eqn:Hrest; cbn [bind]; [|discriminate].
    intros H. injection H as <-.
    assert (Hroom : shorter
                    - Z.of_nat (length (firstn (Z.to_nat shorter) dest))
                    <= dest_length - Z.of_nat (length dest))
      by (rewrite length_firstn; lia).
    rewrite (Decode_loop_shorter _ _ _ _ _ _ _ Hroom Hrest).
    cbn [bind]. rewrite firstn_app. do 3 f_equal.
    rewrite length_firstn. lia.
  - cbn [bind length app].
    destruct (Decode_loop (S (length data)) narrow data (byte_offset cursor)
                (dest_length - Z.of_nat 0)) as [rest|] eqn:Hrest;
      cbn [bind]; [|discriminate].
    intros H. injection H as <-.
    assert (Hroom : shorter - Z.of_nat 0 <= dest_length - Z.of_nat 0) by lia.
    rewrite (Decode_loop_shorter _ _ _ _ _ _ _ Hroom Hrest).
    cbn [bind]. do 2 f_equal. lia.
Qed.

End Destination.

(** ** The destination of ASCII ranges *)

Section NarrowDestination.

Variable debug : bool.
Variable token_lengths : Z -> Z.
Variable token_chars : Z -> list Z.

Hypothesis table_ok : code_table_ok token_lengths token_chars.

Local Abbreviation IsAscii_loop :=
  (CompressedSourceCodec.IsAscii_loop debug token_lengths).
Local Abbreviation Decode_loop :=
  (CompressedSourceCodec.Decode_loop debug token_lengths token_chars).

Lemma at_byte (data : list Z) (i code : Z) :
  Forall (fun b => 0 <= b <= 255) data ->
  at_ data i = Ok code -> 0 <= code <= 255.
Proof.
  intros Hbytes. unfold at_. destruct (i <? 0); [discriminate|].
  destruct (nth_error data (Z.to_nat i)) as [x|] eqn:Hnth; [|discriminate].
  intros H. injection H as <-. apply nth_error_In in Hnth.
  rewrite Forall_forall in Hbytes. apply Hbytes, Hnth.
Qed.

(** The characters a bytecode writes to a destination with [room]. *)
Lemma decode_bytecode_written (code room : Z) :
  0 <= code <= 255 ->
  is_bytecode code = true ->
  0 < room ->
  Z.of_nat (length (snd (decode_bytecode token_lengths token_chars code room)))
  = Z.min room (token_lengths code)
  /\ fst (decode_bytecode token_lengths token_chars code room)
     = Z.min room (token_lengths code)
  /\ 1 <= token_lengths code <= kMaxTokenLength.
Proof.
  intros Hbyte Hcode Hroom.
  destruct (table_bytecode token_lengths token_chars table_ok code)
    as [Hrange Hchars].
  { unfold is_bytecode in Hcode. rewrite Hcode.
    apply Z.leb_le. unfold kLastBytecode. lia. }
  unfold decode_bytecode, write_chars, kMaxTokenLength. cbn [fst snd].
  destruct (Z.leb_spec (token_lengths code) room);
    rewrite length_firstn; lia.
Qed.

(** While [IsAscii] accepts the characters ahead, the whole-token loop of
    [Decode] meets no Unicode escape and does the same for a [char] and for
    a [uc16] destination. *)
Lemma Decode_loop_narrow (data : list Z) (fuel : nat) :
  Forall (fun b => 0 <= b <= 255) data ->
  forall (ascii_fuel : nat) (data_ptr room chars : Z),
  (0 < room -> room <= chars) ->
  IsAscii_loop ascii_fuel data data_ptr chars = Ok true ->
  Decode_loop fuel true data data_ptr room
  = Decode_loop fuel false data data_ptr room.
Proof.
  intros Hbytes.
  induction fuel as [|fuel IH]; intros ascii_fuel data_ptr room chars Hroom;
    cbn [CompressedSourceCodec.Decode_loop]; [reflexivity|].
  destruct (Z.ltb_spec 0 room) as [Hpos|_]; [|reflexivity].
  destruct ascii_fuel as [|ascii_fuel];
    cbn [CompressedSourceCodec.IsAscii_loop]; [discriminate|].
  destruct (Z.ltb_spec 0 chars) as [_|]; [|lia].
  destruct (ASSERT debug (data_ptr <? Z.of_nat (length data))); cbn [bind];
    [|reflexivity].
  destruct (at_ data data_ptr) as [code|] eqn:Hcode; cbn [bind];
    [|reflexivity].
  pose proof (at_byte _ _ _ Hbytes Hcode) as Hbyte.
  destruct (is_bytecode code) eqn:Hbytecode; cbn [negb].
  - destruct (decode_bytecode_written code room Hbyte Hbytecode Hpos)
      as [_ [Hn Hlength]].
    destruct (decode_bytecode token_lengths token_chars code room)
      as [n written].
    cbn [fst] in Hn. intros Hascii.
    assert (Hless : 0 < room - n -> room - n <= chars - token_lengths code)
      by lia.
    rewrite (IH _ _ _ _ Hless Hascii). reflexivity.
  - destruct (is_ascii code) eqn:Hcode_ascii.
    + destruct (ASSERT debug (data_ptr + 1 <? Z.of_nat (length data)));
        cbn [bind]; [|reflexivity].
      destruct (at_ data (data_ptr + 1)) as [b|]; cbn [bind];
        [|reflexivity].
      intros Hascii.
      assert (Hless : 0 < room - 1 -> room - 1 <= chars - token_lengths code).
      { unfold is_ascii in Hcode_ascii. apply Z.eqb_eq in Hcode_ascii.
        subst code. destruct table_ok as [Hlength _].
        unfold kAsciiCode in *. lia. }
      rewrite (IH _ _ _ _ Hless Hascii). reflexivity.
    + destruct (ASSERT debug (is_unicode code)); cbn [bind]; discriminate.
Qed.

(** X16: for data that are bytes and a code table as [Encode] asserts it,
    a range that [IsAscii] accepts is decoded to a [char] destination
    exactly as to a [uc16] destination: the two calls of [Decode] in
    [Decompress] differ only in the overload of [write_as_utf16], and the
    one for [char], which is unreachable code, is not called on such a
    range. *)
Theorem Decode_narrow_as_wide (data : list Z) (cursor : Cursor)
    (dest_length : Z) :
  Forall (fun b => 0 <= b <= 255) data ->
  0 <= dest_length ->
  0 <= sub_token_offset cursor ->
  IsAscii debug token_lengths data cursor dest_length = Ok true ->
  Decode debug token_lengths token_chars true data cursor dest_length
  = Decode debug token_lengths token_chars false data cursor dest_length.
Proof.
  intros Hbytes Hlength Hsub. unfold IsAscii, Decode.
  destruct (Z.eqb_spec (sub_token_offset cursor) 0) as [Hzero|Hne];
    cbn [negb bind length].
  - intros Hascii.
    assert (Hless : 0 < dest_length - Z.of_nat 0 ->
                    dest_length - Z.of_nat 0
                    <= dest_length + sub_token_offset cursor) by lia.
    rewrite (Decode_loop_narrow _ _ Hbytes _ _ _ _ Hless Hascii).
    reflexivity.
  - cbn [CompressedSourceCodec.IsAscii_loop].
    destruct (Z.ltb_spec 0 (dest_length + sub_token_offset cursor)); [|lia].
    unfold Decode_first_token.
    destruct (ASSERT debug (token_lengths 255 =? kMaxTokenLength));
      cbn [bind];
      [|destruct (ASSERT debug _); cbn [bind]; reflexivity].
    destruct (ASSERT debug (sub_token_offset cursor <? kMaxTokenLength));
      cbn [bind];
      [|destruct (ASSERT debug _); cbn [bind]; reflexivity].
    destruct (ASSERT debug (byte_offset cursor <? Z.of_nat (length data)));
      cbn [bind]; [|reflexivity].
    destruct (at_ data (byte_offset cursor)) as [code|] eqn:Hcode;
      cbn [bind]; [|reflexivity].
    pose proof (at_byte _ _ _ Hbytes Hcode) as Hbyte.
    destruct (is_bytecode code) eqn:Hbytecode; cbn [negb].
    + assert (Hnine : 0 < kMaxTokenLength) by (unfold kMaxTokenLength; lia).
      destruct (decode_bytecode_written code kMaxTokenLength Hbyte Hbytecode
                  Hnine) as [_ [Hn Hrange]].
      destruct (decode_bytecode token_lengths token_chars code
                  kMaxTokenLength) as [n first_token].
      cbn [fst] in Hn. cbn [bind].
      destruct (ASSERT debug (sub_token_offset cursor <? n)); cbn [bind];
        [|reflexivity].
      set (left := (n - sub_token_offset cursor) mod 2 ^ 32).
      assert (Hleft : 0 <= left
                      /\ (0 < n - sub_token_offset cursor ->
                          left = n - sub_token_offset cursor))
        by (subst left; unfold kMaxTokenLength in *; lia).
      clearbody left.
      destruct (copy_first_token
                  (Z.to_nat (if dest_length <? left
                             then dest_length else left))
                  first_token (sub_token_offset cursor))
        as [copied|] eqn:Hcopy; cbn [bind]; [|reflexivity].
      apply copy_first_token_length in Hcopy.
      intros Hascii.
      assert (Hless : 0 < dest_length - Z.of_nat (length copied) ->
                      dest_length - Z.of_nat (length copied)
                      <= dest_length + sub_token_offset cursor
                         - token_lengths code)
        by (rewrite Hcopy; destruct (Z.ltb_spec dest_length left); lia).
      rewrite (Decode_loop_narrow _ _ Hbytes _ _ _ _ Hless Hascii).
      reflexivity.
    + destruct (is_ascii code) eqn:Hcode_ascii.
      * destruct (UNREACHABLE debug); cbn [bind];
          [|destruct (ASSERT debug _); cbn [bind]; reflexivity].
        destruct (ASSERT debug
                    (byte_offset cursor + 1 <? Z.of_nat (length data)));
          cbn [bind]; [|reflexivity].
        destruct (at_ data (byte_offset cursor + 1)) as [b|]; cbn [bind];
          [|reflexivity].
        destruct (ASSERT debug (sub_token_offset cursor <? 1)); cbn [bind];
          [|reflexivity].
        set (left := (1 - sub_token_offset cursor) mod 2 ^ 32).
        assert (Hleft : 0 <= left) by (subst left; lia).
        clearbody left.
        destruct (copy_first_token
                    (Z.to_nat (if dest_length <? left
                               then dest_length else left))
                    [b] (sub_token_offset cursor))
          as [copied|] eqn:Hcopy; cbn [bind]; [|reflexivity].
        apply copy_first_token_length in Hcopy.
        intros Hascii.
        assert (Hless : 0 < dest_length - Z.of_nat (length copied) ->
                        dest_length - Z.of_nat (length copied)
                        <= dest_length + sub_token_offset cursor
                           - token_lengths code).
        { unfold is_ascii in Hcode_ascii. apply Z.eqb_eq in Hcode_ascii.
          subst code. destruct table_ok as [Hone _].
          unfold kAsciiCode in *. rewrite Hcopy.
          destruct (Z.ltb_spec dest_length left); lia. }
        rewrite (Decode_loop_narrow _ _ Hbytes _ _ _ _ Hless Hascii).
        reflexivity.
      * destruct (ASSERT debug (is_unicode code)); cbn [bind]; discriminate.
Qed.

End NarrowDestination.

(** The first eleven code units of the short stream, from inside
    "function ". *)
Lemma Decode_narrow_as_wide_witness :
  IsAscii true SampleTable.token_lengths short_data (mkCursor 2 3) 7
  = Ok true
  /\ Decode true SampleTable.token_lengths SampleTable.token_chars true
       short_data (mkCursor 2 3) 7
     = Decode true SampleTable.token_lengths SampleTable.token_chars false
         short_data (mkCursor 2 3) 7.
Proof.
  split; [reflexivity|].
  apply (Decode_narrow_as_wide true SampleTable.token_lengths
           SampleTable.token_chars sample_table_ok short_data
           (mkCursor 2 3) 7).
  - vm_compute. repeat (apply Forall_cons; [split; discriminate|]).
    apply Forall_nil.
  - lia.
  - cbn. lia.
  - reflexivity.
Defined.

(** Two code units from the trailing half of the surrogate pair of the
    short stream on. *)
Lemma Decode_fills_the_destination_witness :
  Decode true SampleTable.token_lengths SampleTable.token_chars false
    short_data (mkCursor 5 1) 2 = Ok [56832; 66]
  /\ Z.of_nat (length [56832; 66]) = 2.
Proof.
  split; [reflexivity|].
  apply (Decode_fills_the_destination true SampleTable.token_lengths
           SampleTable.token_chars false short_data (mkCursor 5 1) 2
           [56832; 66]).
  - lia.
  - reflexivity.
Defined.

(** From the fourth code unit of "function " in the short stream:
    thirteen code units with the leading half of the pair at their end, and
    the first seven of them, cut inside the token. *)
Lemma Decode_shorter_destination_witness :
  Decode true SampleTable.token_lengths SampleTable.token_chars false
    short_data (mkCursor 2 3) 9
  = Ok [99; 116; 105; 111; 110; 32; 10; 55357; 56832]
  /\ Decode true SampleTable.token_lengths SampleTable.token_chars false
       short_data (mkCursor 2 3) 8
     = Ok (firstn (Z.to_nat 8)
             [99; 116; 105; 111; 110; 32; 10; 55357; 56832]).
Proof.
  split; [reflexivity|].
  apply (Decode_shorter_destination true SampleTable.token_lengths
           SampleTable.token_chars false short_data (mkCursor 2 3) 9 8
           [99; 116; 105; 111; 110; 32; 10; 55357; 56832]).
  - lia.
  - reflexivity.
Defined.

(** The first 1024 code units of the sample stream, and the first eleven
    of them. *)
Lemma IsAscii_shorter_range_witness :
  IsAscii true SampleTable.token_lengths sample_data (mkCursor 0 0) 1024
  = Ok true
  /\ IsAscii true SampleTable.token_lengths sample_data (mkCursor 0 0) 11
     = Ok true.
Proof.
  assert (H : IsAscii true SampleTable.token_lengths sample_data
                (mkCursor 0 0) 1024 = Ok true) by (vm_compute; reflexivity).
  split; [exact H|].
  apply (IsAscii_shorter_range true SampleTable.token_lengths sample_data
           (mkCursor 0 0) 1024 11).
  - lia.
  - exact H.
Defined.

(** ** The code units of an ASCII range *)

Section AsciiUnits.

Variable debug : bool.
Variable token_lengths : Z -> Z.
Variable token_chars : Z -> list Z.

Hypothesis table_ok : code_table_ok token_lengths token_chars.

Local Abbreviation ascii_unit := (fun u : Z => 0 <= u <= 127).
Local Abbreviation ascii_unless_escaped :=
  (fun (u : Z) (escaped : bool) => escaped = false -> 0 <= u <= 127).

Lemma Forall2_constant (units : list Z) (escaped : bool) :
  (escaped = false -> Forall ascii_unit units) ->
  Forall2 ascii_unless_escaped units (map (fun _ => escaped) units).
Proof.
  intros Hunits. induction units as [|u units IH]; cbn [map];
    constructor.
  - intros Hfalse. specialize (Hunits Hfalse).
    apply Forall_inv in Hunits. exact Hunits.
  - apply IH. intros Hfalse. specialize (Hunits Hfalse).
    apply Forall_inv_tail in Hunits. exact Hunits.
Qed.

Lemma units_ascii_unless_escaped (tokens : list token) :
  Forall (ascii_token token_chars) tokens ->
  Forall2 ascii_unless_escaped (units_of token_chars tokens)
    (from_unicode_escape token_chars tokens).
Proof.
  induction tokens as [|t tokens IH]; intros Htokens; [constructor|].
  change (units_of token_chars (t :: tokens))
    with (token_units token_chars t ++ units_of token_chars tokens).
  change (from_unicode_escape token_chars (t :: tokens))
    with (map (fun _ => is_unicode_escape t) (token_units token_chars t)
          ++ from_unicode_escape token_chars tokens).
  apply Forall2_app.
  - apply Forall2_constant. intros Hescape.
    apply Forall_inv in Htokens.
    destruct t as [code|b|b0 b1 b2]; cbn in *.
    + exact Htokens.
    + constructor; [exact Htokens|constructor].
    + discriminate Hescape.
  - apply IH. apply Forall_inv_tail in Htokens. exact Htokens.
Qed.

Lemma Forall2_range {A B : Type} (R : A -> B -> Prop) (n k : nat) :
  forall (a : list A) (b : list B),
  Forall2 R a b ->
  Forall2 R (firstn n (skipn k a)) (firstn n (skipn k b)).
Proof.
  revert n. induction k as [|k IHk]; intros n a b Hab.
  - cbn [skipn]. revert n.
    induction Hab as [|x y a b Hxy Hab IH]; intros [|n]; cbn [firstn];
      constructor; [exact Hxy|apply IH].
  - destruct Hab as [|x y a b Hxy Hab]; cbn [skipn].
    + destruct n; constructor.
    + apply IHk, Hab.
Qed.

Lemma ascii_when_none_escaped (units : list Z) (escaped : list bool) :
  Forall2 ascii_unless_escaped units escaped ->
  existsb (fun e => e) escaped = false ->
  Forall ascii_unit units.
Proof.
  induction 1 as [|u e units escaped Hu Hrest IH]; cbn [existsb];
    intros Hnone; [constructor|].
  apply orb_false_iff in Hnone as [He Hnone].
  constructor; [exact (Hu He)|exact (IH Hnone)].
Qed.

(** X25: on a well-formed stream whose dictionary tokens expand to ASCII
    and whose ASCII escapes carry ASCII bytes, every code unit of a range
    that is not empty and that [IsAscii] accepts is at most [0x7F]: what
    [Decompress] writes to the one-byte string it allocates for such a
    range fits its characters. *)
Theorem IsAscii_units_are_ascii (data : list Z) (char_length : Z)
    (tokens : list token) (start length_ : Z) (cursor : Cursor) :
  well_formed token_lengths token_chars debug data char_length tokens ->
  Forall (ascii_token token_chars) tokens ->
  0 <= start -> 0 < length_ -> start + length_ <= char_length ->
  GetCursor debug token_lengths data start char_length = Ok cursor ->
  IsAscii debug token_lengths data cursor length_ = Ok true ->
  Forall (fun u => 0 <= u <= 127)
    (NewSubString (units_of token_chars tokens) start (start + length_)).
Proof.
  intros Hwf Htokens Hstart Hlength Hle.
  rewrite (GetCursor_cursor_at debug token_lengths token_chars table_ok data
             char_length tokens start Hwf) by lia.
  intros H. injection H as <-.
  rewrite (IsAscii_cursor_at debug token_lengths token_chars table_ok data
             char_length tokens start length_ Hwf) by lia.
  destruct (Z.eqb_spec length_ 0); [lia|].
  intros H. injection H as Hnone. apply negb_true_iff in Hnone.
  unfold range_has_unicode_escape in Hnone. unfold NewSubString.
  replace (start + length_ - start) with length_ by lia.
  apply (ascii_when_none_escaped _ _
           (Forall2_range _ _ _ _ _
              (units_ascii_unless_escaped tokens Htokens)) Hnone).
Qed.

End AsciiUnits.

(** The nine code units "function " of the short stream. *)
Lemma IsAscii_units_are_ascii_witness :
  Forall (fun u => 0 <= u <= 127)
    (NewSubString (units_of SampleTable.token_chars short_tokens) 1 (1 + 9)).
Proof.
  apply (IsAscii_units_are_ascii true SampleTable.token_lengths
           SampleTable.token_chars sample_table_ok short_data 14
           short_tokens 1 9 (mkCursor 2 0) (short_well_formed true)).
  - repeat (apply Forall_cons;
              [first [exact I | cbn; lia | apply sample_tokens_ascii]|]).
    apply Forall_nil.
  - lia.
  - lia.
  - lia.
  - reflexivity.
  - reflexivity.
Defined.

(** ** Sources *)

(** The nine code units "function " of the short source, which has no
    cached string; the range is ASCII and is decoded to a [char]
    destination. *)
Lemma Decompress_units_witness :
  Decompress true SampleTable.token_lengths SampleTable.token_chars
    short_source 1 9
  = Ok [102; 117; 110; 99; 116; 105; 111; 110; 32]
  /\ Decompress true SampleTable.token_lengths SampleTable.token_chars
       short_source 1 9
     = Ok (NewSubString (units_of SampleTable.token_chars short_tokens)
             1 (1 + 9)).
Proof.
  split; [reflexivity|].
  apply (Decompress_units true SampleTable.token_lengths
           SampleTable.token_chars sample_table_ok short_source short_tokens
           1 9).
  - apply short_source_well_formed.
  - lia.
  - lia.
  - cbn. lia.
Defined.

Section LineNumbers.

Variable debug : bool.
Variable token_lengths : Z -> Z.
Variable token_chars : Z -> list Z.

Hypothesis table_ok : code_table_ok token_lengths token_chars.

(** X19: on a well-formed source, with or without its cached string,
    [GetLineNumberSlow(pos)] for a position up to the length is the number
    of line feeds among the first [pos] code units the tokens decode to;
    for a position that is 0 or negative it is 0. *)
Theorem GetLineNumberSlow_counts_line_feeds (source : CompressedSource)
    (tokens : list token) (pos : Z) :
  well_formed_source token_lengths token_chars debug source tokens ->
  pos <= char_length source ->
  GetLineNumberSlow debug token_lengths token_chars source pos
  = Ok (count_line_feeds
          (firstn (Z.to_nat pos) (units_of token_chars tokens))).
Proof.
  intros [Hwf _] Hpos. unfold GetLineNumberSlow.
  destruct (Z.ltb_spec (char_length source) pos); [lia|].
  assert (Hvalid : forallb valid_token tokens = true) by apply Hwf.
  assert (Hlength : Z.of_nat (length (units_of token_chars tokens))
                    = char_length source) by apply Hwf.
  rewrite <- (cursor_at_start token_lengths token_chars table_ok tokens Hvalid).
  rewrite (GetLineNumberSlow_loop_units debug token_lengths token_chars
             table_ok (bytes source) (char_length source) tokens);
    [reflexivity|exact Hwf|lia|lia].
Qed.

End LineNumbers.

(** The short source has a line feed at position 0 and one at position
    10. *)
Lemma GetLineNumberSlow_counts_line_feeds_witness :
  GetLineNumberSlow true SampleTable.token_lengths SampleTable.token_chars
    short_source 10 = Ok 1
  /\ GetLineNumberSlow true SampleTable.token_lengths SampleTable.token_chars
       short_source 10
     = Ok (count_line_feeds
             (firstn (Z.to_nat 10)
                (units_of SampleTable.token_chars short_tokens))).
Proof.
  split; [reflexivity|].
  apply (GetLineNumberSlow_counts_line_feeds true SampleTable.token_lengths
           SampleTable.token_chars sample_table_ok short_source short_tokens
           10).
  - apply short_source_well_formed.
  - cbn. lia.
Defined.

(** ** The loops end *)

Section LoopsEnd.

Variable debug : bool.
Variable token_lengths : Z -> Z.
Variable token_chars : Z -> list Z.

Lemma UNREACHABLE_fault (f : fault) :
  UNREACHABLE debug = Fault f -> f = UnreachableCode.
Proof. unfold UNREACHABLE. destruct debug; congruence. Qed.

(** What is left of a computation that ran out of fuel: the call of the
    loop that did. *)
Ltac out_of_fuel :=
  repeat match goal with
  | H : bind _ _ = Fault OutOfFuel |- _ =>
    apply bind_fault in H; destruct H as [H|[? [? H]]]
  | H : ASSERT _ _ = Fault OutOfFuel |- _ =>
    apply ASSERT_fault in H; discriminate
  | H : UNREACHABLE _ = Fault OutOfFuel |- _ =>
    apply UNREACHABLE_fault in H; discriminate
  | H : at_ _ _ = Fault OutOfFuel |- _ =>
    apply at_fault in H; discriminate
  | H : copy_first_token _ _ _ = Fault OutOfFuel |- _ =>
    apply copy_first_token_fault in H; discriminate
  | H : Ok _ = Fault _ |- _ => discriminate
  | H : (if ?c then _ else _) = Fault OutOfFuel |- _ => destruct c eqn:?
  | H : match ?p with pair _ _ => _ end = Fault OutOfFuel |- _ =>
    destruct p
  | H : at_ _ _ = Ok _ |- _ => apply at_inside in H
  end.

Lemma AdvanceCursor_loop_ends (data : list Z) (chars : Z) (fuel : nat) :
  forall byte_offset chars_written prev_byte_offset prev_chars_written : Z,
  fuel_left data byte_offset fuel ->
  AdvanceCursor_loop debug token_lengths fuel data chars byte_offset
    chars_written prev_byte_offset prev_chars_written
  <> Fault OutOfFuel.
Proof.
  induction fuel as [|fuel IH]; intros bo cw pbo pcw [Hone Hleft] H; [lia|].
  cbn [AdvanceCursor_loop] in H. out_of_fuel;
    (eapply IH; [|eassumption]); unfold fuel_left; lia.
Qed.

Lemma IsAscii_loop_ends (data : list Z) (fuel : nat) :
  forall data_ptr chars : Z,
  fuel_left data data_ptr fuel ->
  IsAscii_loop debug token_lengths fuel data data_ptr chars
  <> Fault OutOfFuel.
Proof.
  induction fuel as [|fuel IH]; intros data_ptr chars [Hone Hleft] H; [lia|].
  cbn [IsAscii_loop] in H. out_of_fuel;
    (eapply IH; [|eassumption]); unfold fuel_left; lia.
Qed.

Lemma write_as_utf16_fault (narrow : bool) (codepoint dest_len : Z) :
  write_as_utf16 debug narrow codepoint dest_len <> Fault OutOfFuel.
Proof.
  unfold write_as_utf16. intros H. out_of_fuel.
Qed.

Lemma Decode_loop_ends (narrow : bool) (data : list Z) (fuel : nat) :
  forall data_ptr room : Z,
  fuel_left data data_ptr fuel ->
  Decode_loop debug token_lengths token_chars fuel narrow data data_ptr room
  <> Fault OutOfFuel.
Proof.
  induction fuel as [|fuel IH]; intros data_ptr room [Hone Hleft] H; [lia|].
  cbn [Decode_loop] in H. unfold decode_bytecode in H. out_of_fuel;
    try (eapply IH; [|eassumption]; unfold fuel_left; lia).
  eapply write_as_utf16_fault. eassumption.
Qed.

(** X26: the loops of [AdvanceCursor], [IsAscii] and [Decode] end,
    whatever the data, the cursor and the code table: every iteration reads
    the byte at its offset and moves past it, so that the byte vector is
    left, by a result or by a read outside it, after as many iterations as
    it has bytes at most. *)
Theorem codec_loops_end (narrow : bool) (data : list Z) (cursor : Cursor)
    (chars : Z) :
  AdvanceCursor debug token_lengths data cursor chars <> Fault OutOfFuel
  /\ IsAscii debug token_lengths data cursor chars <> Fault OutOfFuel
  /\ Decode debug token_lengths token_chars narrow data cursor chars
     <> Fault OutOfFuel.
Proof.
  assert (Hstart : forall offset : Z,
            fuel_left data offset (S (length data)))
    by (intros offset; unfold fuel_left; lia).
  split; [|split].
  - unfold AdvanceCursor. intros H.
    apply bind_fault in H. destruct H as [H|[? [? H]]].
    + exact (AdvanceCursor_loop_ends _ _ _ _ _ _ _ (Hstart _) H).
    + out_of_fuel.
  - unfold IsAscii. apply IsAscii_loop_ends, Hstart.
  - unfold Decode. intros H.
    apply bind_fault in H. destruct H as [H|[[data_ptr dest] [_ H]]].
    + destruct (negb (sub_token_offset cursor =? 0)); [|discriminate H].
      unfold Decode_first_token, decode_bytecode in H. out_of_fuel.
      eapply write_as_utf16_fault. eassumption.
    + apply bind_fault in H. destruct H as [H|[? [? H]]]; [|discriminate H].
      exact (Decode_loop_ends _ _ _ _ _ (Hstart _) H).
Qed.

End LoopsEnd.

(** ** The scanner's count and the decoder's *)

(** X21: the number of characters the scanner counts for a Unicode escape
    ([uc16_length]) is the number of code units the decoder reports for it
    ([write_as_utf16] to a [uc16] destination) for every payload but one:
    the two differ exactly at the code point [0xFFFF], which the scanner
    counts as two and the decoder writes as one. *)
Theorem uc16_length_as_written (debug : bool) (b0 b1 b2 dest_len n : Z)
    (written : list Z) :
  write_as_utf16 debug false (decode_unicode b0 b1 b2) dest_len
  = Ok (n, written) ->
  (uc16_length b0 b1 b2 = n
   <-> decode_unicode b0 b1 b2 <> kMaxNonSurrogateCharCode)
  /\ (decode_unicode b0 b1 b2 = kMaxNonSurrogateCharCode ->
      uc16_length b0 b1 b2 = 2 /\ n = 1).
Proof.
  unfold write_as_utf16, uc16_length, kMaxNonSurrogateCharCode.
  destruct (Z.leb_spec (decode_unicode b0 b1 b2) 65535) as [Hle|Hgt].
  - intros H. injection H as <- _.
    destruct (Z.ltb_spec (decode_unicode b0 b1 b2) 65535); split; try lia.
  - destruct (ASSERT debug (decode_unicode b0 b1 b2 <=? kMaxCharCode));
      cbn [bind]; [|discriminate].
    intros H. injection H as <- _.
    destruct (Z.ltb_spec (decode_unicode b0 b1 b2) 65535); split; try lia.
Qed.

(** The escape of U+1F600 and the escape of U+FFFF. *)
Lemma uc16_length_as_written_witness :
  (uc16_length 1 246 0 = 2 <-> decode_unicode 1 246 0 <> 65535)
  /\ uc16_length 0 255 255 <> 1.
Proof.
  split.
  - apply (uc16_length_as_written true 1 246 0 2 2 [55357; 56832]).
    reflexivity.
  - intros Heq.
    apply (proj1 (uc16_length_as_written true 0 255 255 2 1 [65535]
                    eq_refl)) in Heq.
    apply Heq. reflexivity.
Defined.

(** ** The hash of a range *)

Lemma pieces_fuel (fuel : nat) :
  forall (more : nat) (units : list Z),
  (length units <= fuel)%nat -> (length units <= more)%nat ->
  pieces fuel units = pieces more units.
Proof.
  induction fuel as [|fuel IH]; intros more units Hfuel Hmore.
  - destruct units; [|cbn in Hfuel; lia]. destruct more; reflexivity.
  - destruct units as [|u units]; [destruct more; reflexivity|].
    destruct more as [|more]; [cbn in Hmore; lia|].
    cbn [pieces]. f_equal.
    apply IH; rewrite length_skipn; cbn [length] in *;
      change (Z.to_nat kBufferSize) with 32%nat; lia.
Qed.

Lemma chunks_step (units : list Z) :
  units <> [] ->
  chunks units
  = firstn (Z.to_nat kBufferSize) units
    :: chunks (skipn (Z.to_nat kBufferSize) units).
Proof.
  intros Hne. unfold chunks.
  destruct units as [|u units]; [contradiction|].
  cbn [length pieces]. f_equal.
  apply pieces_fuel; rewrite length_skipn; cbn [length];
    change (Z.to_nat kBufferSize) with 32%nat; lia.
Qed.

Lemma concat_chunks (units : list Z) : concat (chunks units) = units.
Proof.
  remember (length units) as n eqn:Hn.
  assert (Hle : (length units <= n)%nat) by lia. clear Hn.
  revert units Hle.
  induction n as [|n IH]; intros units Hle.
  - destruct units; [reflexivity|cbn in Hle; lia].
  - destruct units as [|u units]; [reflexivity|].
    rewrite chunks_step by discriminate. cbn [concat].
    rewrite IH.
    + apply firstn_skipn.
    + rewrite length_skipn. cbn [length] in *.
      change (Z.to_nat kBufferSize) with 32%nat. lia.
Qed.

Section RangeHash.

Variable debug : bool.
Variable token_lengths : Z -> Z.
Variable token_chars : Z -> list Z.
Variable StringHasher : Type.
Variable has_trivial_hash : StringHasher -> bool.
Variable is_array_index : StringHasher -> bool.
Variable AddCharacter : StringHasher -> Z -> StringHasher.
Variable AddCharacterNoIndex : StringHasher -> Z -> StringHasher.
Variable GetHashField : StringHasher -> Z.
Variable new_StringHasher : Z -> Z -> StringHasher.
Variable HashSeed : Z.
Variable hash : CompressedSource -> Z.
Variable String_SubStringHash : list Z -> Z -> Z -> Z.

Hypothesis table_ok : code_table_ok token_lengths token_chars.

Local Abbreviation AddCharacters :=
  (CompressedSource.AddCharacters StringHasher is_array_index AddCharacter
     AddCharacterNoIndex).
Local Abbreviation ComputeHash_loop :=
  (CompressedSource.ComputeHash_loop debug token_lengths token_chars
     StringHasher is_array_index AddCharacter AddCharacterNoIndex).
Local Abbreviation SubStringHash :=
  (CompressedSource.SubStringHash debug token_lengths token_chars
     StringHasher has_trivial_hash is_array_index AddCharacter
     AddCharacterNoIndex GetHashField new_StringHasher HashSeed hash
     String_SubStringHash).

Lemma ComputeHash_loop_units (data : list Z) (char_length : Z)
    (tokens : list token) (fuel : nat) :
  well_formed token_lengths token_chars debug data char_length tokens ->
  forall (pos remaining : Z) (hasher : StringHasher),
  0 <= pos -> 0 <= remaining -> pos + remaining <= char_length ->
  (Z.to_nat remaining < fuel)%nat ->
  ComputeHash_loop fuel data (cursor_at token_lengths tokens pos) remaining
    hasher
  = Ok (fold_left AddCharacters
          (chunks (firstn (Z.to_nat remaining)
                     (skipn (Z.to_nat pos) (units_of token_chars tokens))))
          hasher).
Proof.
  intros Hwf.
  assert (Hvalid : forallb valid_token tokens = true) by apply Hwf.
  assert (Hlength : Z.of_nat (length (units_of token_chars tokens))
                    = char_length) by apply Hwf.
  pose proof (well_formed_advance debug token_lengths token_chars table_ok
                _ _ _ Hwf) as Hadvance.
  induction fuel as [|fuel IH]; intros pos remaining hasher Hpos Hrem Hle
    Hfuel; [lia|].
  cbn [CompressedSource.ComputeHash_loop].
  destruct (Z.eqb_spec remaining 0) as [->|Hne]; [reflexivity|].
  set (count := if remaining <? kBufferSize then remaining else kBufferSize).
  assert (Hcount : 0 < count <= remaining
                   /\ Z.to_nat count
                      = Nat.min (Z.to_nat kBufferSize) (Z.to_nat remaining)).
  { subst count. unfold kBufferSize.
    destruct (Z.ltb_spec remaining 32); lia. }
  clearbody count.
  rewrite (Decode_cursor_at debug token_lengths token_chars table_ok false
             data char_length tokens pos count Hwf)
    by (lia || discriminate).
  cbn [bind].
  rewrite (AdvanceCursor_addresses debug token_lengths token_chars table_ok
             data char_length tokens _ pos count Hwf);
    [|apply (cursor_at_addresses token_lengths);
      [exact Hvalid|lia]|lia|lia].
  cbn [bind]. rewrite IH by lia.
  f_equal.
  rewrite (chunks_step
             (firstn (Z.to_nat remaining)
                (skipn (Z.to_nat pos) (units_of token_chars tokens)))).
  - cbn [fold_left]. rewrite firstn_firstn, skipn_firstn_comm, skipn_skipn.
    destruct Hcount as [Hrange Hmin]. rewrite <- Hmin.
    f_equal. f_equal.
    destruct (Nat.le_gt_cases (Z.to_nat kBufferSize) (Z.to_nat remaining))
      as [Hfull|Hlast].
    + f_equal; [lia|]. f_equal. lia.
    + replace (Z.to_nat remaining - Z.to_nat kBufferSize)%nat with 0%nat
        by lia.
      replace (Z.to_nat (remaining - count)) with 0%nat by lia.
      reflexivity.
  - intros Hnil. apply (f_equal (@length Z)) in Hnil.
    rewrite length_firstn, length_skipn in Hnil. cbn [length] in Hnil. lia.
Qed.

(** Without the array-index state the pieces do not show: adding them one
    after the other is adding the characters one by one. *)
Lemma AddCharacters_chunks (pieces_ : list (list Z)) :
  (forall hasher c, is_array_index hasher = false ->
     is_array_index (AddCharacterNoIndex hasher c) = false) ->
  forall hasher : StringHasher,
  is_array_index hasher = false ->
  fold_left AddCharacters pieces_ hasher
  = fold_left AddCharacterNoIndex (concat pieces_) hasher.
Proof.
  intros Hkeep.
  assert (Hfold : forall chars hasher, is_array_index hasher = false ->
            is_array_index (fold_left AddCharacterNoIndex chars hasher)
            = false).
  { induction chars as [|c chars IHc]; intros hasher Hh; [exact Hh|].
    cbn [fold_left]. apply IHc, Hkeep, Hh. }
  induction pieces_ as [|piece rest IH]; intros hasher Hh; [reflexivity|].
  cbn [fold_left concat]. rewrite fold_left_app.
  unfold CompressedSource.AddCharacters at 2. rewrite Hh.
  apply IH, Hfold, Hh.
Qed.


End RangeHash.


(** ** Decompressing to a stream *)

Section StreamOfRange.

Variable debug : bool.
Variable token_lengths : Z -> Z.
Variable token_chars : Z -> list Z.
Variable StringStream : Type.
Variable Put : StringStream -> Z -> bool * StringStream.
Variable Utf8_Encode : Z -> list Z.

Hypothesis table_ok : code_table_ok token_lengths token_chars.

(** A stream that takes every character, and an encoder that writes one
    byte at least. *)
Hypothesis Put_takes : forall dest c, fst (Put dest c) = true.
Hypothesis Utf8_Encode_writes : forall codepoint, Utf8_Encode codepoint <> [].

Local Abbreviation Decompress_to_loop :=
  (CompressedSource.Decompress_to_loop debug token_lengths token_chars
     StringStream Put Utf8_Encode).
Local Abbreviation put := (fun dest c => snd (Put dest c)).

Lemma Put_bytes_takes (bytes_ : list Z) :
  forall dest : StringStream,
  Put_bytes StringStream Put bytes_ dest = (true, fold_left put bytes_ dest).
Proof.
  induction bytes_ as [|b rest IH]; intros dest; cbn [Put_bytes fold_left];
    [reflexivity|].
  pose proof (Put_takes dest b) as Htaken.
  destruct (Put dest b) as [taken after]. cbn [fst snd] in *.
  subst taken. cbn [negb]. apply IH.
Qed.

Lemma range_from_head (units : list Z) (start length_ k : Z) :
  0 <= start -> 0 <= k < length_ ->
  start + length_ <= Z.of_nat (length units) ->
  range_from units start length_ k
  = nth (Z.to_nat (start + k)) units 0
    :: range_from units start length_ (k + 1).
Proof.
  intros Hstart Hk Hle. unfold range_from.
  rewrite (skipn_cons_nth units (Z.to_nat (start + k))) by lia.
  replace (Z.to_nat (length_ - k)) with (S (Z.to_nat (length_ - (k + 1))))
    by lia.
  replace (Z.to_nat (start + (k + 1))) with (S (Z.to_nat (start + k)))
    by lia.
  reflexivity.
Qed.

Lemma range_from_end (units : list Z) (start length_ k : Z) :
  length_ <= k -> range_from units start length_ k = [].
Proof.
  intros Hk. unfold range_from.
  replace (Z.to_nat (length_ - k)) with 0%nat by lia. reflexivity.
Qed.

Lemma Decompress_to_loop_units (data : list Z) (char_length : Z)
    (tokens : list token) (start length_ : Z) (fuel : nat) :
  well_formed token_lengths token_chars debug data char_length tokens ->
  0 <= start -> start + length_ <= char_length ->
  forall (chars_read : Z) (dest : StringStream),
  0 <= chars_read <= length_ ->
  (Z.to_nat (length_ - chars_read) < fuel)%nat ->
  Decompress_to_loop fuel data
    (cursor_at token_lengths tokens (start + chars_read)) chars_read length_
    dest
  = Ok (length_,
        fold_left put
          (flat_map Utf8_Encode
             (code_points
                (range_from (units_of token_chars tokens) start length_
                   chars_read)))
          dest).
Proof.
  intros Hwf Hstart Hle.
  assert (Hvalid : forallb valid_token tokens = true) by apply Hwf.
  assert (Hlength : Z.of_nat (length (units_of token_chars tokens))
                    = char_length) by apply Hwf.
  pose proof (well_formed_advance debug token_lengths token_chars table_ok
                _ _ _ Hwf) as Hadvance.
  assert (Hget : forall k, 0 <= k < length_ ->
            Get debug token_lengths token_chars data
              (cursor_at token_lengths tokens (start + k))
            = Ok (nth (Z.to_nat (start + k))
                    (units_of token_chars tokens) 0)).
  { intros k Hk.
    apply (Get_cursor_at debug token_lengths token_chars table_ok data
             char_length tokens (start + k) Hwf). lia. }
  assert (Hstep : forall k, 0 <= k < length_ ->
            AdvanceCursor debug token_lengths data
              (cursor_at token_lengths tokens (start + k)) 1
            = Ok (cursor_at token_lengths tokens (start + (k + 1)))).
  { intros k Hk. replace (start + (k + 1)) with (start + k + 1) by lia.
    apply (AdvanceCursor_addresses debug token_lengths token_chars table_ok
             data char_length tokens _ (start + k) 1 Hwf); [|lia|lia].
    apply (cursor_at_addresses token_lengths); [exact Hvalid|lia]. }
  assert (Hput : forall codepoint (dest : StringStream)
                   (k : StringStream -> result (Z * StringStream))
                   (prev : Z),
            (first <- at_ (Utf8_Encode codepoint) 0 ;;
             let '(taken, dest) := Put dest first in
             if negb taken then Ok (prev, dest)
             else
               let '(taken, dest) :=
                 Put_bytes StringStream Put (tl (Utf8_Encode codepoint))
                   dest in
               if negb taken then Ok (prev, dest) else k dest)
            = k (fold_left put (Utf8_Encode codepoint) dest)).
  { intros codepoint dest k prev.
    pose proof (Utf8_Encode_writes codepoint) as Hwrites.
    destruct (Utf8_Encode codepoint) as [|first rest]; [contradiction|].
    change (at_ (first :: rest) 0) with (Ok first). cbn [bind tl fold_left].
    pose proof (Put_takes dest first) as Htaken.
    destruct (Put dest first) as [taken after]. cbn [fst snd] in *.
    subst taken. cbn [negb]. rewrite Put_bytes_takes. reflexivity. }
  assert (Hhead : forall k, 0 <= k < length_ ->
            range_from (units_of token_chars tokens) start length_ k
            = nth (Z.to_nat (start + k)) (units_of token_chars tokens) 0
              :: range_from (units_of token_chars tokens) start length_
                   (k + 1))
    by (intros k Hk; apply range_from_head; lia).
  induction fuel as [|fuel IH]; intros chars_read dest Hread Hfuel; [lia|].
  cbn [CompressedSource.Decompress_to_loop].
  destruct (Z.ltb_spec chars_read length_) as [Hmore|Hdone].
  - rewrite Hget, Hhead by lia. cbn [bind]. rewrite Hstep by lia.
    cbn [bind].
    set (c := nth (Z.to_nat (start + chars_read))
                (units_of token_chars tokens) 0).
    destruct (Z.ltb_spec (chars_read + 1) length_) as [Hpair|Hlast].
    + rewrite (Hhead (chars_read + 1)) by lia.
      set (t := nth (Z.to_nat (start + (chars_read + 1)))
                  (units_of token_chars tokens) 0).
      cbn [code_points].
      destruct (IsLeadSurrogate c) eqn:Hlead; cbn [andb].
      * rewrite Hget by lia. cbn [bind]. fold t.
        destruct (IsTrailSurrogate t) eqn:Htrail.
        -- rewrite Hstep by lia. cbn [bind].
           rewrite Hput, IH by lia.
           cbn [flat_map]. rewrite fold_left_app. reflexivity.
        -- cbn [bind]. rewrite Hput, IH by lia.
           cbn [flat_map]. rewrite fold_left_app.
           rewrite (Hhead (chars_read + 1)) by lia. reflexivity.
      * cbn [bind]. rewrite Hput, IH by lia.
        cbn [flat_map]. rewrite fold_left_app.
        rewrite (Hhead (chars_read + 1)) by lia. reflexivity.
    + rewrite andb_false_r. cbn [bind]. rewrite Hput, IH by lia.
      rewrite range_from_end by lia.
      cbn [code_points flat_map fold_left].
      rewrite app_nil_r. reflexivity.
  - rewrite range_from_end by lia.
    cbn [code_points flat_map fold_left]. do 2 f_equal. lia.
Qed.

(** X23: on a well-formed source, with a stream that takes every
    character, [Decompress(start, length, dest)] of a range within the
    source returns [length] and has put to the stream the UTF-8 bytes of
    the code points of the range's code units, in their order: a surrogate
    pair inside the range is put as one code point, and a leading surrogate
    that is the last code unit of the range by itself.  The cached string
    is not consulted. *)
Theorem Decompress_to_units (source : CompressedSource)
    (tokens : list token) (start length_ : Z) (dest : StringStream) :
  well_formed_source token_lengths token_chars debug source tokens ->
  0 <= start -> 0 <= length_ -> start + length_ <= char_length source ->
  Decompress_to debug token_lengths token_chars StringStream Put Utf8_Encode
    source start length_ dest
  = Ok (length_,
        fold_left put
          (flat_map Utf8_Encode
             (code_points
                (NewSubString (units_of token_chars tokens) start
                   (start + length_))))
          dest).
Proof.
  intros [Hwf _] Hstart Hlength Hle. unfold Decompress_to.
  rewrite (GetCursor_cursor_at debug token_lengths token_chars table_ok
             (bytes source) (char_length source) tokens start Hwf) by lia.
  cbn [bind].
  assert (Hzero : 0 <= 0 <= length_) by lia.
  assert (Hfuel : (Z.to_nat (length_ - 0) < S (Z.to_nat length_))%nat)
    by lia.
  pose proof (Decompress_to_loop_units (bytes source) (char_length source)
                tokens start length_ _ Hwf Hstart Hle 0 dest Hzero Hfuel)
    as Hloop.
  unfold range_from in Hloop. rewrite Z.add_0_r, Z.sub_0_r in Hloop.
  rewrite Hloop. unfold NewSubString.
  replace (start + length_ - start) with length_ by lia. reflexivity.
Qed.

End StreamOfRange.

Lemma utf8_bytes_writes (codepoint : Z) : utf8_bytes codepoint <> [].
Proof.
  unfold utf8_bytes.
  destruct (codepoint <=? 0x7F); [discriminate|].
  destruct (codepoint <=? 0x7FF); [discriminate|].
  destruct (codepoint <=? 0xFFFF); discriminate.
Qed.

(** The last line feed of the short source and the surrogate pair behind
    it, to a stream that appends what it is given: the pair is put as the
    four bytes of U+1F600. *)
Lemma Decompress_to_units_witness :
  Decompress_to true SampleTable.token_lengths SampleTable.token_chars
    (list Z) (fun dest c => (true, dest ++ [c])) utf8_bytes short_source
    10 3 []
  = Ok (3, [10; 240; 159; 152; 128]).
Proof.
  exact (Decompress_to_units true SampleTable.token_lengths
           SampleTable.token_chars (list Z)
           (fun dest c => (true, dest ++ [c])) utf8_bytes sample_table_ok
           (fun _ _ => eq_refl) utf8_bytes_writes short_source short_tokens
           10 3 [] (short_source_well_formed true)
           ltac:(lia) ltac:(lia) ltac:(cbn; lia)).
Defined.

End CodecInvariants.
